(** * The reactivity rule of eslint-plugin-solid, embedded in Rocq

    The embedding follows [src/dist/index.mjs]: the helpers at the top of the
    bundle ([find], [findParent], [trace], [findInScope], [trackImports], ...),
    the classes [ScopeStackItem] and [ScopeStack], and the rule [reactivity]
    (its [create] function with every listener it returns).

    The host (ESLint, its scope manager, estraverse) is not part of the
    repository.  It enters the model as data: a syntax tree whose nodes carry
    their parent link, the scope manager's variables with their references,
    and the order in which the walker visits the nodes. *)

From Stdlib Require Import List String Ascii Bool Arith Lia Permutation.
Import ListNotations.
Local Open Scope string_scope.
Local Open Scope list_scope.
Local Open Scope nat_scope.
Set Warnings "-register-all".

(** ** Strings: the regular expressions of the bundle, written out *)

Definition isUpper (c : ascii) : bool :=
  let n := nat_of_ascii c in (65 <=? n) && (n <=? 90).

Definition isLower (c : ascii) : bool :=
  let n := nat_of_ascii c in (97 <=? n) && (n <=? 122).

(** [String.prototype.includes]. *)
Fixpoint includes (sub s : string) : bool :=
  String.prefix sub s ||
  match s with
  | EmptyString => false
  | String _ rest => includes sub rest
  end.

(** [String.prototype.endsWith]. *)
Definition endsWith (suffix s : string) : bool :=
  (String.length suffix <=? String.length s) &&
  String.eqb (substring (String.length s - String.length suffix)
                        (String.length suffix) s) suffix.

(** [/^p[cls]/]: the literal prefix [p] followed by one character of the
    class [cls]. *)
Definition prefixThen (p : string) (cls : ascii -> bool) (s : string) : bool :=
  String.prefix p s &&
  match String.get (String.length p) s with
  | Some c => cls c
  | None => false
  end.

Fixpoint allChars (cls : ascii -> bool) (s : string) : bool :=
  match s with
  | EmptyString => true
  | String c rest => cls c && allChars cls rest
  end.

(** [domElementRegex = /^[a-z]/]. *)
Definition isDOMElementName (name : string) : bool := prefixThen "" isLower name.

(** [propsRegex = /[pP]rops/]. *)
Definition isPropsByName (name : string) : bool :=
  includes "props" name || includes "Props" name.

(** [/^on[:A-Z]/]. *)
Definition isEventHandlerName (s : string) : bool :=
  prefixThen "on" (fun c => Ascii.eqb c ":"%char || isUpper c) s.

(** [/^static[A-Z]/]. *)
Definition isStaticPropName (s : string) : bool := prefixThen "static" isUpper s.

(** [/^(?:use|create)[A-Z]/]. *)
Definition isReactiveFunctionName (s : string) : bool :=
  prefixThen "use" isUpper s || prefixThen "create" isUpper s.

(** [/^(?:initial|default|static)[A-Z]/]. *)
Definition isExemptPropName (s : string) : bool :=
  prefixThen "initial" isUpper s || prefixThen "default" isUpper s
  || prefixThen "static" isUpper s.

(** [/^on[a-z]+$/]. *)
Definition isLowercaseHandlerName (s : string) : bool :=
  String.prefix "on" s &&
  (3 <=? String.length s) &&
  allChars isLower (substring 2 (String.length s - 2) s).

(** [/^(?:forEach|map|flatMap|reduce|reduceRight|find|findIndex|filter|every|some)$/]. *)
Definition isArrayIterationMethod (s : string) : bool :=
  existsb (String.eqb s)
    ["forEach"; "map"; "flatMap"; "reduce"; "reduceRight"; "find"; "findIndex";
     "filter"; "every"; "some"].

(** [fromModule = /^solid-js(?:\/?|\b)/]: the group matches the empty string,
    so the test is a prefix test. *)
Definition fromModule (s : string) : bool := String.prefix "solid-js" s.

Definition inList (s : string) (l : list string) : bool := existsb (String.eqb s) l.

(** ** Syntax trees

    A node is a JavaScript object: a [type], a [parent] link and further
    properties.  Node identity ([===]) is the identity of the object; the
    model gives every node a number [nid] and compares those.  A property
    holding a child node holds the child's number, resolved in the tree. *)

Inductive value :=
| VUndef
| VNull
| VBool (b : bool)
| VStr (s : string)
| VNode (id : nat)
| VList (l : list value).

Inductive Node := mkNode {
  nid : nat;
  type : string;
  parent : option Node;
  fields : list (string * value)
}.

(** The tree as the walkers visit it: a node and its children in visiting
    order. *)
Inductive Ast := AstNode (n : Node) (kids : list Ast).

Definition astNode (t : Ast) : Node := match t with AstNode n _ => n end.
Definition astKids (t : Ast) : list Ast := match t with AstNode _ kids => kids end.

Fixpoint flatten (t : Ast) : list Node :=
  match t with
  | AstNode n kids => n :: flat_map flatten kids
  end.

Fixpoint subtrees (t : Ast) : list Ast :=
  match t with
  | AstNode n kids => t :: flat_map subtrees kids
  end.

(** [a === b] on nodes. *)
Definition same (a b : Node) : bool := nid a =? nid b.

(** [a === b] where either side may be [undefined] or [null]. *)
Definition sameOpt (a b : option Node) : bool :=
  match a, b with
  | Some x, Some y => same x y
  | _, _ => false
  end.

(** [o?.type === t]. *)
Definition typeIs (o : option Node) (t : string) : bool :=
  match o with
  | Some n => String.eqb (type n) t
  | None => false
  end.

(** ** The scope manager's data *)

Record Reference := mkReference {
  identifier : Node;
  init : bool;
  isWrite : bool;
  isRead : bool
}.

Definition isReadOnly (r : Reference) : bool := isRead r && negb (isWrite r).

Record Def := mkDef {
  def_type : string;
  def_node : Node
}.

Record ScopeVariable := mkVariable {
  v_id : nat;
  v_name : string;
  v_references : list Reference;
  v_defs : list Def
}.

(** [a === b] on the scope manager's variables. *)
Definition sameVariable (a b : ScopeVariable) : bool := v_id a =? v_id b.

(** What the host hands to the rule for one file. While the walker is at
    [n], [variableNamed n name] is [findVariable(context.getScope(), name)]
    for a name, and [variableOf n identifier] is the same call for an
    identifier node (the search then starts at the innermost scope around
    that node); [declaredVariables] is
    [sourceCode.scopeManager.getDeclaredVariables]; [text] is
    [sourceCode.getText]. *)
Record Source := mkSource {
  ast : Ast;
  text : Node -> string;
  variables : list ScopeVariable;
  variableNamed : Node -> string -> option ScopeVariable;
  variableOf : Node -> Node -> option ScopeVariable;
  declaredVariables : Node -> list ScopeVariable
}.

Record Options := mkOptions {
  customReactiveFunctions : list string
}.

(** ** Findings *)

Inductive Loc :=
| AtNode (n : nat)
| AtFunctionHead (n : nat).

Record Report := mkReport {
  loc : Loc;
  messageId : string;
  data : list (string * string)
}.

(** ** The rule's state *)

Inductive Expect := expect_function | expect_called_function | expect_expression.

Definition Expect_eqb (a b : Expect) : bool :=
  match a, b with
  | expect_function, expect_function => true
  | expect_called_function, expect_called_function => true
  | expect_expression, expect_expression => true
  | _, _ => false
  end.

(** [{ node, expect }]; the node is [undefined] when the call site has no
    such argument. *)
Record TrackedScope := mkTrackedScope {
  ts_node : option Node;
  expect : Expect
}.

(** [class ScopeStackItem]. [unnamedDerivedSignals] is a [Set] of nodes, kept
    in insertion order. *)
Record ScopeStackItem := mkItem {
  node : Node;
  trackedScopes : list TrackedScope;
  unnamedDerivedSignals : list Node;
  hasJSX : bool
}.

(** An entry of [signals] or [props]: [{ references, variable,
    declarationScope }].  [eid] stands for the identity of the entry object:
    the rule never reads it, the conservation law is stated with it. *)
Record Binding := mkBinding {
  references : list Reference;
  variable : ScopeVariable;
  declarationScope : Node;
  eid : nat
}.

(** One reference handed to the validator: the frame being exited, the entry
    it came out of, the reference. *)
Record Yield := mkYield {
  y_scope : Node;
  y_eid : nat;
  y_reference : Reference
}.

(** [frames], [syncCallbacks], [signals] and [props] are the [ScopeStack]
    (the array itself, bottom frame first, and its three fields);
    [importMap] is the closure of [trackImports]; [reports] is what
    [context.report] received.  [registered] and [yielded] record, for the
    statement of the conservation law only, every entry ever pushed and every
    reference ever yielded. *)
Record St := mkSt {
  frames : list ScopeStackItem;
  syncCallbacks : list Node;
  signals : list Binding;
  props : list Binding;
  importMap : list (string * string);
  reports : list Report;
  registered : list ScopeVariable;
  yielded : list Yield
}.

(** [new ScopeStack()], [trackImports()], nothing reported. *)
Definition create : St := mkSt [] [] [] [] [] [] [] [].

(** ** The monad: state, and the exceptions JavaScript throws *)

Inductive Result (A : Type) :=
| Ok (a : A) (s : St)
| Throw (message : string).
Arguments Ok {A} a s.
Arguments Throw {A} message.

Definition M (A : Type) : Type := St -> Result A.

Definition ret {A} (a : A) : M A := fun s => Ok a s.

Definition bind {A B} (m : M A) (f : A -> M B) : M B :=
  fun s => match m s with
           | Ok a s' => f a s'
           | Throw e => Throw e
           end.

Definition throw {A} (e : string) : M A := fun _ => Throw e.

Definition gets {A} (f : St -> A) : M A := fun s => Ok (f s) s.

Definition modify (f : St -> St) : M unit := fun s => Ok tt (f s).

Notation "x <- c1 ;; c2" := (bind c1 (fun x => c2))
  (at level 61, c1 at next level, right associativity).
Notation "c1 ;; c2" := (bind c1 (fun _ => c2))
  (at level 61, right associativity).

Definition when (b : bool) (m : M unit) : M unit := if b then m else ret tt.

Definition forEach {A} (l : list A) (f : A -> M unit) : M unit :=
  (fix each (l : list A) : M unit :=
     match l with
     | [] => ret tt
     | x :: rest => f x ;; each rest
     end) l.

(** [Array.prototype.find] with a predicate that reads the state. *)
Fixpoint findM {A} (p : A -> M bool) (l : list A) : M (option A) :=
  match l with
  | [] => ret None
  | x :: rest => b <- p x ;; if b then ret (Some x) else findM p rest
  end.

(** [forEach] filling two arrays: the elements that pass and those that do
    not, each in the order met. *)
Fixpoint partitionM {A} (p : A -> M bool) (l : list A) : M (list A * list A) :=
  match l with
  | [] => ret ([], [])
  | x :: rest =>
      b <- p x ;;
      r <- partitionM p rest ;;
      ret (if b then (x :: fst r, snd r) else (fst r, x :: snd r))
  end.

Definition isSome {A} (o : option A) : bool :=
  match o with Some _ => true | None => false end.

(** [l[i] = f(l[i])], nothing when [i] is out of range. *)
Fixpoint updateAt {A} (i : nat) (f : A -> A) (l : list A) : list A :=
  match l, i with
  | [], _ => []
  | x :: rest, 0 => f x :: rest
  | x :: rest, S j => x :: updateAt j f rest
  end.

(** [Array.prototype.findIndex]. *)
Fixpoint findIndex {A} (p : A -> bool) (l : list A) : option nat :=
  match l with
  | [] => None
  | x :: rest => if p x then Some 0 else option_map S (findIndex p rest)
  end.

Definition set_frames (f : list ScopeStackItem) (s : St) : St :=
  mkSt f (syncCallbacks s) (signals s) (props s) (importMap s) (reports s)
       (registered s) (yielded s).
Definition set_syncCallbacks (c : list Node) (s : St) : St :=
  mkSt (frames s) c (signals s) (props s) (importMap s) (reports s)
       (registered s) (yielded s).
Definition set_signals (l : list Binding) (s : St) : St :=
  mkSt (frames s) (syncCallbacks s) l (props s) (importMap s) (reports s)
       (registered s) (yielded s).
Definition set_props (l : list Binding) (s : St) : St :=
  mkSt (frames s) (syncCallbacks s) (signals s) l (importMap s) (reports s)
       (registered s) (yielded s).
Definition set_importMap (m : list (string * string)) (s : St) : St :=
  mkSt (frames s) (syncCallbacks s) (signals s) (props s) m (reports s)
       (registered s) (yielded s).
Definition set_reports (r : list Report) (s : St) : St :=
  mkSt (frames s) (syncCallbacks s) (signals s) (props s) (importMap s) r
       (registered s) (yielded s).
Definition set_registered (r : list ScopeVariable) (s : St) : St :=
  mkSt (frames s) (syncCallbacks s) (signals s) (props s) (importMap s)
       (reports s) r (yielded s).
Definition set_yielded (y : list Yield) (s : St) : St :=
  mkSt (frames s) (syncCallbacks s) (signals s) (props s) (importMap s)
       (reports s) (registered s) y.

(** [context.report]. *)
Definition report (l : Loc) (mid : string) (d : list (string * string)) : M unit :=
  modify (fun s => set_reports (reports s ++ [mkReport l mid d]) s).

(** ** The helpers at the top of the bundle *)

(** [find(node, predicate)]: the node itself or its nearest ancestor that
    passes. *)
Fixpoint find (n : Node) (predicate : Node -> bool) : option Node :=
  if predicate n then Some n
  else match parent n with
       | Some p => find p predicate
       | None => None
       end.

Definition findParent (n : Node) (predicate : Node -> bool) : option Node :=
  match parent n with
  | Some p => find p predicate
  | None => None
  end.

Definition FUNCTION_TYPES : list string :=
  ["FunctionExpression"; "ArrowFunctionExpression"; "FunctionDeclaration"].

Definition isFunctionNode (n : Node) : bool := inList (type n) FUNCTION_TYPES.

Definition PROGRAM_OR_FUNCTION_TYPES : list string := ["Program"] ++ FUNCTION_TYPES.

Definition isProgramOrFunctionNode (n : Node) : bool :=
  inList (type n) PROGRAM_OR_FUNCTION_TYPES.

(** [isFunctionNode(node)] for a value that may be [undefined] or [null]. *)
Definition isFunctionNodeOpt (o : option Node) : bool :=
  match o with Some n => isFunctionNode n | None => false end.

Definition isJSXElementOrFragment (o : option Node) : bool :=
  typeIs o "JSXElement" || typeIs o "JSXFragment".

Definition parentOf (o : option Node) : option Node :=
  match o with Some n => parent n | None => None end.

(** [findInScope(node, scope, predicate)]. *)
Definition findInScope (n scope : Node) (predicate : Node -> bool) : option Node :=
  let found := find n (fun node2 => same node2 scope || predicate node2) in
  if sameOpt found (Some scope) && negb (predicate n) then None else found.

(** The number of proper ancestors. *)
Fixpoint depth (n : Node) : nat :=
  match parent n with
  | Some p => S (depth p)
  | None => 0
  end.

(** [ignoreTransparentWrappers(node, true)]: upwards. *)
Fixpoint ignoreTransparentWrappersUp (n : Node) : Node :=
  if inList (type n) ["TSAsExpression"; "TSNonNullExpression"; "TSSatisfiesExpression"]
  then match parent n with
       | Some next => ignoreTransparentWrappersUp next
       | None => n
       end
  else n.

(** [matchImport(imports, str)] over the map [handleImportDeclaration]
    filled: the first of [imports] whose local name is [str]. *)
Definition importGet (importMap : list (string * string)) (k : string) : option string :=
  option_map snd (List.find (fun kv => String.eqb (fst kv) k) importMap).

Definition importSet (k v : string) (importMap : list (string * string))
  : list (string * string) :=
  if isSome (importGet importMap k)
  then map (fun kv => if String.eqb (fst kv) k then (k, v) else kv) importMap
  else importMap ++ [(k, v)].

Definition matchImport (importMap : list (string * string)) (imports : list string)
  (str : string) : option string :=
  List.find (fun i => match importGet importMap i with
                      | Some l => String.eqb l str
                      | None => false
                      end) imports.

(** [matchImport(imports, str)] as a condition. [str] is a [name] property
    read off a node; where the node has none it is [undefined], which
    [Map.prototype.get] returns for every name that was not imported. *)
Definition matches (importMap : list (string * string)) (imports : list string)
  (str : option string) : bool :=
  match str with
  | Some s => isSome (matchImport importMap imports s)
  | None => existsb (fun i => negb (isSome (importGet importMap i))) imports
  end.

Section Rule.

Variable src : Source.
Variable options : Options.

(** *** Reading nodes *)

Definition getNode (id : nat) : option Node :=
  List.find (fun n => nid n =? id) (flatten (ast src)).

(** [node[k]], [undefined] when the node has no such property. *)
Definition field (n : Node) (k : string) : value :=
  match List.find (fun kv => String.eqb (fst kv) k) (fields n) with
  | Some kv => snd kv
  | None => VUndef
  end.

Definition nodeOf (v : value) : option Node :=
  match v with
  | VNode id => getNode id
  | _ => None
  end.

(** A property holding a node ([null] and [undefined] give [None]). *)
Definition child (n : Node) (k : string) : option Node := nodeOf (field n k).

Definition childOf (o : option Node) (k : string) : option Node :=
  match o with Some n => child n k | None => None end.

(** A property holding an array of nodes; a hole is [None]. *)
Definition childList (n : Node) (k : string) : list (option Node) :=
  match field n k with
  | VList l => map nodeOf l
  | _ => []
  end.

Definition childListOf (o : option Node) (k : string) : list (option Node) :=
  match o with Some n => childList n k | None => [] end.

(** A property holding a string. *)
Definition str (n : Node) (k : string) : option string :=
  match field n k with
  | VStr s => Some s
  | _ => None
  end.

Definition strOf (o : option Node) (k : string) : option string :=
  match o with Some n => str n k | None => None end.

(** A property read as a condition. *)
Definition flag (n : Node) (k : string) : bool :=
  match field n k with
  | VBool b => b
  | VUndef | VNull => false
  | VStr s => negb (String.eqb s "")
  | VNode _ | VList _ => true
  end.

Definition flagOf (o : option Node) (k : string) : bool :=
  match o with Some n => flag n k | None => false end.

(** [o?.[k] === n]: the property holds the very node [n]. *)
Definition childIs (o : option Node) (k : string) (n : Node) : bool :=
  match o with
  | Some p => match field p k with
              | VNode id => id =? nid n
              | _ => false
              end
  | None => false
  end.

Definition test (re : string -> bool) (s : option string) : bool :=
  match s with Some x => re x | None => re "undefined" end.

Definition strIs (s : option string) (x : string) : bool :=
  match s with Some y => String.eqb y x | None => false end.

Definition strIn (s : option string) (l : list string) : bool :=
  match s with Some y => inList y l | None => false end.

(** [node.name] as text for a finding's [data]. *)
Definition nameText (n : Node) : string :=
  match str n "name" with Some s => s | None => "undefined" end.

(** The subtree of the walk rooted at a node. *)
Definition subtreeOf (n : Node) : Ast :=
  match List.find (fun t => same (astNode t) n) (subtrees (ast src)) with
  | Some t => t
  | None => AstNode n []
  end.

(** [ignoreTransparentWrappers(node)]: downwards, through [expression]. The
    chain is no longer than the tree is deep. *)
Fixpoint ignoreTransparentWrappersDown (fuel : nat) (n : Node) : Node :=
  match fuel with
  | 0 => n
  | S fuel' =>
      if inList (type n) ["TSAsExpression"; "TSNonNullExpression"; "TSSatisfiesExpression"]
      then match child n "expression" with
           | Some next => ignoreTransparentWrappersDown fuel' next
           | None => n
           end
      else n
  end.

Definition ignoreTransparentWrappers (n : Node) : Node :=
  ignoreTransparentWrappersDown (List.length (flatten (ast src))) n.

(** [findVariable(context.getScope(), name)] while the walker is at [cur].
    No variable is named [undefined]. *)
Definition findVariable (cur : Node) (name : option string) : option ScopeVariable :=
  match name with
  | Some s => variableNamed src cur s
  | None => None
  end.

(** [findVariable(context.getScope(), node)] while the walker is at [cur]. *)
Definition findVariableOf (cur : Node) (n : option Node) : option ScopeVariable :=
  match n with
  | Some identifier' => variableOf src cur identifier'
  | None => None
  end.

(** [trace(node, context.getScope())]. A chain of declarations that never
    ends visits some variable twice; the recursion then exhausts the stack
    ([None]). *)
Fixpoint traceFrom (fuel : nat) (cur n : Node) : option Node :=
  match fuel with
  | 0 => None
  | S fuel' =>
      if String.eqb (type n) "Identifier" then
        match findVariableOf cur (Some n) with
        | None => Some n
        | Some variable =>
            match hd_error (v_defs variable) with
            | Some def =>
                if inList (def_type def) ["FunctionName"; "ClassName"; "ImportBinding"]
                then Some (def_node def)
                else if String.eqb (def_type def) "Variable" then
                  if (strIs (strOf (parent (def_node def)) "kind") "const"
                      || forallb (fun ref => init ref || isReadOnly ref)
                                 (v_references variable))
                     && typeIs (child (def_node def) "id") "Identifier"
                  then match child (def_node def) "init" with
                       | Some i => traceFrom fuel' cur i
                       | None => Some n
                       end
                  else Some n
                else Some n
            | None => Some n
            end
        end
      else Some n
  end.

Definition trace (cur n : Node) : M Node :=
  match traceFrom (S (List.length (variables src))) cur n with
  | Some t => ret t
  | None => throw "RangeError: Maximum call stack size exceeded"
  end.

(** [getFunctionName(node)]. *)
Definition getFunctionName (n : Node) : option string :=
  if (String.eqb (type n) "FunctionDeclaration" || String.eqb (type n) "FunctionExpression")
     && isSome (child n "id")
  then strOf (child n "id") "name"
  else if typeIs (parent n) "VariableDeclarator"
          && typeIs (childOf (parent n) "id") "Identifier"
  then strOf (childOf (parent n) "id") "name"
  else None.

(** [getNthDestructuredVar(id, n, context.getScope())]. *)
Definition getNthDestructuredVar (cur : Node) (id : option Node) (n : nat)
  : option ScopeVariable :=
  if typeIs id "ArrayPattern" then
    match nth_error (childListOf id "elements") n with
    | Some (Some el) =>
        if String.eqb (type el) "Identifier" then findVariable cur (str el "name")
        else None
    | _ => None
    end
  else None.

(** [getReturnedVar(id, context.getScope())]. *)
Definition getReturnedVar (cur : Node) (id : Node) : option ScopeVariable :=
  if String.eqb (type id) "Identifier" then findVariable cur (str id "name")
  else None.

(** *** [class ScopeStack] *)

Definition TypeError : string := "TypeError: Cannot read properties of undefined".

(** [currentScope()], followed by a property access. *)
Definition currentScope : M ScopeStackItem :=
  fun s => match List.length (frames s) with
           | 0 => Throw TypeError
           | S i => match nth_error (frames s) i with
                    | Some item => Ok item s
                    | None => Throw TypeError
                    end
           end.

(** [parentScope()]. *)
Definition parentScope : M (option ScopeStackItem) :=
  gets (fun s => match List.length (frames s) with
                 | S (S i) => nth_error (frames s) i
                 | _ => None
                 end).

(** An assignment to a property of [currentScope()]. *)
Definition modifyCurrentScope (f : ScopeStackItem -> ScopeStackItem) : M unit :=
  _ <- currentScope ;;
  modify (fun s => set_frames (updateAt (List.length (frames s) - 1) f (frames s)) s).

(** [findDeepestDeclarationScope(a, b)]. *)
Definition findDeepestDeclarationScope (a b : Node) : M Node :=
  if same a b then ret a
  else
    stack <- gets frames ;;
    match List.find (fun item => same a (node item) || same b (node item)) (rev stack) with
    | Some item => ret (node item)
    | None => throw "This should never happen"
    end.

Definition newBinding (v : ScopeVariable) (declarationScope : Node) (s : St) : Binding :=
  mkBinding (filter (fun reference => negb (init reference)) (v_references v))
            v declarationScope (List.length (registered s)).

(** [pushSignal(variable, declarationScope)]. *)
Definition pushSignal (v : ScopeVariable) (declarationScope : Node) : M unit :=
  modify (fun s =>
    set_registered (registered s ++ [v])
      (set_signals (signals s ++ [newBinding v declarationScope s]) s)).

(** [pushSignal(variable)]: the scope defaults to [this.currentScope().node]. *)
Definition pushSignalHere (v : ScopeVariable) : M unit :=
  c <- currentScope ;; pushSignal v (node c).

Definition set_declarationScope (d : Node) (b : Binding) : Binding :=
  mkBinding (references b) (variable b) d (eid b).

Definition set_references (r : list Reference) (b : Binding) : Binding :=
  mkBinding r (variable b) (declarationScope b) (eid b).

(** [pushUniqueSignal(variable, declarationScope)]. *)
Definition pushUniqueSignal (v : ScopeVariable) (declarationScope' : Node) : M unit :=
  sigs <- gets signals ;;
  match findIndex (fun s => sameVariable (variable s) v) sigs with
  | None => pushSignal v declarationScope'
  | Some i =>
      match nth_error sigs i with
      | Some foundSignal =>
          d <- findDeepestDeclarationScope (declarationScope foundSignal) declarationScope' ;;
          modify (fun s => set_signals (updateAt i (set_declarationScope d) (signals s)) s)
      | None => ret tt
      end
  end.

(** [pushProps(variable, declarationScope)]. *)
Definition pushProps (v : ScopeVariable) (declarationScope : Node) : M unit :=
  modify (fun s =>
    set_registered (registered s ++ [v])
      (set_props (props s ++ [newBinding v declarationScope s]) s)).

(** The [while] loop of [isReferenceInCurrentScope]. Every turn moves
    [parentFunction] to a proper ancestor, so [fuel] above the depth of the
    starting node is never used up. *)
Fixpoint skipSyncCallbacks (fuel : nat) (sync : list Node) (parentFunction : option Node)
  : option Node :=
  match parentFunction with
  | Some pf =>
      if isFunctionNode pf && existsb (same pf) sync then
        match fuel with
        | 0 => None
        | S fuel' => skipSyncCallbacks fuel' sync (findParent pf isProgramOrFunctionNode)
        end
      else parentFunction
  | None => None
  end.

(** [isReferenceInCurrentScope(reference)]. *)
Definition isReferenceInCurrentScope (reference : Reference) : M bool :=
  sync <- gets syncCallbacks ;;
  let parentFunction :=
    skipSyncCallbacks (depth (identifier reference)) sync
      (findParent (identifier reference) isProgramOrFunctionNode) in
  c <- currentScope ;;
  ret (sameOpt parentFunction (Some (node c))).

Inductive Registry := Signals | Props.

Definition registry (which : Registry) (s : St) : list Binding :=
  match which with Signals => signals s | Props => props s end.

Definition set_registry (which : Registry) (l : list Binding) (s : St) : St :=
  match which with Signals => set_signals l s | Props => set_props l s end.

Definition logYield (e : nat) (reference : Reference) : M unit :=
  c <- currentScope ;;
  modify (fun s => set_yielded (yielded s ++ [mkYield (node c) e reference]) s).

(** [*consumeReferencesInScope(variables)], run together with the loop that
    drives the generator: [body] is the body of the [for ... of] that
    receives the yielded pairs.  [variables] is the live array: an entry
    pushed by [body] is met later in the same pass.  [i] is the position of
    the array's iterator; the pass ends when it is past the end. *)
Fixpoint consumeReferencesInScope (fuel : nat) (which : Registry)
  (body : Reference -> Node -> M unit) (i : nat) : M unit :=
  match fuel with
  | 0 => throw "out of fuel"
  | S fuel' =>
      variables <- gets (registry which) ;;
      match nth_error variables i with
      | None => ret tt
      | Some variable =>
          parts <- partitionM isReferenceInCurrentScope (references variable) ;;
          let inScope := fst parts in
          let notInScope := snd parts in
          let pairs := map (fun reference => (reference, declarationScope variable)) inScope in
          forEach pairs (fun p => logYield (eid variable) (fst p) ;; body (fst p) (snd p)) ;;
          modify (fun s => set_registry which
                             (updateAt i (set_references notInScope) (registry which s)) s) ;;
          consumeReferencesInScope fuel' which body (S i)
      end
  end.

Definition hasReferences (b : Binding) : bool :=
  negb (List.length (references b) =? 0).

(** [*consumeSignalReferencesInScope()] with the loop that drives it. A pass
    over [n] entries during which [k] entries are pushed takes [n + k + 1]
    turns; the body pushes at most one. *)
Definition consumeSignalReferencesInScope (body : Reference -> Node -> M unit) : M unit :=
  n <- gets (fun s => List.length (signals s)) ;;
  consumeReferencesInScope (n + 2) Signals body 0 ;;
  modify (fun s => set_signals (filter hasReferences (signals s)) s).

(** [*consumePropsReferencesInScope()] with the loop that drives it. *)
Definition consumePropsReferencesInScope (body : Reference -> Node -> M unit) : M unit :=
  n <- gets (fun s => List.length (props s)) ;;
  consumeReferencesInScope (n + 1) Props body 0 ;;
  modify (fun s => set_props (filter hasReferences (props s)) s).

(** *** The rule: [reactivity.create] *)

Definition warnShouldDestructure (n : Node) (nth : option string) : M unit :=
  report (AtNode (nid n)) "shouldDestructure"
    match nth with
    | Some x => [("nth", String.append x " ")]
    | None => []
    end.

Definition warnShouldAssign (n : Node) : M unit :=
  report (AtNode (nid n)) "shouldAssign" [].

(** [markPropsOnCondition(node, cb)]. *)
Definition markPropsOnCondition (n : Node) (cb : Node -> M bool) : M unit :=
  match childList n "params" with
  | [Some param] =>
      if String.eqb (type param) "Identifier"
         && negb (typeIs (parent n) "JSXExpressionContainer")
         && negb (typeIs (parent n) "TemplateLiteral")
      then
        ok <- cb param ;;
        if ok then
          match findVariableOf n (Some param) with
          | Some propsParam => pushProps propsParam n
          | None => ret tt
          end
        else ret tt
      else ret tt
  | _ => ret tt
  end.

(** [onFunctionEnter(node)]. *)
Definition onFunctionEnter (n : Node) : M unit :=
  sync <- gets syncCallbacks ;;
  if isFunctionNode n && existsb (same n) sync then ret tt
  else
    when (isFunctionNode n)
      (markPropsOnCondition n (fun props => ret (test isPropsByName (str props "name")))) ;;
    modify (fun s => set_frames (frames s ++ [mkItem n [] [] false]) s).

(** [matchTrackedScope(trackedScope, node)]. *)
Definition matchTrackedScope (trackedScope : TrackedScope) (n : Node) : M bool :=
  match expect trackedScope with
  | expect_function | expect_called_function =>
      ret (sameOpt (Some n) (ts_node trackedScope))
  | expect_expression =>
      c <- currentScope ;;
      ret (isSome (findInScope n (node c)
                     (fun node2 => sameOpt (Some node2) (ts_node trackedScope))))
  end.

(** The outermost of the member expressions stacked on a node. *)
Fixpoint outermostMemberExpression (n : Node) : Node :=
  match parent n with
  | Some p =>
      if String.eqb (type p) "MemberExpression" then outermostMemberExpression p else n
  | None => n
  end.

(** [pushUnnamedDerivedSignal()] of [handleTrackedScopes]: a [Set] addition. *)
Definition addNode (n : Node) (l : list Node) : list Node :=
  if existsb (same n) l then l else l ++ [n].

Definition pushUnnamedDerivedSignal (currentScopeNode : Node) : M unit :=
  p <- parentScope ;;
  match p with
  | None => throw TypeError
  | Some _ =>
      modify (fun s =>
        set_frames
          (updateAt (List.length (frames s) - 2)
             (fun item => mkItem (node item) (trackedScopes item)
                            (addNode currentScopeNode (unnamedDerivedSignals item))
                            (hasJSX item))
             (frames s)) s)
  end.

(** [handleTrackedScopes(identifier, declarationScope)]. *)
Definition handleTrackedScopes (identifier' declarationScope' : Node) : M unit :=
  c <- currentScope ;;
  let currentScopeNode := node c in
  matched <- findM (fun trackedScope => matchTrackedScope trackedScope identifier')
                   (trackedScopes c) ;;
  if isSome matched then ret tt
  else
    matchedExpression <-
      findM (fun trackedScope =>
               matchTrackedScope (mkTrackedScope (ts_node trackedScope) expect_expression)
                                 identifier')
            (trackedScopes c) ;;
    if same declarationScope' currentScopeNode then
      let parentMemberExpression :=
        if typeIs (parent identifier') "MemberExpression"
        then option_map outermostMemberExpression (parent identifier')
        else None in
      let parentCallExpression :=
        if typeIs (parent identifier') "CallExpression" then parent identifier' else None in
      report
        (AtNode (nid match parentMemberExpression with
                     | Some m => m
                     | None => match parentCallExpression with
                               | Some call => call
                               | None => identifier'
                               end
                     end))
        (if isSome matchedExpression then "expectedFunctionGotExpression"
         else "untrackedReactive")
        [("name", match parentMemberExpression with
                  | Some m => text src m
                  | None => nameText identifier'
                  end)]
    else
      p <- parentScope ;;
      if negb (isSome p) || negb (isFunctionNode currentScopeNode)
      then throw "this shouldn't happen!"
      else if String.eqb (type currentScopeNode) "FunctionDeclaration" then
        match hd_error (declaredVariables src currentScopeNode) with
        | Some functionVariable => pushUniqueSignal functionVariable declarationScope'
        | None => pushUnnamedDerivedSignal currentScopeNode
        end
      else if typeIs (parent currentScopeNode) "VariableDeclarator" then
        match parent currentScopeNode with
        | Some declarator =>
            match hd_error (declaredVariables src declarator) with
            | Some functionVariable => pushUniqueSignal functionVariable declarationScope'
            | None => pushUnnamedDerivedSignal currentScopeNode
            end
        | None => ret tt
        end
      else if typeIs (parent currentScopeNode) "Property" then ret tt
      else pushUnnamedDerivedSignal currentScopeNode.

Definition ARITHMETIC_OR_COMPARISON : list string :=
  ["<"; "<="; ">"; ">="; "<<"; ">>"; ">>>"; "+"; "-"; "*"; "/"; "%"; "**"; "|"; "^"; "&";
   "in"].

(** The body of the loop of [onFunctionExit] over
    [consumeSignalReferencesInScope()]. *)
Definition signalBody (reference : Reference) (declarationScope' : Node) : M unit :=
  let identifier' := identifier reference in
  let reportBadSignal (where' : string) :=
    report (AtNode (nid identifier')) "badSignal"
           [("name", nameText identifier'); ("where", where')] in
  let p := parent identifier' in
  if isWrite reference then
    report (AtNode (nid identifier')) "noWrite" [("name", nameText identifier')]
  else if String.eqb (type identifier') "Identifier" then
    if typeIs p "CallExpression"
       || (typeIs p "ArrayExpression" && typeIs (parentOf p) "CallExpression")
    then handleTrackedScopes identifier' declarationScope'
    else if typeIs p "TemplateLiteral" then reportBadSignal "template literals"
    else if typeIs p "BinaryExpression"
            && strIn (strOf p "operator") ARITHMETIC_OR_COMPARISON
    then reportBadSignal "arithmetic or comparisons"
    else if typeIs p "UnaryExpression" && strIn (strOf p "operator") ["-"; "+"; "~"]
    then reportBadSignal "unary expressions"
    else if typeIs p "MemberExpression" && flagOf p "computed"
            && childIs p "property" identifier'
    then reportBadSignal "property accesses"
    else if typeIs p "JSXExpressionContainer" then
      c <- currentScope ;;
      if negb (existsb (fun trackedScope =>
                          sameOpt (ts_node trackedScope) (Some identifier')
                          && (Expect_eqb (expect trackedScope) expect_function
                              || Expect_eqb (expect trackedScope) expect_called_function))
                       (trackedScopes c))
      then
        let elementOrAttribute := parentOf p in
        if isJSXElementOrFragment elementOrAttribute
           || (typeIs elementOrAttribute "JSXAttribute"
               && typeIs (parentOf elementOrAttribute) "JSXOpeningElement"
               && typeIs (childOf (parentOf elementOrAttribute) "name") "JSXIdentifier"
               && test isDOMElementName
                       (strOf (childOf (parentOf elementOrAttribute) "name") "name"))
        then reportBadSignal "JSX"
        else ret tt
      else ret tt
    else ret tt
  else ret tt.

(** The body of the loop of [onFunctionExit] over
    [consumePropsReferencesInScope()]. *)
Definition propsBody (reference : Reference) (declarationScope' : Node) : M unit :=
  let identifier' := identifier reference in
  let p := parent identifier' in
  if isWrite reference then
    report (AtNode (nid identifier')) "noWrite" [("name", nameText identifier')]
  else if typeIs p "MemberExpression" && childIs p "object" identifier' then
    if typeIs (parentOf p) "AssignmentExpression"
       && match p with
          | Some member => childIs (parentOf p) "left" member
          | None => false
          end
    then report (AtNode (nid identifier')) "noWrite" [("name", nameText identifier')]
    else if typeIs (childOf p "property") "Identifier"
            && test isExemptPropName (strOf (childOf p "property") "name")
    then ret tt
    else handleTrackedScopes identifier' declarationScope'
  else if typeIs p "AssignmentExpression" || typeIs p "VariableDeclarator" then
    report (AtNode (nid identifier')) "untrackedReactive" [("name", nameText identifier')]
  else ret tt.

(** [onFunctionExit(currentScopeNode)]. *)
Definition onFunctionExit (currentScopeNode : Node) : M unit :=
  when (isFunctionNode currentScopeNode)
    (markPropsOnCondition currentScopeNode (fun props =>
       if negb (test isPropsByName (str props "name")) then
         c <- currentScope ;;
         if hasJSX c then
           match getFunctionName currentScopeNode with
           | Some functionName =>
               ret (negb (String.eqb functionName "")
                    && negb (isDOMElementName functionName))
           | None => ret false
           end
         else ret false
       else ret false)) ;;
  sync <- gets syncCallbacks ;;
  if isFunctionNode currentScopeNode && existsb (same currentScopeNode) sync then ret tt
  else
    consumeSignalReferencesInScope signalBody ;;
    consumePropsReferencesInScope propsBody ;;
    c <- currentScope ;;
    forEach (unnamedDerivedSignals c) (fun n =>
      c' <- currentScope ;;
      matched <- findM (fun trackedScope => matchTrackedScope trackedScope n)
                       (trackedScopes c') ;;
      if isSome matched then ret tt
      else report (AtFunctionHead (nid n)) "badUnnamedDerivedSignal" []) ;;
    modify (fun s => set_frames (removelast (frames s)) s).

(** [scopeStack.syncCallbacks.add(node)]. *)
Definition addSyncCallback (n : Node) : M unit :=
  modify (fun s => set_syncCallbacks (addNode n (syncCallbacks s)) s).

(** [checkForSyncCallbacks(node)]. *)
Definition checkForSyncCallbacks (n : Node) : M unit :=
  imports <- gets importMap ;;
  let callee := child n "callee" in
  let arguments := childList n "arguments" in
  match arguments with
  | [Some arg0] =>
      if isFunctionNode arg0 && negb (flag arg0 "async") then
        if typeIs callee "Identifier"
           && matches imports ["batch"; "produce"] (strOf callee "name")
        then addSyncCallback arg0
        else if typeIs callee "MemberExpression"
                && negb (flagOf callee "computed")
                && negb (typeIs (childOf callee "object") "ObjectExpression")
                && test isArrayIterationMethod (strOf (childOf callee "property") "name")
        then addSyncCallback arg0
        else ret tt
      else ret tt
  | _ => ret tt
  end ;;
  when (typeIs callee "Identifier")
    (if matches imports ["createSignal"; "createStore"] (strOf callee "name")
        && typeIs (parent n) "VariableDeclarator"
     then
       match getNthDestructuredVar n (childOf (parent n) "id") 1 with
       | Some setter =>
           forEach (v_references setter) (fun reference =>
             let identifier' := identifier reference in
             when (negb (init reference) && isRead reference
                   && typeIs (parent identifier') "CallExpression")
               (forEach (childListOf (parent identifier') "arguments") (fun arg =>
                  when (isFunctionNodeOpt arg && negb (flagOf arg "async"))
                    match arg with
                    | Some a => addSyncCallback a
                    | None => ret tt
                    end)))
       | None => ret tt
       end
     else if matches imports ["mapArray"; "indexArray"] (strOf callee "name") then
       match nth_error arguments 1 with
       | Some (Some arg1) => when (isFunctionNode arg1) (addSyncCallback arg1)
       | _ => ret tt
       end
     else ret tt) ;;
  match callee with
  | Some f => when (isFunctionNode f) (addSyncCallback f)
  | None => ret tt
  end.

(** [id ?? init]. *)
Definition orElse (id : option Node) (init' : Node) : Node :=
  match id with Some i => i | None => init' end.

(** [checkForReactiveAssignment(id, init)], called while the walker is at
    [cur]. *)
Definition checkForReactiveAssignment (cur : Node) (id : option Node) (init0 : Node)
  : M unit :=
  imports <- gets importMap ;;
  let init' := ignoreTransparentWrappers init0 in
  let callee := child init' "callee" in
  let name := strOf callee "name" in
  if String.eqb (type init') "CallExpression" && typeIs callee "Identifier" then
    if matches imports ["createSignal"; "useTransition"] name then
      match getNthDestructuredVar cur id 0 with
      | Some signal => c <- currentScope ;; pushSignal signal (node c)
      | None => warnShouldDestructure (orElse id init') (Some "first")
      end
    else if matches imports ["createMemo"; "createSelector"] name then
      match match id with Some i => getReturnedVar cur i | None => None end with
      | Some memo => c <- currentScope ;; pushSignal memo (node c)
      | None => warnShouldAssign (orElse id init')
      end
    else if matches imports ["createStore"] name then
      match getNthDestructuredVar cur id 0 with
      | Some store => c <- currentScope ;; pushProps store (node c)
      | None => warnShouldDestructure (orElse id init') (Some "first")
      end
    else if matches imports ["mergeProps"] name then
      match match id with Some i => getReturnedVar cur i | None => None end with
      | Some merged => c <- currentScope ;; pushProps merged (node c)
      | None => warnShouldAssign (orElse id init')
      end
    else if matches imports ["splitProps"] name then
      if typeIs id "ArrayPattern" then
        let vars :=
          flat_map (fun i => match getNthDestructuredVar cur id i with
                             | Some v => [v]
                             | None => []
                             end)
                   (seq 0 (List.length (childListOf id "elements"))) in
        match vars, id with
        | [], Some i => warnShouldDestructure i None
        | _, _ => forEach vars (fun v => c <- currentScope ;; pushProps v (node c))
        end
      else
        match match id with Some i => getReturnedVar cur i | None => None end with
        | Some vars => c <- currentScope ;; pushProps vars (node c)
        | None => ret tt
        end
    else if matches imports ["createResource"] name then
      match getNthDestructuredVar cur id 0 with
      | Some resourceReturn => c <- currentScope ;; pushProps resourceReturn (node c)
      | None => ret tt
      end
    else if matches imports ["createMutable"] name then
      match match id with Some i => getReturnedVar cur i | None => None end with
      | Some mutable => c <- currentScope ;; pushProps mutable (node c)
      | None => ret tt
      end
    else if matches imports ["mapArray"] name then
      match nth_error (childList init' "arguments") 1 with
      | Some (Some arg1) =>
          if isFunctionNode arg1 && (2 <=? List.length (childList arg1 "params")) then
            match nth_error (childList arg1 "params") 1 with
            | Some (Some param) =>
                if String.eqb (type param) "Identifier" then
                  match findVariableOf cur (Some param) with
                  | Some indexSignal => pushSignalHere indexSignal
                  | None => ret tt
                  end
                else ret tt
            | _ => ret tt
            end
          else ret tt
      | _ => ret tt
      end
    else if matches imports ["indexArray"] name then
      match nth_error (childList init' "arguments") 1 with
      | Some (Some arg1) =>
          if isFunctionNode arg1 && (1 <=? List.length (childList arg1 "params")) then
            match nth_error (childList arg1 "params") 0 with
            | Some (Some param) =>
                if String.eqb (type param) "Identifier" then
                  match findVariableOf cur (Some param) with
                  | Some valueSignal => pushSignalHere valueSignal
                  | None => ret tt
                  end
                else ret tt
            | _ => ret tt
            end
          else ret tt
      | _ => ret tt
      end
    else ret tt
  else ret tt.

(** [pushTrackedScope(node, expect)] of [checkForTrackedScopes]. *)
Definition pushTrackedScope (node2 : option Node) (expect' : Expect) : M unit :=
  modifyCurrentScope (fun item =>
    mkItem (node item) (trackedScopes item ++ [mkTrackedScope node2 expect'])
           (unnamedDerivedSignals item) (hasJSX item)) ;;
  match node2 with
  | Some n =>
      when (negb (Expect_eqb expect' expect_called_function)
            && isFunctionNode n && flag n "async")
        (report (AtNode (nid n)) "noAsyncTrackedScope" [])
  | None => ret tt
  end.

(** [VisitorKeys] of [estraverse]: the node types the library knows and, for
    each, the properties that hold its children, in the order it visits
    them. The types of JSX and of TypeScript are not among them. *)
Definition VisitorKeys : list (string * list string) :=
  [("AssignmentExpression", ["left"; "right"]);
   ("AssignmentPattern", ["left"; "right"]);
   ("ArrayExpression", ["elements"]);
   ("ArrayPattern", ["elements"]);
   ("ArrowFunctionExpression", ["params"; "body"]);
   ("AwaitExpression", ["argument"]);
   ("BlockStatement", ["body"]);
   ("BinaryExpression", ["left"; "right"]);
   ("BreakStatement", ["label"]);
   ("CallExpression", ["callee"; "arguments"]);
   ("CatchClause", ["param"; "body"]);
   ("ChainExpression", ["expression"]);
   ("ClassBody", ["body"]);
   ("ClassDeclaration", ["id"; "superClass"; "body"]);
   ("ClassExpression", ["id"; "superClass"; "body"]);
   ("ComprehensionBlock", ["left"; "right"]);
   ("ComprehensionExpression", ["blocks"; "filter"; "body"]);
   ("ConditionalExpression", ["test"; "consequent"; "alternate"]);
   ("ContinueStatement", ["label"]);
   ("DebuggerStatement", []);
   ("DirectiveStatement", []);
   ("DoWhileStatement", ["body"; "test"]);
   ("EmptyStatement", []);
   ("ExportAllDeclaration", ["source"]);
   ("ExportDefaultDeclaration", ["declaration"]);
   ("ExportNamedDeclaration", ["declaration"; "specifiers"; "source"]);
   ("ExportSpecifier", ["exported"; "local"]);
   ("ExpressionStatement", ["expression"]);
   ("ForStatement", ["init"; "test"; "update"; "body"]);
   ("ForInStatement", ["left"; "right"; "body"]);
   ("ForOfStatement", ["left"; "right"; "body"]);
   ("FunctionDeclaration", ["id"; "params"; "body"]);
   ("FunctionExpression", ["id"; "params"; "body"]);
   ("GeneratorExpression", ["blocks"; "filter"; "body"]);
   ("Identifier", []);
   ("IfStatement", ["test"; "consequent"; "alternate"]);
   ("ImportExpression", ["source"]);
   ("ImportDeclaration", ["specifiers"; "source"]);
   ("ImportDefaultSpecifier", ["local"]);
   ("ImportNamespaceSpecifier", ["local"]);
   ("ImportSpecifier", ["imported"; "local"]);
   ("Literal", []);
   ("LabeledStatement", ["label"; "body"]);
   ("LogicalExpression", ["left"; "right"]);
   ("MemberExpression", ["object"; "property"]);
   ("MetaProperty", ["meta"; "property"]);
   ("MethodDefinition", ["key"; "value"]);
   ("ModuleSpecifier", []);
   ("NewExpression", ["callee"; "arguments"]);
   ("ObjectExpression", ["properties"]);
   ("ObjectPattern", ["properties"]);
   ("PrivateIdentifier", []);
   ("Program", ["body"]);
   ("Property", ["key"; "value"]);
   ("PropertyDefinition", ["key"; "value"]);
   ("RestElement", ["argument"]);
   ("ReturnStatement", ["argument"]);
   ("SequenceExpression", ["expressions"]);
   ("SpreadElement", ["argument"]);
   ("Super", []);
   ("SwitchStatement", ["discriminant"; "cases"]);
   ("SwitchCase", ["test"; "consequent"]);
   ("TaggedTemplateExpression", ["tag"; "quasi"]);
   ("TemplateElement", []);
   ("TemplateLiteral", ["quasis"; "expressions"]);
   ("ThisExpression", []);
   ("ThrowStatement", ["argument"]);
   ("TryStatement", ["block"; "handler"; "finalizer"]);
   ("UnaryExpression", ["argument"]);
   ("UpdateExpression", ["argument"]);
   ("VariableDeclaration", ["declarations"]);
   ("VariableDeclarator", ["id"; "init"]);
   ("WhileStatement", ["test"; "body"]);
   ("WithStatement", ["object"; "body"]);
   ("YieldExpression", ["argument"])].

Definition visitorKeys (t : string) : option (list string) :=
  option_map snd (List.find (fun kv => String.eqb (fst kv) t) VisitorKeys).

(** The children [estraverse] takes from the properties [keys] of a node, by
    number: the node a property holds, or the nodes of the array it holds;
    [null], holes and what is not a node are passed over. *)
Definition candidates (n : Node) (keys : list string) : list nat :=
  flat_map (fun k =>
              match field n k with
              | VNode id => [id]
              | VList l => flat_map (fun v => match v with VNode id => [id] | _ => [] end) l
              | _ => []
              end)
           keys.

(** The traversal goes on into the child of number [id], which it finds
    among the children of the walk. *)
Definition visitChild (f : Ast -> M unit) (kids : list Ast) (id : nat) : M unit :=
  (fix visit (ks : list Ast) : M unit :=
     match ks with
     | [] => ret tt
     | k :: rest => if nid (astNode k) =? id then f k else visit rest
     end) kids.

(** [permissivelyTrackNode(node)] of [checkForTrackedScopes]:
    [estraverse.traverse] with the callback [enter]. [this.skip()] leaves a
    node's children unvisited; of a node that is not skipped the library
    looks up the type in [VisitorKeys] and throws when it is not there. *)
Fixpoint permissivelyTrack (cur : Node) (t : Ast) : M unit :=
  match t with
  | AstNode childNode kids =>
      traced <- trace cur childNode ;;
      if isFunctionNode traced
         || (String.eqb (type traced) "Identifier"
             && negb (typeIs (parent traced) "MemberExpression")
             && negb (typeIs (parent traced) "CallExpression"
                      && childIs (parent traced) "callee" traced))
      then pushTrackedScope (Some childNode) expect_called_function
      else
        match visitorKeys (type childNode) with
        | Some keys =>
            forEach (candidates childNode keys) (visitChild (permissivelyTrack cur) kids)
        | None =>
            throw (String.append "Unknown node type " (String.append (type childNode) "."))
        end
  end.

Definition permissivelyTrackNode (cur : Node) (n : Node) : M unit :=
  permissivelyTrack cur (subtreeOf n).

Definition permissivelyTrackArguments (cur : Node) (arguments : list (option Node))
  : M unit :=
  forEach arguments (fun arg =>
    match arg with
    | Some a => permissivelyTrackNode cur a
    | None => ret tt
    end).

Definition OBSERVERS : list string :=
  ["IntersectionObserver"; "MutationObserver"; "PerformanceObserver";
   "ReportingObserver"; "ResizeObserver"].

Definition TIMERS : list string :=
  ["setInterval"; "setTimeout"; "setImmediate"; "requestAnimationFrame";
   "requestIdleCallback"].

Definition TRACKED_PRIMITIVES : list string :=
  ["createMemo"; "children"; "createEffect"; "createRenderEffect"; "createDeferred";
   "createComputed"; "createSelector"; "untrack"; "mapArray"; "indexArray";
   "observable"].

(** The test of [runWithOwner]'s branch: whether the owner was captured in a
    function that is a tracked scope. *)
Definition ownerIsTracked (cur : Node) (imports : list (string * string))
  (stack : list ScopeStackItem) (arg0 : option Node) : bool :=
  match (if typeIs arg0 "Identifier" then findVariableOf cur arg0 else None) with
  | Some owner =>
      match hd_error (v_defs owner) with
      | Some decl =>
          if String.eqb (type (def_node decl)) "VariableDeclarator"
             && typeIs (child (def_node decl) "init") "CallExpression"
             && typeIs (childOf (child (def_node decl) "init") "callee") "Identifier"
             && matches imports ["getOwner"]
                  (strOf (childOf (child (def_node decl) "init") "callee") "name")
          then
            let ownerFunction := findParent (def_node decl) isProgramOrFunctionNode in
            match findIndex (fun item => sameOpt ownerFunction (Some (node item))) stack with
            | Some 0 => false
            | Some (S i) =>
                match nth_error stack i with
                | Some below =>
                    existsb (fun trackedScope =>
                               Expect_eqb (expect trackedScope) expect_function
                               && sameOpt (ts_node trackedScope) ownerFunction)
                            (trackedScopes below)
                | None => true
                end
            | None => true
            end
          else true
      | None => true
      end
  | None => true
  end.

(** [checkForTrackedScopes(node)]. *)
Definition checkForTrackedScopes (n : Node) : M unit :=
  imports <- gets importMap ;;
  let p := parent n in
  if String.eqb (type n) "JSXExpressionContainer" then
    let expression := child n "expression" in
    let element := parentOf p in
    if typeIs p "JSXAttribute"
       && isEventHandlerName (match childOf p "name" with
                              | Some nm => text src nm
                              | None => "undefined"
                              end)
       && typeIs element "JSXOpeningElement"
       && typeIs (childOf element "name") "JSXIdentifier"
       && test isDOMElementName (strOf (childOf element "name") "name")
    then pushTrackedScope expression expect_called_function
    else if typeIs p "JSXAttribute"
            && typeIs (childOf p "name") "JSXNamespacedName"
            && strIs (strOf (childOf (childOf p "name") "namespace") "name") "use"
            && isFunctionNodeOpt expression
    then pushTrackedScope expression expect_called_function
    else if typeIs p "JSXAttribute"
            && strIs (strOf (childOf p "name") "name") "value"
            && typeIs element "JSXOpeningElement"
            && ((typeIs (childOf element "name") "JSXIdentifier"
                 && test (endsWith "Provider") (strOf (childOf element "name") "name"))
                || (typeIs (childOf element "name") "JSXMemberExpression"
                    && strIs (strOf (childOf (childOf element "name") "property") "name")
                             "Provider"))
    then ret tt
    else if typeIs p "JSXAttribute"
            && typeIs (childOf p "name") "JSXIdentifier"
            && test isStaticPropName (strOf (childOf p "name") "name")
            && typeIs element "JSXOpeningElement"
            && typeIs (childOf element "name") "JSXIdentifier"
            && negb (test isDOMElementName (strOf (childOf element "name") "name"))
    then ret tt
    else if typeIs p "JSXAttribute"
            && strIs (strOf (childOf p "name") "name") "ref"
            && isFunctionNodeOpt expression
    then pushTrackedScope expression expect_called_function
    else if isJSXElementOrFragment p && isFunctionNodeOpt expression
    then pushTrackedScope expression expect_function
    else pushTrackedScope expression expect_expression
  else if String.eqb (type n) "JSXSpreadAttribute" then
    pushTrackedScope (child n "argument") expect_expression
  else if String.eqb (type n) "NewExpression" then
    let callee := child n "callee" in
    let arg0 := hd None (childList n "arguments") in
    when (typeIs callee "Identifier" && isSome arg0 && strIn (strOf callee "name") OBSERVERS)
      (pushTrackedScope arg0 expect_called_function)
  else if String.eqb (type n) "CallExpression" then
    let callee := child n "callee" in
    let arguments := childList n "arguments" in
    if typeIs callee "Identifier" then
      let name := strOf callee "name" in
      let arg0 := hd None arguments in
      let arg1 := nth 1 arguments None in
      if matches imports TRACKED_PRIMITIVES name
         || (matches imports ["createResource"] name && (2 <=? List.length arguments))
      then pushTrackedScope arg0 expect_function
      else if matches imports ["onMount"; "onCleanup"; "onError"] name
              || strIn name TIMERS
      then pushTrackedScope arg0 expect_called_function
      else if matches imports ["on"] name then
        match arg0 with
        | Some a0 =>
            if String.eqb (type a0) "ArrayExpression" then
              forEach (childList a0 "elements") (fun element =>
                when (isSome element && negb (typeIs element "SpreadElement"))
                  (pushTrackedScope element expect_function))
            else pushTrackedScope arg0 expect_function
        | None => ret tt
        end ;;
        when (isSome arg1) (pushTrackedScope arg1 expect_called_function)
      else if matches imports ["createStore"] name && typeIs arg0 "ObjectExpression" then
        forEach (childListOf arg0 "properties") (fun property =>
          when (typeIs property "Property" && strIs (strOf property "kind") "get"
                && isFunctionNodeOpt (childOf property "value"))
            (pushTrackedScope (childOf property "value") expect_function))
      else if matches imports ["runWithOwner"] name then
        when (isSome arg1)
          (stack <- gets frames ;;
           when (ownerIsTracked n imports stack arg0)
             (pushTrackedScope arg1 expect_function))
      else if test isReactiveFunctionName name
              || strIn name (customReactiveFunctions options)
      then permissivelyTrackArguments n arguments
      else ret tt
    else if typeIs callee "MemberExpression" then
      let property := childOf callee "property" in
      if typeIs property "Identifier" && strIs (strOf property "name") "addEventListener"
         && (2 <=? List.length arguments)
      then pushTrackedScope (nth 1 arguments None) expect_called_function
      else if typeIs property "Identifier"
              && (test isReactiveFunctionName (strOf property "name")
                  || strIn (strOf property "name") (customReactiveFunctions options))
      then permissivelyTrackArguments n arguments
      else ret tt
    else ret tt
  else if String.eqb (type n) "VariableDeclarator" then
    let init' := child n "init" in
    when (typeIs init' "CallExpression" && typeIs (childOf init' "callee") "Identifier"
          && matches imports ["createReactive"; "createReaction"]
                     (strOf (childOf init' "callee") "name"))
      (match match child n "id" with Some i => getReturnedVar n i | None => None end with
       | Some track =>
           forEach (v_references track) (fun reference =>
             let call := parent (identifier reference) in
             when (negb (init reference) && isReadOnly reference
                   && typeIs call "CallExpression"
                   && childIs call "callee" (identifier reference))
               (let arg0 := hd None (childListOf call "arguments") in
                when (isSome arg0) (pushTrackedScope arg0 expect_function)))
       | None => ret tt
       end ;;
       let arg0 := hd None (childListOf init' "arguments") in
       when (isFunctionNodeOpt arg0) (pushTrackedScope arg0 expect_called_function))
  else if String.eqb (type n) "AssignmentExpression" then
    let lhs := child n "left" in
    let rhs := child n "right" in
    when (typeIs lhs "MemberExpression" && typeIs (childOf lhs "property") "Identifier"
          && isFunctionNodeOpt rhs
          && test isLowercaseHandlerName (strOf (childOf lhs "property") "name"))
      (pushTrackedScope rhs expect_called_function)
  else if String.eqb (type n) "TaggedTemplateExpression" then
    forEach (childListOf (child n "quasi") "expressions") (fun expression =>
      when (isFunctionNodeOpt expression)
        (pushTrackedScope expression expect_called_function ;;
         forEach (childListOf expression "params") (fun param =>
           when (typeIs param "Identifier" && test isPropsByName (strOf param "name"))
             match findVariableOf n param with
             | Some v => c <- currentScope ;; pushProps v (node c)
             | None => ret tt
             end)))
  else ret tt.

(** The listener ["JSXElement > JSXExpressionContainer > :function"]. *)
Definition onRenderCallback (n : Node) : M unit :=
  imports <- gets importMap ;;
  when (isFunctionNode n && typeIs (parent n) "JSXExpressionContainer"
        && typeIs (parentOf (parent n)) "JSXElement")
    (let name := childOf (childOf (parentOf (parent n)) "openingElement") "name" in
     let params := childList n "params" in
     when (typeIs name "JSXIdentifier")
       (let tagName := strOf name "name" in
        if matches imports ["For"] tagName && (List.length params =? 2)
           && typeIs (nth 1 params None) "Identifier"
        then match findVariableOf n (nth 1 params None) with
             | Some index => c <- currentScope ;; pushSignal index (node c)
             | None => ret tt
             end
        else if matches imports ["Index"] tagName && (1 <=? List.length params)
                && typeIs (hd None params) "Identifier"
        then match findVariableOf n (hd None params) with
             | Some item => c <- currentScope ;; pushSignal item (node c)
             | None => ret tt
             end
        else ret tt)).

(** [handleImportDeclaration(node)] of [trackImports]. *)
Definition handleImportDeclaration (n : Node) : M unit :=
  when (test fromModule (strOf (child n "source") "value"))
    (forEach (childList n "specifiers") (fun specifier =>
       when (typeIs specifier "ImportSpecifier")
         match strOf (childOf specifier "imported") "name",
               strOf (childOf specifier "local") "name" with
         | Some imported, Some local =>
             modify (fun s => set_importMap (importSet imported local (importMap s)) s)
         | _, _ => ret tt
         end)).

(** [JSXElement()] and [JSXFragment()]. *)
Definition onJSX : M unit :=
  stack <- gets frames ;;
  match stack with
  | [] => ret tt
  | _ => modifyCurrentScope (fun item =>
           mkItem (node item) (trackedScopes item) (unnamedDerivedSignals item) true)
  end.

(** The listeners the rule returns, as the walker calls them on entering a
    node.  A node has one type, so at most one of the listeners named by a
    type applies; on a function the listener named by the type runs before
    the one named by the longer selector. *)
Definition enter (n : Node) : M unit :=
  let t := type n in
  if String.eqb t "ImportDeclaration" then handleImportDeclaration n
  else if String.eqb t "JSXExpressionContainer" then checkForTrackedScopes n
  else if String.eqb t "JSXSpreadAttribute" then checkForTrackedScopes n
  else if String.eqb t "CallExpression" then
    checkForTrackedScopes n ;;
    checkForSyncCallbacks n ;;
    let p := option_map ignoreTransparentWrappersUp (parent n) in
    when (negb (typeIs p "AssignmentExpression") && negb (typeIs p "VariableDeclarator"))
      (checkForReactiveAssignment n None n)
  else if String.eqb t "NewExpression" then checkForTrackedScopes n
  else if String.eqb t "VariableDeclarator" then
    match child n "init" with
    | Some init' =>
        checkForReactiveAssignment n (child n "id") init' ;;
        checkForTrackedScopes n
    | None => ret tt
    end
  else if String.eqb t "AssignmentExpression" then
    when (negb (typeIs (child n "left") "MemberExpression"))
      match child n "right" with
      | Some rhs => checkForReactiveAssignment n (child n "left") rhs
      | None => ret tt
      end ;;
    checkForTrackedScopes n
  else if String.eqb t "TaggedTemplateExpression" then checkForTrackedScopes n
  else if isProgramOrFunctionNode n then onFunctionEnter n ;; onRenderCallback n
  else if String.eqb t "JSXElement" || String.eqb t "JSXFragment" then onJSX
  else ret tt.

(** The listeners called on leaving a node. *)
Definition leave (n : Node) : M unit :=
  if isProgramOrFunctionNode n then onFunctionExit n else ret tt.

(** The walk: a node's listeners, its children, its exit listeners. *)
Fixpoint walk (t : Ast) : M unit :=
  match t with
  | AstNode n kids => enter n ;; forEach kids walk ;; leave n
  end.

(** One run of the rule over a file: a fresh state, the walk, the findings. *)
Definition run : Result unit := walk (ast src) create.

Definition analyze : option (list Report) :=
  match run with
  | Ok _ s => Some (reports s)
  | Throw _ => None
  end.

End Rule.

(** ** Sample files

    Every node has a number of its own.  Most samples share the nodes of

<<
    import { createSignal, createEffect } from "solid-js";
    const [count, setCount] = createSignal(0);
>>

    and differ in the statement that follows. *)

Definition leaf (id : nat) (t : string) (p : Node) (fs : list (string * value)) : Ast :=
  AstNode (mkNode id t (Some p) fs) [].

Definition ident (id : nat) (p : Node) (name : string) : Node :=
  mkNode id "Identifier" (Some p) [("name", VStr name)].

Definition nProgram : Node := mkNode 0 "Program" None [].

Definition nImport : Node :=
  mkNode 1 "ImportDeclaration" (Some nProgram)
         [("specifiers", VList [VNode 2; VNode 5]); ("source", VNode 8)].
Definition nSpecSignal : Node :=
  mkNode 2 "ImportSpecifier" (Some nImport) [("imported", VNode 3); ("local", VNode 4)].
Definition nSpecEffect : Node :=
  mkNode 5 "ImportSpecifier" (Some nImport) [("imported", VNode 6); ("local", VNode 7)].
Definition nSource : Node :=
  mkNode 8 "Literal" (Some nImport) [("value", VStr "solid-js")].

Definition astImport : Ast :=
  AstNode nImport
    [AstNode nSpecSignal [AstNode (ident 3 nSpecSignal "createSignal") [];
                          AstNode (ident 4 nSpecSignal "createSignal") []];
     AstNode nSpecEffect [AstNode (ident 6 nSpecEffect "createEffect") [];
                          AstNode (ident 7 nSpecEffect "createEffect") []];
     AstNode nSource []].

Definition nDeclaration : Node :=
  mkNode 9 "VariableDeclaration" (Some nProgram)
         [("kind", VStr "const"); ("declarations", VList [VNode 10])].
Definition nDeclarator : Node :=
  mkNode 10 "VariableDeclarator" (Some nDeclaration) [("id", VNode 11); ("init", VNode 14)].
Definition nPattern : Node :=
  mkNode 11 "ArrayPattern" (Some nDeclarator) [("elements", VList [VNode 12; VNode 13])].
Definition nCountDecl : Node := ident 12 nPattern "count".
Definition nSetCountDecl : Node := ident 13 nPattern "setCount".
Definition nCreateSignalCall : Node :=
  mkNode 14 "CallExpression" (Some nDeclarator)
         [("callee", VNode 15); ("arguments", VList [VNode 16])].
Definition nCreateSignal : Node := ident 15 nCreateSignalCall "createSignal".

Definition astDeclaration : Ast :=
  AstNode nDeclaration
    [AstNode nDeclarator
       [AstNode nPattern [AstNode nCountDecl []; AstNode nSetCountDecl []];
        AstNode nCreateSignalCall
          [AstNode nCreateSignal [];
           AstNode (mkNode 16 "Literal" (Some nCreateSignalCall) [("value", VStr "0")]) []]]].

(** [console.log(count());] *)
Definition nLogStatement : Node :=
  mkNode 20 "ExpressionStatement" (Some nProgram) [("expression", VNode 21)].
Definition nLogCall : Node :=
  mkNode 21 "CallExpression" (Some nLogStatement)
         [("callee", VNode 22); ("arguments", VList [VNode 25])].
Definition nLogMember : Node :=
  mkNode 22 "MemberExpression" (Some nLogCall)
         [("object", VNode 23); ("property", VNode 24); ("computed", VBool false)].
Definition nCountCall : Node :=
  mkNode 25 "CallExpression" (Some nLogCall) [("callee", VNode 26); ("arguments", VList [])].
Definition nCountRead : Node := ident 26 nCountCall "count".

Definition astLog : Ast :=
  AstNode nLogStatement
    [AstNode nLogCall
       [AstNode nLogMember [AstNode (ident 23 nLogMember "console") [];
                            AstNode (ident 24 nLogMember "log") []];
        AstNode nCountCall [AstNode nCountRead []]]].

(** [createEffect(() => console.log(count()));] *)
Definition nEffectStatement : Node :=
  mkNode 30 "ExpressionStatement" (Some nProgram) [("expression", VNode 31)].
Definition nEffectCall : Node :=
  mkNode 31 "CallExpression" (Some nEffectStatement)
         [("callee", VNode 32); ("arguments", VList [VNode 33])].
Definition nEffectArrow : Node :=
  mkNode 33 "ArrowFunctionExpression" (Some nEffectCall)
         [("params", VList []); ("body", VNode 34); ("async", VBool false)].
Definition nEffectLogCall : Node :=
  mkNode 34 "CallExpression" (Some nEffectArrow)
         [("callee", VNode 35); ("arguments", VList [VNode 38])].
Definition nEffectLogMember : Node :=
  mkNode 35 "MemberExpression" (Some nEffectLogCall)
         [("object", VNode 36); ("property", VNode 37); ("computed", VBool false)].
Definition nEffectCountCall : Node :=
  mkNode 38 "CallExpression" (Some nEffectLogCall)
         [("callee", VNode 39); ("arguments", VList [])].
Definition nEffectCountRead : Node := ident 39 nEffectCountCall "count".

Definition astEffectLog : Ast :=
  AstNode nEffectStatement
    [AstNode nEffectCall
       [AstNode (ident 32 nEffectCall "createEffect") [];
        AstNode nEffectArrow
          [AstNode nEffectLogCall
             [AstNode nEffectLogMember
                [AstNode (ident 36 nEffectLogMember "console") [];
                 AstNode (ident 37 nEffectLogMember "log") []];
              AstNode nEffectCountCall [AstNode nEffectCountRead []]]]]].

(** [createEffect(() => count);] *)
Definition nBareStatement : Node :=
  mkNode 40 "ExpressionStatement" (Some nProgram) [("expression", VNode 41)].
Definition nBareCall : Node :=
  mkNode 41 "CallExpression" (Some nBareStatement)
         [("callee", VNode 42); ("arguments", VList [VNode 43])].
Definition nBareArrow : Node :=
  mkNode 43 "ArrowFunctionExpression" (Some nBareCall)
         [("params", VList []); ("body", VNode 44); ("async", VBool false)].
Definition nBareCountRead : Node := ident 44 nBareArrow "count".

Definition astEffectBare : Ast :=
  AstNode nBareStatement
    [AstNode nBareCall
       [AstNode (ident 42 nBareCall "createEffect") [];
        AstNode nBareArrow [AstNode nBareCountRead []]]].

(** [createEffect(() => count + 1);] *)
Definition nSumStatement : Node :=
  mkNode 50 "ExpressionStatement" (Some nProgram) [("expression", VNode 51)].
Definition nSumCall : Node :=
  mkNode 51 "CallExpression" (Some nSumStatement)
         [("callee", VNode 52); ("arguments", VList [VNode 53])].
Definition nSumArrow : Node :=
  mkNode 53 "ArrowFunctionExpression" (Some nSumCall)
         [("params", VList []); ("body", VNode 54); ("async", VBool false)].
Definition nSum : Node :=
  mkNode 54 "BinaryExpression" (Some nSumArrow)
         [("operator", VStr "+"); ("left", VNode 55); ("right", VNode 56)].
Definition nSumCountRead : Node := ident 55 nSum "count".

Definition astEffectSum : Ast :=
  AstNode nSumStatement
    [AstNode nSumCall
       [AstNode (ident 52 nSumCall "createEffect") [];
        AstNode nSumArrow
          [AstNode nSum
             [AstNode nSumCountRead [];
              AstNode (mkNode 56 "Literal" (Some nSum) [("value", VStr "1")]) []]]]].

(** The scope manager's variables for a sample whose last statement reads
    [count] at [read] and calls the imported name at [calls]. *)
Definition vCount (read : Node) : ScopeVariable :=
  mkVariable 0 "count"
    [mkReference nCountDecl true true false; mkReference read false false true]
    [mkDef "Variable" nDeclarator].

Definition vSetCount : ScopeVariable :=
  mkVariable 1 "setCount" [mkReference nSetCountDecl true true false]
    [mkDef "Variable" nDeclarator].

Definition vCreateSignal : ScopeVariable :=
  mkVariable 2 "createSignal" [mkReference nCreateSignal false false true]
    [mkDef "ImportBinding" nSpecSignal].

Definition vCreateEffect (calls : list Node) : ScopeVariable :=
  mkVariable 3 "createEffect" (map (fun c => mkReference c false false true) calls)
    [mkDef "ImportBinding" nSpecEffect].

(** One scope: a name is looked up among the file's variables. *)
Definition byName (vs : list ScopeVariable) (cur : Node) (name : string)
  : option ScopeVariable :=
  List.find (fun v => String.eqb (v_name v) name) vs.

Definition byNode (vs : list ScopeVariable) (cur identifier' : Node)
  : option ScopeVariable :=
  match List.find (fun kv => String.eqb (fst kv) "name") (fields identifier') with
  | Some (_, VStr name) => byName vs cur name
  | _ => None
  end.

Definition declaredAt (vs : list ScopeVariable) (n : Node) : list ScopeVariable :=
  filter (fun v => existsb (fun d => same (def_node d) n) (v_defs v)) vs.

Definition sample (statements : list Ast) (vs : list ScopeVariable) : Source :=
  mkSource (AstNode nProgram statements) (fun n => "") vs (byName vs) (byNode vs)
           (declaredAt vs).

Definition noOptions : Options := mkOptions [].

(** [import ...; const [count, setCount] = createSignal(0); console.log(count());] *)
Definition sampleLog : Source :=
  sample [astImport; astDeclaration; astLog]
         [vCount nCountRead; vSetCount; vCreateSignal; vCreateEffect []].

(** The same without the import: [createSignal] is a free name. *)
Definition sampleLogNoImport : Source :=
  sample [astDeclaration; astLog] [vCount nCountRead; vSetCount].

(** [...; createEffect(() => console.log(count()));] *)
Definition sampleEffectLog : Source :=
  sample [astImport; astDeclaration; astEffectLog]
         [vCount nEffectCountRead; vSetCount; vCreateSignal;
          vCreateEffect [ident 32 nEffectCall "createEffect"]].

(** [...; createEffect(() => count);] *)
Definition sampleEffectBare : Source :=
  sample [astImport; astDeclaration; astEffectBare]
         [vCount nBareCountRead; vSetCount; vCreateSignal;
          vCreateEffect [ident 42 nBareCall "createEffect"]].

(** [...; createEffect(() => count + 1);] *)
Definition sampleEffectSum : Source :=
  sample [astImport; astDeclaration; astEffectSum]
         [vCount nSumCountRead; vSetCount; vCreateSignal;
          vCreateEffect [ident 52 nSumCall "createEffect"]].

(** [import { onMount } from "solid-js"; onMount(async () => {});] *)
Definition nMountImport : Node :=
  mkNode 60 "ImportDeclaration" (Some nProgram)
         [("specifiers", VList [VNode 61]); ("source", VNode 64)].
Definition nMountSpec : Node :=
  mkNode 61 "ImportSpecifier" (Some nMountImport) [("imported", VNode 62); ("local", VNode 63)].
Definition nMountStatement : Node :=
  mkNode 65 "ExpressionStatement" (Some nProgram) [("expression", VNode 66)].
Definition nMountCall : Node :=
  mkNode 66 "CallExpression" (Some nMountStatement)
         [("callee", VNode 67); ("arguments", VList [VNode 68])].
Definition nAsyncArrow : Node :=
  mkNode 68 "ArrowFunctionExpression" (Some nMountCall)
         [("params", VList []); ("body", VNode 69); ("async", VBool true)].

Definition sampleAsyncMount : Source :=
  let vs := [mkVariable 0 "onMount" [mkReference (ident 67 nMountCall "onMount") false false true]
                        [mkDef "ImportBinding" nMountSpec]] in
  sample
    [AstNode nMountImport
       [AstNode nMountSpec [AstNode (ident 62 nMountSpec "onMount") [];
                            AstNode (ident 63 nMountSpec "onMount") []];
        AstNode (mkNode 64 "Literal" (Some nMountImport) [("value", VStr "solid-js")]) []];
     AstNode nMountStatement
       [AstNode nMountCall
          [AstNode (ident 67 nMountCall "onMount") [];
           AstNode nAsyncArrow [leaf 69 "BlockStatement" nAsyncArrow [("body", VList [])]]]]]
    vs.

(** [import { createStore } from "solid-js"; const [store] = createStore({});]
    followed by the statement [store.<property>;]. *)
Definition nStoreImport : Node :=
  mkNode 70 "ImportDeclaration" (Some nProgram)
         [("specifiers", VList [VNode 71]); ("source", VNode 74)].
Definition nStoreSpec : Node :=
  mkNode 71 "ImportSpecifier" (Some nStoreImport) [("imported", VNode 72); ("local", VNode 73)].
Definition nStoreDeclaration : Node :=
  mkNode 75 "VariableDeclaration" (Some nProgram)
         [("kind", VStr "const"); ("declarations", VList [VNode 76])].
Definition nStoreDeclarator : Node :=
  mkNode 76 "VariableDeclarator" (Some nStoreDeclaration) [("id", VNode 77); ("init", VNode 79)].
Definition nStorePattern : Node :=
  mkNode 77 "ArrayPattern" (Some nStoreDeclarator) [("elements", VList [VNode 78])].
Definition nStoreDecl : Node := ident 78 nStorePattern "store".
Definition nCreateStoreCall : Node :=
  mkNode 79 "CallExpression" (Some nStoreDeclarator)
         [("callee", VNode 80); ("arguments", VList [VNode 81])].
Definition nStoreStatement : Node :=
  mkNode 82 "ExpressionStatement" (Some nProgram) [("expression", VNode 83)].
Definition nStoreMember : Node :=
  mkNode 83 "MemberExpression" (Some nStoreStatement)
         [("object", VNode 84); ("property", VNode 85); ("computed", VBool false)].
Definition nStoreRead : Node := ident 84 nStoreMember "store".

Definition sampleStore (property : string) : Source :=
  let vs := [mkVariable 0 "store"
               [mkReference nStoreDecl true true false; mkReference nStoreRead false false true]
               [mkDef "Variable" nStoreDeclarator];
             mkVariable 1 "createStore"
               [mkReference (ident 80 nCreateStoreCall "createStore") false false true]
               [mkDef "ImportBinding" nStoreSpec]] in
  mkSource
    (AstNode nProgram
       [AstNode nStoreImport
          [AstNode nStoreSpec [AstNode (ident 72 nStoreSpec "createStore") [];
                               AstNode (ident 73 nStoreSpec "createStore") []];
           AstNode (mkNode 74 "Literal" (Some nStoreImport) [("value", VStr "solid-js")]) []];
        AstNode nStoreDeclaration
          [AstNode nStoreDeclarator
             [AstNode nStorePattern [AstNode nStoreDecl []];
              AstNode nCreateStoreCall
                [AstNode (ident 80 nCreateStoreCall "createStore") [];
                 leaf 81 "ObjectExpression" nCreateStoreCall [("properties", VList [])]]]];
        AstNode nStoreStatement
          [AstNode nStoreMember
             [AstNode nStoreRead []; AstNode (ident 85 nStoreMember property) []]]])
    (fun n => if nid n =? 83 then String.append "store." property else "")
    vs (byName vs) (byNode vs) (declaredAt vs).

(** [...; const o = { f: function () { return <body>; } };] after the shared
    declaration of [count]: the function is the value of an object-literal
    property. *)
Definition nObjDeclaration : Node :=
  mkNode 90 "VariableDeclaration" (Some nProgram)
         [("kind", VStr "const"); ("declarations", VList [VNode 91])].
Definition nObjDeclarator : Node :=
  mkNode 91 "VariableDeclarator" (Some nObjDeclaration) [("id", VNode 92); ("init", VNode 93)].
Definition nObject : Node :=
  mkNode 93 "ObjectExpression" (Some nObjDeclarator) [("properties", VList [VNode 94])].
Definition nProperty : Node :=
  mkNode 94 "Property" (Some nObject)
         [("key", VNode 95); ("value", VNode 96); ("kind", VStr "init");
          ("computed", VBool false)].
Definition nPropertyFunction : Node :=
  mkNode 96 "FunctionExpression" (Some nProperty)
         [("id", VNull); ("params", VList []); ("body", VNode 97); ("async", VBool false)].
Definition nPropertyBlock : Node :=
  mkNode 97 "BlockStatement" (Some nPropertyFunction) [("body", VList [VNode 98])].
Definition nPropertyReturn : Node :=
  mkNode 98 "ReturnStatement" (Some nPropertyBlock) [("argument", VNode 99)].

(** [return count();] *)
Definition nPropertyCountCall : Node :=
  mkNode 99 "CallExpression" (Some nPropertyReturn)
         [("callee", VNode 100); ("arguments", VList [])].
Definition nPropertyCountCalled : Node := ident 100 nPropertyCountCall "count".

(** [return count + 1;] *)
Definition nPropertySum : Node :=
  mkNode 99 "BinaryExpression" (Some nPropertyReturn)
         [("operator", VStr "+"); ("left", VNode 100); ("right", VNode 101)].
Definition nPropertyCountAdded : Node := ident 100 nPropertySum "count".

Definition astObject (body : Ast) : Ast :=
  AstNode nObjDeclaration
    [AstNode nObjDeclarator
       [AstNode (ident 92 nObjDeclarator "o") [];
        AstNode nObject
          [AstNode nProperty
             [AstNode (ident 95 nProperty "f") [];
              AstNode nPropertyFunction
                [AstNode nPropertyBlock [AstNode nPropertyReturn [body]]]]]]].

Definition vObject : ScopeVariable :=
  mkVariable 4 "o" [mkReference (ident 92 nObjDeclarator "o") true true false]
    [mkDef "Variable" nObjDeclarator].

Definition samplePropertyCall : Source :=
  sample [astImport; astDeclaration;
          astObject (AstNode nPropertyCountCall [AstNode nPropertyCountCalled []])]
         [vCount nPropertyCountCalled; vSetCount; vCreateSignal; vCreateEffect []; vObject].

Definition samplePropertySum : Source :=
  sample [astImport; astDeclaration;
          astObject (AstNode nPropertySum
                       [AstNode nPropertyCountAdded [];
                        leaf 101 "Literal" nPropertySum [("value", VStr "1")]])]
         [vCount nPropertyCountAdded; vSetCount; vCreateSignal; vCreateEffect []; vObject].

(** [import ...; function f() { return count(); } const [count, setCount] =
    createSignal(0);]: the function that reads the signal is left before the
    signal is registered. *)
Definition nHoisted : Node :=
  mkNode 130 "FunctionDeclaration" (Some nProgram)
         [("id", VNode 131); ("params", VList []); ("body", VNode 132);
          ("async", VBool false)].
Definition nHoistedBlock : Node :=
  mkNode 132 "BlockStatement" (Some nHoisted) [("body", VList [VNode 133])].
Definition nHoistedReturn : Node :=
  mkNode 133 "ReturnStatement" (Some nHoistedBlock) [("argument", VNode 134)].
Definition nHoistedCall : Node :=
  mkNode 134 "CallExpression" (Some nHoistedReturn)
         [("callee", VNode 135); ("arguments", VList [])].
Definition nHoistedRead : Node := ident 135 nHoistedCall "count".

Definition sampleHoisted : Source :=
  sample
    [astImport;
     AstNode nHoisted
       [AstNode (ident 131 nHoisted "f") [];
        AstNode nHoistedBlock
          [AstNode nHoistedReturn [AstNode nHoistedCall [AstNode nHoistedRead []]]]];
     astDeclaration]
    [vCount nHoistedRead; vSetCount; vCreateSignal; vCreateEffect [];
     mkVariable 5 "f" [] [mkDef "FunctionName" nHoisted]].

(** The state of a walk that has entered the program and nothing else. *)
Definition atProgram : St := set_frames [mkItem nProgram [] [] false] create.

(** [[
    import { createSignal, createEffect } from "solid-js";
    const [count, setCount] = createSignal(0);
    function Comp() {
      const [b] = createSignal(0);
      const g = () => { count(); b(); };
      g();
    }
    ]]
    With [inner = false] the body of [g] is [{ count(); }] alone. *)
Definition nComp : Node :=
  mkNode 110 "FunctionDeclaration" (Some nProgram)
         [("id", VNode 111); ("params", VList []); ("body", VNode 112);
          ("async", VBool false)].
Definition nCompBlock : Node :=
  mkNode 112 "BlockStatement" (Some nComp)
         [("body", VList [VNode 113; VNode 120; VNode 142])].
Definition nBDeclaration : Node :=
  mkNode 113 "VariableDeclaration" (Some nCompBlock)
         [("kind", VStr "const"); ("declarations", VList [VNode 114])].
Definition nBDeclarator : Node :=
  mkNode 114 "VariableDeclarator" (Some nBDeclaration) [("id", VNode 115); ("init", VNode 117)].
Definition nBPattern : Node :=
  mkNode 115 "ArrayPattern" (Some nBDeclarator) [("elements", VList [VNode 116])].
Definition nBDecl : Node := ident 116 nBPattern "b".
Definition nBCreateSignalCall : Node :=
  mkNode 117 "CallExpression" (Some nBDeclarator)
         [("callee", VNode 118); ("arguments", VList [VNode 119])].
Definition nBCreateSignal : Node := ident 118 nBCreateSignalCall "createSignal".
Definition nGDeclaration : Node :=
  mkNode 120 "VariableDeclaration" (Some nCompBlock)
         [("kind", VStr "const"); ("declarations", VList [VNode 121])].
Definition nGDeclarator : Node :=
  mkNode 121 "VariableDeclarator" (Some nGDeclaration) [("id", VNode 122); ("init", VNode 123)].
Definition nGDecl : Node := ident 122 nGDeclarator "g".
Definition nG : Node :=
  mkNode 123 "ArrowFunctionExpression" (Some nGDeclarator)
         [("params", VList []); ("body", VNode 124); ("async", VBool false)].
Definition nGBlock (inner : bool) : Node :=
  mkNode 124 "BlockStatement" (Some nG)
         [("body", VList (VNode 125 :: if inner then [VNode 128] else []))].
Definition nGCountStatement (inner : bool) : Node :=
  mkNode 125 "ExpressionStatement" (Some (nGBlock inner)) [("expression", VNode 126)].
Definition nGCountCall (inner : bool) : Node :=
  mkNode 126 "CallExpression" (Some (nGCountStatement inner))
         [("callee", VNode 127); ("arguments", VList [])].
Definition nGCountRead (inner : bool) : Node := ident 127 (nGCountCall inner) "count".
Definition nGInnerStatement : Node :=
  mkNode 128 "ExpressionStatement" (Some (nGBlock true)) [("expression", VNode 129)].
Definition nGInnerCall : Node :=
  mkNode 129 "CallExpression" (Some nGInnerStatement)
         [("callee", VNode 141); ("arguments", VList [])].
Definition nGInnerRead : Node := ident 141 nGInnerCall "b".
Definition nGUseStatement : Node :=
  mkNode 142 "ExpressionStatement" (Some nCompBlock) [("expression", VNode 143)].
Definition nGUseCall : Node :=
  mkNode 143 "CallExpression" (Some nGUseStatement)
         [("callee", VNode 144); ("arguments", VList [])].
Definition nGUse : Node := ident 144 nGUseCall "g".

Definition astComp (inner : bool) : Ast :=
  AstNode nComp
    [AstNode (ident 111 nComp "Comp") [];
     AstNode nCompBlock
       [AstNode nBDeclaration
          [AstNode nBDeclarator
             [AstNode nBPattern [AstNode nBDecl []];
              AstNode nBCreateSignalCall
                [AstNode nBCreateSignal [];
                 leaf 119 "Literal" nBCreateSignalCall [("value", VStr "0")]]]];
        AstNode nGDeclaration
          [AstNode nGDeclarator
             [AstNode nGDecl [];
              AstNode nG
                [AstNode (nGBlock inner)
                   (AstNode (nGCountStatement inner)
                      [AstNode (nGCountCall inner) [AstNode (nGCountRead inner) []]]
                    :: if inner
                       then [AstNode nGInnerStatement
                               [AstNode nGInnerCall [AstNode nGInnerRead []]]]
                       else [])]]];
        AstNode nGUseStatement [AstNode nGUseCall [AstNode nGUse []]]]].

Definition vB (inner : bool) : ScopeVariable :=
  mkVariable 6 "b"
    (mkReference nBDecl true true false
     :: if inner then [mkReference nGInnerRead false false true] else [])
    [mkDef "Variable" nBDeclarator].

Definition vG : ScopeVariable :=
  mkVariable 7 "g" [mkReference nGDecl true true false; mkReference nGUse false false true]
    [mkDef "Variable" nGDeclarator].

Definition vComp : ScopeVariable :=
  mkVariable 8 "Comp" [] [mkDef "FunctionName" nComp].

Definition sampleDerived (inner : bool) : Source :=
  sample [astImport; astDeclaration; astComp inner]
         [vCount (nGCountRead inner); vSetCount;
          mkVariable 2 "createSignal"
            [mkReference nCreateSignal false false true;
             mkReference nBCreateSignal false false true]
            [mkDef "ImportBinding" nSpecSignal];
          vCreateEffect []; vB inner; vG; vComp].

(** A state met while leaving [g] in [sampleDerived true]: the read of
    [count] has made [g] a derived signal declared at the program, and the
    read of [b] is about to be handled. *)
Definition atMerge : St :=
  mkSt [mkItem nProgram [] [] false; mkItem nComp [] [] false; mkItem nG [] [] false]
       [] [mkBinding [mkReference nGUse false false true] vG nProgram 0] [] [] []
       [vG] [].

(** ** Notions the statements are written with *)

(** The proper ancestors of a node, nearest first. *)
Fixpoint ancestors (n : Node) : list Node :=
  match parent n with
  | Some p => p :: ancestors p
  | None => []
  end.

(** [r] is [a] or lies inside [a]. *)
Definition descendantOrSelf (r a : Node) : Prop := r = a \/ In a (ancestors r).

(** [a] is [r] or an ancestor of [r], by node identity. *)
Definition isAncestorOrSelf (a r : Node) : bool := existsb (same a) (r :: ancestors r).

(** The frames mirror the nesting of the functions being walked: a frame's
    node is a proper ancestor of the node of every frame above it. *)
Definition Nested (stack : list ScopeStackItem) : Prop :=
  forall i j fi fj, i < j ->
    nth_error stack i = Some fi -> nth_error stack j = Some fj ->
    In (node fi) (ancestors (node fj)) /\ nid (node fi) <> nid (node fj).

Definition onStack (n : Node) (stack : list ScopeStackItem) : bool :=
  existsb (fun item => same n (node item)) stack.

(** *** The attribution of a reference to a scope, in the words of the
    specification *)

(** The nearest enclosing function-or-program ancestor. *)
Definition nearestEnclosing (n : Node) : option Node :=
  List.find isProgramOrFunctionNode (ancestors n).

(** A function marked as a synchronous callback. *)
Definition IsSyncCallback (sync : list Node) (f : Node) : Prop :=
  isFunctionNode f = true /\ exists g, In g sync /\ nid g = nid f.

(** While the ancestor is a synchronous callback it is replaced by its own
    nearest enclosing function-or-program ancestor. *)
Inductive Attributed (sync : list Node) : option Node -> option Node -> Prop :=
| attributed_none : Attributed sync None None
| attributed_here f : ~ IsSyncCallback sync f -> Attributed sync (Some f) (Some f)
| attributed_skip f r :
    IsSyncCallback sync f ->
    Attributed sync (nearestEnclosing f) r ->
    Attributed sync (Some f) r.

(** The reference site [n] is attributed to the frame of [scope]. *)
Definition AttributedTo (sync : list Node) (n scope : Node) : Prop :=
  exists final, Attributed sync (nearestEnclosing n) (Some final) /\ nid final = nid scope.

(** *** The conservation law *)

(** A binding's reference list as [pushSignal] and [pushProps] store it. *)
Definition postFilter (v : ScopeVariable) : list Reference :=
  filter (fun reference => negb (init reference)) (v_references v).

(** The references of entry [e] yielded so far, in order. *)
Definition yieldedOf (e : nat) (s : St) : list Reference :=
  map y_reference (filter (fun y => y_eid y =? e) (yielded s)).

(** The references entry [e] still holds. *)
Definition heldIn (e : nat) (b : Binding) : list Reference :=
  if eid b =? e then references b else [].

Definition heldBy (e : nat) (s : St) : list Reference :=
  flat_map (heldIn e) (signals s ++ props s).

(** The references yielded for entry [e] and not yet taken out of it: the
    generator stores the remainder of an entry's list only after it has
    yielded every reference of the entry that is in scope. *)
Definition pendingOf (e : nat) (pending : list (nat * Reference)) : list Reference :=
  map snd (filter (fun p => fst p =? e) pending).

(** The invariant of the registries: what an entry has yielded and what it
    holds make up the list it was pushed with; entries are told apart by
    [eid]. *)
Definition Conserved (pending : list (nat * Reference)) (s : St) : Prop :=
  (forall e v, nth_error (registered s) e = Some v ->
     Permutation (yieldedOf e s ++ heldBy e s) (postFilter v ++ pendingOf e pending))
  /\ NoDup (map eid (signals s ++ props s))
  /\ (forall b, In b (signals s ++ props s) -> eid b < List.length (registered s))
  /\ (forall y, In y (yielded s) -> y_eid y < List.length (registered s))
  /\ (forall p, In p pending -> fst p < List.length (registered s)).

(** What the rule does to the registries outside the two generators: it
    pushes an entry, or it rewrites an entry's declaration scope. *)
Inductive Step : St -> St -> Prop :=
| step_refl s : Step s s
| step_trans s1 s2 s3 : Step s1 s2 -> Step s2 s3 -> Step s1 s3
| step_other s s' :
    signals s' = signals s -> props s' = props s ->
    registered s' = registered s -> yielded s' = yielded s -> Step s s'
| step_pushSignal s s' v d :
    signals s' = signals s ++ [newBinding v d s] -> props s' = props s ->
    registered s' = registered s ++ [v] -> yielded s' = yielded s -> Step s s'
| step_pushProps s s' v d :
    signals s' = signals s -> props s' = props s ++ [newBinding v d s] ->
    registered s' = registered s ++ [v] -> yielded s' = yielded s -> Step s s'
| step_declarationScope s s' i d :
    signals s' = updateAt i (set_declarationScope d) (signals s) -> props s' = props s ->
    registered s' = registered s -> yielded s' = yielded s -> Step s s'.

(** A computation that only takes such steps. *)
Definition steps {A} (m : M A) : Prop := forall s a s', m s = Ok a s' -> Step s s'.

(** A computation that keeps the invariant. *)
Definition conserves {A} (m : M A) : Prop :=
  forall s a s', Conserved [] s -> m s = Ok a s' -> Conserved [] s'.

(** The entries stay where they are, with their references. *)
Definition Keeps (s s' : St) : Prop :=
  forall which i b, nth_error (registry which s) i = Some b ->
    exists b', nth_error (registry which s') i = Some b'
               /\ eid b' = eid b /\ references b' = references b.

(** *** The passes of the generators end *)

(** The node of the frame on top of the stack. *)
Definition topNode (s : St) : option Node :=
  match rev (frames s) with
  | item :: _ => Some (node item)
  | [] => None
  end.

(** The variable [handleTrackedScopes] promotes when the function [c] is
    being left: the one the function declaration or the enclosing
    declarator declares. *)
Definition functionVariable (src : Source) (c : Node) : option ScopeVariable :=
  if String.eqb (type c) "FunctionDeclaration" then hd_error (declaredVariables src c)
  else if typeIs (parent c) "VariableDeclarator" then
    match parent c with
    | Some declarator => hd_error (declaredVariables src declarator)
    | None => None
    end
  else None.

(** How many entries may still be pushed onto [signals] while [c] is being
    left: one, as long as the function's variable has no entry. *)
Definition slack (fv : option ScopeVariable) (entries : list Binding) : nat :=
  match fv with
  | Some v => if existsb (fun b => sameVariable (variable b) v) entries then 0 else 1
  | None => 0
  end.

(** What a loop body may do to the stack and the registries. *)
Definition Bounded (fv : option ScopeVariable) (s s' : St) : Prop :=
  map node (frames s') = map node (frames s)
  /\ props s' = props s
  /\ List.length (signals s) <= List.length (signals s')
  /\ List.length (signals s') + slack fv (signals s')
     <= List.length (signals s) + slack fv (signals s).

(** A computation that, run while the frame of [c] is on top, stays within
    [Bounded] and does not fail for want of fuel. *)
Definition tame {A} (fv : option ScopeVariable) (c : Node) (m : M A) : Prop :=
  forall s, topNode s = Some c ->
    match m s with
    | Ok _ s' => Bounded fv s s'
    | Throw e => e <> "out of fuel"
    end.

(** The turns a pass still has to take from position [i], at most. *)
Definition remaining (which : Registry) (fv : option ScopeVariable) (i : nat) (s : St)
  : nat :=
  match which with
  | Signals => (List.length (signals s) - i) + slack fv (signals s)
  | Props => List.length (props s) - i
  end.

(** A computation that does not fail for want of fuel. *)
Definition fuelFree {A} (m : M A) : Prop := forall s, m s <> Throw "out of fuel".

(** The state a run ends in. *)
Definition finalState (src : Source) (options : Options) : St :=
  match run src options with
  | Ok _ s => s
  | Throw _ => create
  end.

(** *** Property names exempt from tracking *)

(** One of the three prefixes, then an upper-case letter, then anything. *)
Definition ExemptName (name : string) : Prop :=
  exists prefix c rest,
    In prefix ["initial"; "default"; "static"] /\ isUpper c = true
    /\ name = String.append prefix (String c rest).

(** The property node of the member expression is an identifier with an
    exempt name; whether the access is computed is not looked at. *)
Definition ExemptAccess (src : Source) (member : Node) : Prop :=
  exists property name,
    child src member "property" = Some property
    /\ type property = "Identifier"
    /\ str property "name" = Some name
    /\ ExemptName name.

(** A read in call position: the callee or an argument of a call, or an
    element of an array literal that is an argument of a call. *)
Definition inCallPosition (identifier' : Node) : bool :=
  typeIs (parent identifier') "CallExpression"
  || (typeIs (parent identifier') "ArrayExpression"
      && typeIs (parentOf (parent identifier')) "CallExpression").

(** * Further parts of the bundle

    The [messages] table of the rule, notions to read the helpers' results
    with, and the listeners of rules of the bundle other than
    [reactivity]. *)

(** ** The findings the rule can raise *)

(** [meta.messages] of the rule [reactivity]. *)
Definition MESSAGES : list (string * string) :=
  [("noWrite",
    "The reactive variable '{{name}}' should not be reassigned or altered directly.");
   ("untrackedReactive",
    "The reactive variable '{{name}}' should be used within JSX, a tracked scope (like createEffect), or inside an event handler function, or else changes will be ignored.");
   ("expectedFunctionGotExpression",
    "The reactive variable '{{name}}' should be wrapped in a function for reactivity. This includes event handler bindings on native elements, which are not reactive like other JSX props.");
   ("badSignal",
    "The reactive variable '{{name}}' should be called as a function when used in {{where}}.");
   ("badUnnamedDerivedSignal",
    "This function should be passed to a tracked scope (like createEffect) or an event handler because it contains reactivity, or else changes will be ignored.");
   ("shouldDestructure",
    "For proper analysis, array destructuring should be used to capture the {{nth}}result of this function call.");
   ("shouldAssign",
    "For proper analysis, a variable should be used to capture the result of this function call.");
   ("noAsyncTrackedScope",
    "This tracked scope should not be async. Solid's reactivity only tracks synchronously.")].

(** The names a message template interpolates: what stands between [{{] and
    [}}]. *)
Fixpoint placeholdersFrom (inside : option string) (template : string) : list string :=
  match template with
  | EmptyString => []
  | String c rest =>
      match inside with
      | None =>
          match rest with
          | String c' rest' =>
              if Ascii.eqb c "{" && Ascii.eqb c' "{"
              then placeholdersFrom (Some "") rest'
              else placeholdersFrom None rest
          | EmptyString => []
          end
      | Some key =>
          match rest with
          | String c' rest' =>
              if Ascii.eqb c "}" && Ascii.eqb c' "}"
              then key :: placeholdersFrom None rest'
              else placeholdersFrom (Some (String.append key (String c EmptyString))) rest
          | EmptyString => []
          end
      end
  end.

Definition placeholders (template : string) : list string :=
  placeholdersFrom None template.

(** The calls of [context.report] in the rule: the message and the names of
    the [data] passed with it. [warnShouldDestructure] passes [nth] or no
    data at all. *)
Definition SITES : list (string * list string) :=
  [("noWrite", ["name"]);
   ("untrackedReactive", ["name"]);
   ("expectedFunctionGotExpression", ["name"]);
   ("badSignal", ["name"; "where"]);
   ("badUnnamedDerivedSignal", []);
   ("shouldDestructure", ["nth"]);
   ("shouldDestructure", []);
   ("shouldAssign", []);
   ("noAsyncTrackedScope", [])].

Definition site (r : Report) : string * list string := (messageId r, map fst (data r)).

(** A finding ESLint can render: its message is declared, and every name the
    message interpolates has a value. *)
Definition Renders (r : Report) : Prop :=
  exists template,
    In (messageId r, template) MESSAGES
    /\ incl (placeholders template) (map fst (data r)).

(** ** Notions to read the helpers' results with *)

(** [r] is the first element of [l] that passes [p]. *)
Definition FirstThat {A} (p : A -> bool) (l : list A) (r : A) : Prop :=
  exists nearer further,
    l = nearer ++ r :: further /\ p r = true /\ Forall (fun x => p x = false) nearer.

(** The test of [ignoreTransparentWrappers]. *)
Definition isTransparentWrapper (n : Node) : bool :=
  inList (type n) ["TSAsExpression"; "TSNonNullExpression"; "TSSatisfiesExpression"].

(** The pairs [handleImportDeclaration] records for a declaration: for every
    [ImportSpecifier], in order, the imported name and the local one. *)
Definition importedPairs (src : Source) (n : Node) : list (string * string) :=
  flat_map (fun specifier =>
              if typeIs specifier "ImportSpecifier" then
                match strOf (childOf src specifier "imported") "name",
                      strOf (childOf src specifier "local") "name" with
                | Some imported, Some local => [(imported, local)]
                | _, _ => []
                end
              else [])
           (childList src n "specifiers").

(** The last pair recorded for a name. *)
Definition lastBinding (pairs : list (string * string)) (k : string) : option string :=
  option_map snd (List.find (fun kv => String.eqb (fst kv) k) (rev pairs)).

(** ** Notions for the rule's own functions *)

(** [matchTrackedScope(trackedScope, node)] while the frame of [scope] is at
    the top of the stack. *)
Definition matchesTrackedScope (scope : Node) (trackedScope : TrackedScope) (n : Node)
  : bool :=
  match expect trackedScope with
  | expect_function | expect_called_function => sameOpt (Some n) (ts_node trackedScope)
  | expect_expression =>
      isSome (findInScope n scope (fun node2 => sameOpt (Some node2) (ts_node trackedScope)))
  end.

(** Some tracked scope of the frame matches the node. *)
Definition tracked (cur : ScopeStackItem) (n : Node) : bool :=
  existsb (fun trackedScope => matchesTrackedScope (node cur) trackedScope n)
          (trackedScopes cur).

(** The two things [checkForReactiveAssignment] can do: register variables,
    or report that the call's result is not captured as it should be. *)
Definition Registers (s s' : St) : Prop :=
  reports s' = reports s
  /\ exists newSignals newProps,
       signals s' = signals s ++ newSignals /\ props s' = props s ++ newProps.

Definition Warns (s s' : St) : Prop :=
  signals s' = signals s /\ props s' = props s
  /\ exists n,
       (exists nth, reports s' = reports s ++ [mkReport (AtNode n) "shouldDestructure" nth])
       \/ reports s' = reports s ++ [mkReport (AtNode n) "shouldAssign" []].

(** No reference held by an entry lies in the scope at the top of the
    stack. *)
Definition NothingInScope (s : St) : Prop :=
  forall b reference,
    In b (signals s ++ props s) -> In reference (references b) ->
    isReferenceInCurrentScope reference s = Ok false s.

(** ** Further rules of the bundle

    A rule without state of its own is a function from the node its
    listener is called with to the findings it reports, in order.  The
    helpers of [@typescript-eslint/utils] and the string methods of
    JavaScript that a rule calls are parameters: [getStaticValue] answers
    [None] for [null]. *)

(** What [getStaticValue(...).value] can be, as far as the rules look. *)
Inductive Static :=
| SString (s : string)
| SNumber (text : string)
| SOther.

(** *** [jsx-no-script-url] *)

(** [[\u0000-\u001F ]]. *)
Definition isControlOrSpace (c : ascii) : bool := nat_of_ascii c <=? 32.

(** [[\r\n\t]]. *)
Definition isLineBreakOrTab (c : ascii) : bool :=
  let n := nat_of_ascii c in (n =? 13) || (n =? 10) || (n =? 9).

(** A letter of the pattern under the flag [i]: only the two ASCII forms of
    a letter match it. *)
Definition lowerLetter (c : ascii) : ascii :=
  if isUpper c then ascii_of_nat (nat_of_ascii c + 32) else c.

(** [cls*], which takes all it can: none of the classes of the pattern
    holds the character that follows it. *)
Fixpoint skip (cls : ascii -> bool) (s : string) : string :=
  match s with
  | String c rest => if cls c then skip cls rest else s
  | EmptyString => s
  end.

(** [l1[\r\n\t]*l2[\r\n\t]*...:] *)
Fixpoint spells (letters : list ascii) (s : string) : bool :=
  match letters, s with
  | [], String c _ => Ascii.eqb c ":"
  | l :: letters', String c rest =>
      Ascii.eqb (lowerLetter c) l && spells letters' (skip isLineBreakOrTab rest)
  | _, EmptyString => false
  end.

(** [isJavaScriptProtocol.test(s)]. *)
Definition isJavaScriptProtocol (s : string) : bool :=
  spells (list_ascii_of_string "javascript") (skip isControlOrSpace s).

Section StatelessRules.

Variable src : Source.
Variable getStaticValue : Node -> option Static.

(** The listener [JSXAttribute] of [jsx-no-script-url]. *)
Definition jsxNoScriptUrl (n : Node) : list Report :=
  match child src n "value" with
  | Some value =>
      if typeIs (child src n "name") "JSXIdentifier" then
        let link :=
          match (if String.eqb (type value) "JSXExpressionContainer"
                 then child src value "expression" else Some value) with
          | Some target => getStaticValue target
          | None => None
          end in
        match link with
        | Some (SString url) =>
            if isJavaScriptProtocol url
            then [mkReport (AtNode (nid value)) "noJSURL" []]
            else []
        | _ => []
        end
      else []
  | None => []
  end.

End StatelessRules.

(** A string that spells [letters], each letter in either case and followed
    by any number of line breaks and tabs, and then a colon. *)
Fixpoint Spells (letters : list ascii) (s : string) : Prop :=
  match letters with
  | [] => exists rest, s = String ":" rest
  | l :: letters' =>
      exists c gap rest,
        s = String c (String.append gap rest)
        /\ lowerLetter c = l
        /\ allChars isLineBreakOrTab gap = true
        /\ Spells letters' rest
  end.

(** A [javascript:] URL as a browser reads it: control characters and spaces
    in front, the scheme in any case with line breaks and tabs after any of
    its letters, the colon. *)
Definition ScriptUrl (s : string) : Prop :=
  exists lead rest,
    s = String.append lead rest
    /\ allChars isControlOrSpace lead = true
    /\ Spells (list_ascii_of_string "javascript") rest.

(** *** The helpers for JSX attributes *)

Section JSXProps.

Variable src : Source.

(** [String(value)] for the value of a literal; a number is held as the
    text [String] gives for it. *)
Definition stringOf (v : value) : string :=
  match v with
  | VStr s => s
  | VBool true => "true"
  | VBool false => "false"
  | VNull => "null"
  | VUndef => "undefined"
  | VNode _ | VList _ => "[object Object]"
  end.

(** [jsxPropName(prop)]. *)
Definition jsxPropName (prop : Node) : option string :=
  let name := child src prop "name" in
  if typeIs name "JSXNamespacedName" then
    Some (String.append
            (match strOf (childOf src name "namespace") "name" with
             | Some s => s
             | None => "undefined"
             end)
            (String.append ":"
               (match strOf (childOf src name "name") "name" with
                | Some s => s
                | None => "undefined"
                end)))
  else strOf name "name".

(** [*jsxGetAllProps(props)]: the pairs it yields, in order. *)
Definition jsxGetAllProps (props : list Node) : list (option string * option Node) :=
  flat_map
    (fun attr =>
       if String.eqb (type attr) "JSXSpreadAttribute"
          && typeIs (child src attr "argument") "ObjectExpression"
       then
         flat_map
           (fun property =>
              if typeIs property "Property" then
                let key := childOf src property "key" in
                if typeIs key "Identifier" then [(strOf key "name", key)]
                else if typeIs key "Literal"
                then [(option_map (fun k => stringOf (field k "value")) key, key)]
                else []
              else [])
           (childListOf src (child src attr "argument") "properties")
       else if String.eqb (type attr) "JSXAttribute"
       then [(jsxPropName attr, child src attr "name")]
       else [])
    props.

(** [jsxHasProp(props, prop)]. *)
Definition jsxHasProp (props : list Node) (prop : string) : bool :=
  existsb (fun p => strIs (fst p) prop) (jsxGetAllProps props).

(** [jsxGetProp(props, prop)]. *)
Definition jsxGetProp (props : list Node) (prop : string) : option Node :=
  List.find (fun attribute =>
               negb (String.eqb (type attribute) "JSXSpreadAttribute")
               && strIs (jsxPropName attribute) prop)
            props.

(** *** [jsx-no-duplicate-props] *)

Variable toLowerCase : string -> string.

Definition dropPrefix (n : nat) (s : string) : string :=
  substring n (String.length s - n) s.

(** [.replace(/^on(?:capture)?:/, "on")]. *)
Definition replaceOnNamespace (s : string) : string :=
  if String.prefix "oncapture:" s then String.append "on" (dropPrefix 10 s)
  else if String.prefix "on:" s then String.append "on" (dropPrefix 3 s)
  else s.

(** [.replace(/^(?:attr|prop):/, "")]. *)
Definition dropAttrNamespace (s : string) : string :=
  if String.prefix "attr:" s || String.prefix "prop:" s then dropPrefix 5 s else s.

(** The name [checkPropName] looks up and adds. *)
Definition normalizePropName (ignoreCase : bool) (name : string) : string :=
  if ignoreCase || String.prefix "on" name
  then dropAttrNamespace (replaceOnNamespace (toLowerCase name))
  else name.

(** [checkPropName(name, node)], with the set [props] and the findings so
    far; [None] is the [TypeError] of [name.startsWith] on [undefined]. *)
Definition checkPropName (ignoreCase : bool) (seen : list string * list Report)
  (p : option string * option Node) : option (list string * list Report) :=
  match fst p with
  | Some name0 =>
      let name := normalizePropName ignoreCase name0 in
      let props := fst seen in
      Some (if inList name props then props else props ++ [name],
            if inList name props
            then snd seen
                 ++ [mkReport (AtNode (match snd p with Some k => nid k | None => 0 end))
                              (if String.eqb name "class" then "noDuplicateClass"
                               else "noDuplicateProps") []]
            else snd seen)
  | None => None
  end.

Fixpoint checkPropNames (ignoreCase : bool) (seen : list string * list Report)
  (l : list (option string * option Node)) : option (list string * list Report) :=
  match l with
  | [] => Some seen
  | p :: rest =>
      match checkPropName ignoreCase seen p with
      | Some seen' => checkPropNames ignoreCase seen' rest
      | None => None
      end
  end.

(** [used.join(", ")]. *)
Definition joinComma (l : list string) : string := String.concat ", " l.

(** The listener [JSXOpeningElement] of [jsx-no-duplicate-props]; [attributes]
    are the nodes of [node.attributes]. *)
Definition jsxNoDuplicateProps (ignoreCase : bool) (n : Node) (attributes : list Node)
  : option (list Report) :=
  match checkPropNames ignoreCase ([], []) (jsxGetAllProps attributes) with
  | Some (props, reports) =>
      let hasChildrenProp := inList "children" props in
      let hasChildren := 0 <? List.length (childListOf src (parent n) "children") in
      let hasInnerHTML := inList "innerHTML" props || inList "innerhtml" props in
      let hasTextContent := inList "textContent" props || inList "textContent" props in
      let used :=
        (if hasChildrenProp then ["`props.children`"] else [])
        ++ (if hasChildren then ["JSX children"] else [])
        ++ (if hasInnerHTML then ["`props.innerHTML`"] else [])
        ++ (if hasTextContent then ["`props.textContent`"] else []) in
      Some (if 1 <? List.length used
            then reports ++ [mkReport (AtNode (nid n)) "noDuplicateChildren"
                                      [("used", joinComma used)]]
            else reports)
  | None => None
  end.

End JSXProps.

(** The attribute nodes a parser produces. *)
Definition isAttribute (n : Node) : bool :=
  String.eqb (type n) "JSXAttribute" || String.eqb (type n) "JSXSpreadAttribute".

(** The findings about single props, as opposed to the one about children. *)
Definition propFindings (reports : list Report) : list Report :=
  filter (fun r => negb (String.eqb (messageId r) "noDuplicateChildren")) reports.

(** The distinct elements of a list of names, first occurrences kept. *)
Fixpoint distinct (l : list string) (seen : list string) : list string :=
  match l with
  | [] => seen
  | x :: rest => distinct rest (if inList x seen then seen else seen ++ [x])
  end.

(** *** [event-handlers] *)

(** A finding with the rename its fix makes, and the renames it suggests. *)
Record Suggestion := mkSuggestion {
  s_messageId : string;
  s_data : list (string * string);
  s_text : string
}.

Record Finding := mkFinding {
  finding : Report;
  fixText : option string;
  suggest : list Suggestion
}.

Definition COMMON_EVENTS : list string :=
  ["onAnimationEnd"; "onAnimationIteration"; "onAnimationStart"; "onBeforeInput";
   "onBlur"; "onChange"; "onClick"; "onContextMenu"; "onCopy"; "onCut"; "onDblClick";
   "onDrag"; "onDragEnd"; "onDragEnter"; "onDragExit"; "onDragLeave"; "onDragOver";
   "onDragStart"; "onDrop"; "onError"; "onFocus"; "onFocusIn"; "onFocusOut";
   "onGotPointerCapture"; "onInput"; "onInvalid"; "onKeyDown"; "onKeyPress"; "onKeyUp";
   "onLoad"; "onLostPointerCapture"; "onMouseDown"; "onMouseEnter"; "onMouseLeave";
   "onMouseMove"; "onMouseOut"; "onMouseOver"; "onMouseUp"; "onPaste";
   "onPointerCancel"; "onPointerDown"; "onPointerEnter"; "onPointerLeave";
   "onPointerMove"; "onPointerOut"; "onPointerOver"; "onPointerUp"; "onReset";
   "onScroll"; "onSelect"; "onSubmit"; "onToggle"; "onTouchCancel"; "onTouchEnd";
   "onTouchMove"; "onTouchStart"; "onTransitionEnd"; "onWheel"].

(** [NONSTANDARD_EVENTS_MAP]. The names looked up in it start with [on],
    which no property an object inherits does. *)
Definition NONSTANDARD_EVENTS_MAP : list (string * string) :=
  [("ondoubleclick", "onDblClick")].

Definition getStandardEventHandlerName (lowercaseEventName : string) : option string :=
  importGet NONSTANDARD_EVENTS_MAP lowercaseEventName.

Definition isNonstandardEventName (lowercaseEventName : string) : bool :=
  match getStandardEventHandlerName lowercaseEventName with
  | Some fixedName => negb (String.eqb fixedName "")
  | None => false
  end.

(** [/^on[a-zA-Z]/]. *)
Definition isHandlerLikeName (s : string) : bool :=
  prefixThen "on" (fun c => isLower c || isUpper c) s.

(** [String.prototype.slice(n)]. *)
Definition slice (n : nat) (s : string) : string := substring n (String.length s - n) s.

Section EventHandlers.

Variable src : Source.
Variable getStaticValue : Node -> option Static.
Variable toLowerCase : string -> string.
Variable toUpperCase : string -> string.

(** [COMMON_EVENTS_MAP]: a [Map] filled in the order of [COMMON_EVENTS]. *)
Definition COMMON_EVENTS_MAP : list (string * string) :=
  fold_left (fun m event => importSet (toLowerCase event) event m) COMMON_EVENTS [].

Definition isCommonHandlerName (lowercaseHandlerName : string) : bool :=
  isSome (importGet COMMON_EVENTS_MAP lowercaseHandlerName).

Definition getCommonEventHandlerName (lowercaseHandlerName : string) : option string :=
  importGet COMMON_EVENTS_MAP lowercaseHandlerName.

(** The last branch of the listener [JSXAttribute], taken when the option
    [ignoreCase] is off: the checks of the name itself. [nameNode] is
    [node.name]; [None] is the [TypeError] of [name[2].toLowerCase()] on a
    name of fewer than three characters, which the listener passes none of. *)
Definition checkHandlerName (nameNode : Loc) (name : string) : option (list Finding) :=
  let lowercaseHandlerName := toLowerCase name in
  if isNonstandardEventName lowercaseHandlerName then
    match getStandardEventHandlerName lowercaseHandlerName with
    | Some fixedName =>
        Some [mkFinding (mkReport nameNode "nonstandard"
                                  [("name", name); ("fixedName", fixedName)])
                        (Some fixedName) []]
    | None => Some []
    end
  else if isCommonHandlerName lowercaseHandlerName then
    match getCommonEventHandlerName lowercaseHandlerName with
    | Some fixedName =>
        if negb (String.eqb fixedName name) then
          Some [mkFinding (mkReport nameNode "capitalization"
                                    [("name", name); ("fixedName", fixedName)])
                          (Some fixedName) []]
        else Some []
    | None => Some []
    end
  else
    match String.get 2 name with
    | Some c =>
        let third := String c EmptyString in
        if String.eqb third (toLowerCase third) then
          let handlerName :=
            String.append "on" (String.append (toUpperCase third) (slice 3 name)) in
          let attrName := String.append "attr:" name in
          Some [mkFinding (mkReport nameNode "naming"
                                    [("name", name); ("attrName", attrName);
                                     ("handlerName", handlerName)])
                          None
                          [mkSuggestion "make-handler"
                                        [("name", name); ("handlerName", handlerName)]
                                        handlerName;
                           mkSuggestion "make-attr"
                                        [("name", name); ("attrName", attrName)]
                                        attrName]]
        else Some []
    | None => None
    end.

(** The listener [JSXAttribute] of [event-handlers]. *)
Definition eventHandlersJSXAttribute (ignoreCase : bool) (n : Node)
  : option (list Finding) :=
  let openingElement := parent n in
  let elementName := childOf src openingElement "name" in
  if negb (typeIs elementName "JSXIdentifier")
     || negb (test isDOMElementName (strOf elementName "name"))
  then Some []
  else if typeIs (child src n "name") "JSXNamespacedName" then Some []
  else
    let name := strOf (child src n "name") "name" in
    if negb (test isHandlerLikeName name) then Some []
    else
      let name := match name with Some s => s | None => "undefined" end in
      let value := child src n "value" in
      let expression := childOf src value "expression" in
      let staticValue :=
        if typeIs value "JSXExpressionContainer"
           && negb (typeIs expression "JSXEmptyExpression")
           && negb (typeIs expression "ArrayExpression")
        then match expression with
             | Some e => getStaticValue e
             | None => None
             end
        else None in
      let detected (text : string) :=
        Some [mkFinding (mkReport (AtNode (nid n)) "detected-attr"
                                  [("name", name); ("staticValue", text)])
                        None []] in
      match staticValue with
      | Some (SString text) => detected text
      | Some (SNumber text) => detected text
      | _ =>
          match value with
          | None => detected "true"
          | Some v =>
              if String.eqb (type v) "Literal" then detected (stringOf (field v "value"))
              else if negb ignoreCase
              then checkHandlerName
                     (match child src n "name" with
                      | Some k => AtNode (nid k)
                      | None => AtNode 0
                      end) name
              else Some []
          end
      end.

End EventHandlers.

(** What [toLowerCase] does to a string of ASCII characters. *)
Fixpoint lowerAscii (s : string) : string :=
  match s with
  | String c rest => String (lowerLetter c) (lowerAscii rest)
  | EmptyString => EmptyString
  end.

(** *** [components-return-once]

    The rule keeps a stack of the functions being visited; it is held with
    the innermost function first. A finding is the node and the message;
    the fix, which ESLint calls after the walk, is left out. [None] stands
    for the exception where the source reads a property of [undefined] or
    reports without a node. *)

Module ComponentsReturnOnce.

Record FunctionInfo := mkFunctionInfo {
  isComponent : bool;
  lastReturn : option Node;
  earlyReturns : list Node
}.

Record State := mkState {
  functionStack : list FunctionInfo;
  findings : list Report
}.

Definition create : State := mkState [] [].

(** [/^[A-Z]/]. *)
Definition startsUpper (name : string) : bool := prefixThen "" isUpper name.

Section Rule.

Variable src : Source.

(** [currentFunction().isComponent = b]. *)
Definition setIsComponent (b : bool) (s : State) : option State :=
  match functionStack s with
  | top :: rest =>
      Some (mkState (mkFunctionInfo b (lastReturn top) (earlyReturns top) :: rest)
                    (findings s))
  | [] => None
  end.

(** [onFunctionEnter(node)]. *)
Definition onFunctionEnter (n : Node) (s : State) : option State :=
  let body := child src n "body" in
  let lastReturn :=
    if typeIs body "BlockStatement" then
      match List.last (childListOf src body "body") None with
      | Some l => if String.eqb (type l) "ReturnStatement" then Some l else None
      | None => None
      end
    else None in
  Some (mkState (mkFunctionInfo false lastReturn [] :: functionStack s) (findings s)).

(** The condition under which [onFunctionExit] takes the function for a
    render prop or the argument of an ordinary call. *)
Definition isNoComponent (n : Node) : bool :=
  match getFunctionName src n with
  | Some name => isDOMElementName name
  | None => false
  end
  || typeIs (parent n) "JSXExpressionContainer"
  || (typeIs (parent n) "CallExpression"
      && existsb (fun a => sameOpt a (Some n)) (childListOf src (parent n) "arguments")
      && negb match strOf (childOf src (parent n) "callee") "name" with
              | Some name => startsUpper name
              | None => false
              end).

(** The finding about the argument of the last [return]. *)
Definition conditionalReturn (top : FunctionInfo) : option (list Report) :=
  let argument := childOf src (lastReturn top) "argument" in
  match argument with
  | Some a =>
      if String.eqb (type a) "ConditionalExpression" then
        match parent a with
        | Some p => Some [mkReport (AtNode (nid p)) "noConditionalReturn" []]
        | None => None
        end
      else if String.eqb (type a) "LogicalExpression"
      then Some [mkReport (AtNode (nid a)) "noConditionalReturn" []]
      else Some []
  | None => Some []
  end.

(** [onFunctionExit(node)]. *)
Definition onFunctionExit (n : Node) (s : State) : option State :=
  match (if isNoComponent n then setIsComponent false s else Some s) with
  | Some s1 =>
      match functionStack s1 with
      | top :: rest =>
          if isComponent top then
            match conditionalReturn top with
            | Some conditional =>
                Some (mkState rest
                        (findings s1
                         ++ map (fun earlyReturn =>
                                   mkReport (AtNode (nid earlyReturn)) "noEarlyReturn" [])
                                (earlyReturns top)
                         ++ conditional))
            | None => None
            end
          else Some (mkState rest (findings s1))
      | [] => None
      end
  | None => None
  end.

(** The listeners [JSXElement] and [JSXFragment]. *)
Definition onJSX (s : State) : option State :=
  match functionStack s with
  | [] => Some s
  | _ => setIsComponent true s
  end.

(** The listener [ReturnStatement]. *)
Definition onReturnStatement (n : Node) (s : State) : option State :=
  match functionStack s with
  | top :: rest =>
      if negb (sameOpt (Some n) (lastReturn top))
      then Some (mkState (mkFunctionInfo (isComponent top) (lastReturn top)
                                         (earlyReturns top ++ [n]) :: rest)
                         (findings s))
      else Some s
  | [] => Some s
  end.

Definition enter (n : Node) (s : State) : option State :=
  if isFunctionNode n then onFunctionEnter n s
  else if isJSXElementOrFragment (Some n) then onJSX s
  else if String.eqb (type n) "ReturnStatement" then onReturnStatement n s
  else Some s.

Definition leave (n : Node) (s : State) : option State :=
  if isFunctionNode n then onFunctionExit n s else Some s.

Definition each {A} (f : A -> State -> option State) (l : list A) (s : State)
  : option State :=
  (fix each (l : list A) (s : State) : option State :=
     match l with
     | [] => Some s
     | x :: rest => match f x s with Some s' => each rest s' | None => None end
     end) l s.

Fixpoint walk (t : Ast) (s : State) : option State :=
  match t with
  | AstNode n kids =>
      match enter n s with
      | Some s1 =>
          match each walk kids s1 with
          | Some s2 => leave n s2
          | None => None
          end
      | None => None
      end
  end.

Definition run : option State := walk (ast src) create.

End Rule.

End ComponentsReturnOnce.

(** What [toUpperCase] does to a string of ASCII characters. *)
Definition upperLetter (c : ascii) : ascii :=
  if isLower c then ascii_of_nat (nat_of_ascii c - 32) else c.

Fixpoint upperAscii (s : string) : string :=
  match s with
  | String c rest => String (upperLetter c) (upperAscii rest)
  | EmptyString => EmptyString
  end.

(** ** Further sample files *)

(** [(() => count())();] *)
Definition nIifeStatement : Node :=
  mkNode 150 "ExpressionStatement" (Some nProgram) [("expression", VNode 151)].
Definition nIifeCall : Node :=
  mkNode 151 "CallExpression" (Some nIifeStatement)
         [("callee", VNode 152); ("arguments", VList [])].
Definition nIifeArrow : Node :=
  mkNode 152 "ArrowFunctionExpression" (Some nIifeCall)
         [("params", VList []); ("body", VNode 153); ("async", VBool false)].
Definition nIifeCountCall : Node :=
  mkNode 153 "CallExpression" (Some nIifeArrow)
         [("callee", VNode 154); ("arguments", VList [])].
Definition nIifeCountRead : Node := ident 154 nIifeCountCall "count".

Definition astIife : Ast :=
  AstNode nIifeStatement
    [AstNode nIifeCall
       [AstNode nIifeArrow [AstNode nIifeCountCall [AstNode nIifeCountRead []]]]].

(** [import ...; const [count, setCount] = createSignal(0); (() => count())();] *)
Definition sampleIife : Source :=
  sample [astImport; astDeclaration; astIife]
         [vCount nIifeCountRead; vSetCount; vCreateSignal; vCreateEffect []].

(** The state of a walk of [sampleIife] that is about to enter the arrow
    function. *)
Definition atIife : St := set_syncCallbacks [nIifeArrow] atProgram.

(** A state met while leaving the arrow function of [sampleEffectLog], had
    it been found to contain reactivity without being passed to
    [createEffect]. *)
Definition atUnnamed : St :=
  set_frames [mkItem nProgram [] [] false; mkItem nEffectArrow [] [nEffectArrow] false]
             create.

(** A state met inside the arrow function of [sampleEffectLog], had the call
    of [console.log] been marked as a tracked expression. *)
Definition atTracked : St :=
  set_frames [mkItem nProgram [] [] false;
              mkItem nEffectArrow [mkTrackedScope (Some nEffectLogCall) expect_expression]
                     [] false]
             create.

(** [<div class="a" class="b" onclick={handler} />;] *)
Definition nJsxStatement : Node :=
  mkNode 199 "ExpressionStatement" (Some nProgram) [("expression", VNode 200)].
Definition nJsxElement : Node :=
  mkNode 200 "JSXElement" (Some nJsxStatement)
         [("openingElement", VNode 201); ("children", VList [])].
Definition nOpening : Node :=
  mkNode 201 "JSXOpeningElement" (Some nJsxElement)
         [("name", VNode 202); ("attributes", VList [VNode 203; VNode 206; VNode 209])].
Definition nDiv : Node := mkNode 202 "JSXIdentifier" (Some nOpening) [("name", VStr "div")].
Definition nClassA : Node :=
  mkNode 203 "JSXAttribute" (Some nOpening) [("name", VNode 204); ("value", VNode 205)].
Definition nClassB : Node :=
  mkNode 206 "JSXAttribute" (Some nOpening) [("name", VNode 207); ("value", VNode 208)].
Definition nOnclick : Node :=
  mkNode 209 "JSXAttribute" (Some nOpening) [("name", VNode 210); ("value", VNode 211)].
Definition nOnclickName : Node :=
  mkNode 210 "JSXIdentifier" (Some nOnclick) [("name", VStr "onclick")].
Definition nHandlerContainer : Node :=
  mkNode 211 "JSXExpressionContainer" (Some nOnclick) [("expression", VNode 212)].

Definition sampleJsx : Source :=
  sample
    [AstNode nJsxStatement
       [AstNode nJsxElement
          [AstNode nOpening
             [AstNode nDiv [];
              AstNode nClassA
                [leaf 204 "JSXIdentifier" nClassA [("name", VStr "class")];
                 leaf 205 "Literal" nClassA [("value", VStr "a")]];
              AstNode nClassB
                [leaf 207 "JSXIdentifier" nClassB [("name", VStr "class")];
                 leaf 208 "Literal" nClassB [("value", VStr "b")]];
              AstNode nOnclick
                [AstNode nOnclickName [];
                 AstNode nHandlerContainer
                   [AstNode (ident 212 nHandlerContainer "handler") []]]]]]]
    [].

(** [[
    import { createMemo } from "solid-js";
    let memo;
    memo = createMemo(() => 0);
    memo = createMemo(() => 0);
    memo();
    ]] *)
Definition nMemoImport : Node :=
  mkNode 300 "ImportDeclaration" (Some nProgram)
         [("specifiers", VList [VNode 301]); ("source", VNode 304)].
Definition nMemoSpec : Node :=
  mkNode 301 "ImportSpecifier" (Some nMemoImport) [("imported", VNode 302); ("local", VNode 303)].
Definition nMemoDeclaration : Node :=
  mkNode 305 "VariableDeclaration" (Some nProgram)
         [("kind", VStr "let"); ("declarations", VList [VNode 306])].
Definition nMemoDeclarator : Node :=
  mkNode 306 "VariableDeclarator" (Some nMemoDeclaration) [("id", VNode 307); ("init", VNull)].

(** [memo = createMemo(() => 0);], with the numbers from [base] on. *)
Definition nAssignStatement (base : nat) : Node :=
  mkNode base "ExpressionStatement" (Some nProgram) [("expression", VNode (base + 1))].
Definition nAssignment (base : nat) : Node :=
  mkNode (base + 1) "AssignmentExpression" (Some (nAssignStatement base))
         [("operator", VStr "="); ("left", VNode (base + 2)); ("right", VNode (base + 3))].
Definition nAssignTarget (base : nat) : Node := ident (base + 2) (nAssignment base) "memo".
Definition nCreateMemoCall (base : nat) : Node :=
  mkNode (base + 3) "CallExpression" (Some (nAssignment base))
         [("callee", VNode (base + 4)); ("arguments", VList [VNode (base + 5)])].
Definition nCreateMemo (base : nat) : Node := ident (base + 4) (nCreateMemoCall base) "createMemo".
Definition nMemoArrow (base : nat) : Node :=
  mkNode (base + 5) "ArrowFunctionExpression" (Some (nCreateMemoCall base))
         [("params", VList []); ("body", VNode (base + 6)); ("async", VBool false)].

Definition astAssign (base : nat) : Ast :=
  AstNode (nAssignStatement base)
    [AstNode (nAssignment base)
       [AstNode (nAssignTarget base) [];
        AstNode (nCreateMemoCall base)
          [AstNode (nCreateMemo base) [];
           AstNode (nMemoArrow base)
             [leaf (base + 6) "Literal" (nMemoArrow base) [("value", VStr "0")]]]]].

Definition nMemoUseStatement : Node :=
  mkNode 330 "ExpressionStatement" (Some nProgram) [("expression", VNode 331)].
Definition nMemoUseCall : Node :=
  mkNode 331 "CallExpression" (Some nMemoUseStatement)
         [("callee", VNode 332); ("arguments", VList [])].
Definition nMemoUse : Node := ident 332 nMemoUseCall "memo".

Definition vMemo : ScopeVariable :=
  mkVariable 0 "memo"
    [mkReference (nAssignTarget 310) false true false;
     mkReference (nAssignTarget 320) false true false;
     mkReference nMemoUse false false true]
    [mkDef "Variable" nMemoDeclarator].

Definition sampleTwice : Source :=
  sample
    [AstNode nMemoImport
       [AstNode nMemoSpec [AstNode (ident 302 nMemoSpec "createMemo") [];
                           AstNode (ident 303 nMemoSpec "createMemo") []];
        leaf 304 "Literal" nMemoImport [("value", VStr "solid-js")]];
     AstNode nMemoDeclaration
       [AstNode nMemoDeclarator [AstNode (ident 307 nMemoDeclarator "memo") []]];
     astAssign 310;
     astAssign 320;
     AstNode nMemoUseStatement [AstNode nMemoUseCall [AstNode nMemoUse []]]]
    [vMemo;
     mkVariable 1 "createMemo"
       [mkReference (nCreateMemo 310) false false true;
        mkReference (nCreateMemo 320) false false true]
       [mkDef "ImportBinding" nMemoSpec]].

(** [<div name={count} />;] after the shared declaration of [count], for an
    attribute name [name]. *)
Definition nAttrStatement : Node :=
  mkNode 340 "ExpressionStatement" (Some nProgram) [("expression", VNode 341)].
Definition nAttrElement : Node :=
  mkNode 341 "JSXElement" (Some nAttrStatement)
         [("openingElement", VNode 342); ("children", VList [])].
Definition nAttrOpening : Node :=
  mkNode 342 "JSXOpeningElement" (Some nAttrElement)
         [("name", VNode 343); ("attributes", VList [VNode 344])].
Definition nAttr : Node :=
  mkNode 344 "JSXAttribute" (Some nAttrOpening) [("name", VNode 345); ("value", VNode 346)].
Definition nAttrContainer : Node :=
  mkNode 346 "JSXExpressionContainer" (Some nAttr) [("expression", VNode 347)].
Definition nAttrCount : Node := ident 347 nAttrContainer "count".

Definition sampleAttribute (name : string) : Source :=
  let vs := [vCount nAttrCount; vSetCount; vCreateSignal; vCreateEffect []] in
  mkSource
    (AstNode nProgram
       [astImport; astDeclaration;
        AstNode nAttrStatement
          [AstNode nAttrElement
             [AstNode nAttrOpening
                [leaf 343 "JSXIdentifier" nAttrOpening [("name", VStr "div")];
                 AstNode nAttr
                   [leaf 345 "JSXIdentifier" nAttr [("name", VStr name)];
                    AstNode nAttrContainer [AstNode nAttrCount []]]]]]])
    (fun n => if nid n =? 345 then name else "")
    vs (byName vs) (byNode vs) (declaredAt vs).

(** [store[initialValue];] after the declaration of [store]: a computed
    access whose property is written as an identifier. *)
Definition nComputedStatement : Node :=
  mkNode 350 "ExpressionStatement" (Some nProgram) [("expression", VNode 351)].
Definition nComputedMember : Node :=
  mkNode 351 "MemberExpression" (Some nComputedStatement)
         [("object", VNode 352); ("property", VNode 353); ("computed", VBool true)].
Definition nComputedRead : Node := ident 352 nComputedMember "store".

Definition sampleStoreComputed (property : string) : Source :=
  let vs := [mkVariable 0 "store"
               [mkReference nStoreDecl true true false;
                mkReference nComputedRead false false true]
               [mkDef "Variable" nStoreDeclarator];
             mkVariable 1 "createStore"
               [mkReference (ident 80 nCreateStoreCall "createStore") false false true]
               [mkDef "ImportBinding" nStoreSpec]] in
  mkSource
    (AstNode nProgram
       [AstNode nStoreImport
          [AstNode nStoreSpec [AstNode (ident 72 nStoreSpec "createStore") [];
                               AstNode (ident 73 nStoreSpec "createStore") []];
           AstNode (mkNode 74 "Literal" (Some nStoreImport) [("value", VStr "solid-js")]) []];
        AstNode nStoreDeclaration
          [AstNode nStoreDeclarator
             [AstNode nStorePattern [AstNode nStoreDecl []];
              AstNode nCreateStoreCall
                [AstNode (ident 80 nCreateStoreCall "createStore") [];
                 leaf 81 "ObjectExpression" nCreateStoreCall [("properties", VList [])]]]];
        AstNode nComputedStatement
          [AstNode nComputedMember
             [AstNode nComputedRead []; AstNode (ident 353 nComputedMember property) []]]])
    (fun n => if nid n =? 351 then String.append "store[" (String.append property "]") else "")
    vs (byName vs) (byNode vs) (declaredAt vs).

(** [const [count, setCount] = createSignal(<div />);] after the import: the
    argument of a call whose callee is named [create...] is a JSX element. *)
Definition nElementArgument : Node :=
  mkNode 16 "JSXElement" (Some nCreateSignalCall)
         [("openingElement", VNode 17); ("children", VList []); ("closingElement", VNull)].
Definition nElementOpening : Node :=
  mkNode 17 "JSXOpeningElement" (Some nElementArgument)
         [("name", VNode 18); ("attributes", VList []); ("selfClosing", VBool true)].

Definition sampleElementArgument : Source :=
  sample [astImport;
          AstNode nDeclaration
            [AstNode nDeclarator
               [AstNode nPattern [AstNode nCountDecl []; AstNode nSetCountDecl []];
                AstNode nCreateSignalCall
                  [AstNode nCreateSignal [];
                   AstNode nElementArgument
                     [AstNode nElementOpening
                        [leaf 18 "JSXIdentifier" nElementOpening [("name", VStr "div")]]]]]]]
         [mkVariable 0 "count" [mkReference nCountDecl true true false]
                     [mkDef "Variable" nDeclarator];
          vSetCount; vCreateSignal; vCreateEffect []].

(** ** Notions for the calling convention *)

(** The contexts in which the read of a signal is reported whatever scope
    it is in, with the word the finding names the context by. *)
Inductive ReportedContext (n : Node) : string -> Prop :=
| context_template p :
    parent n = Some p -> type p = "TemplateLiteral" ->
    ReportedContext n "template literals"
| context_arithmetic p operator :
    parent n = Some p -> type p = "BinaryExpression" ->
    str p "operator" = Some operator -> In operator ARITHMETIC_OR_COMPARISON ->
    ReportedContext n "arithmetic or comparisons"
| context_unary p operator :
    parent n = Some p -> type p = "UnaryExpression" ->
    str p "operator" = Some operator -> In operator ["-"; "+"; "~"] ->
    ReportedContext n "unary expressions"
| context_property p :
    parent n = Some p -> type p = "MemberExpression" ->
    flag p "computed" = true -> childIs (Some p) "property" n = true ->
    ReportedContext n "property accesses".

(** The node is itself the node of a tracked scope of the frame, of the kind
    [function] or [called-function]. *)
Definition isTrackedFunction (cur : ScopeStackItem) (n : Node) : bool :=
  existsb (fun trackedScope =>
             sameOpt (ts_node trackedScope) (Some n)
             && (Expect_eqb (expect trackedScope) expect_function
                 || Expect_eqb (expect trackedScope) expect_called_function))
          (trackedScopes cur).

(** The expression container is a child of a JSX element or fragment, or
    the value of an attribute of a DOM element. *)
Definition inJSX (src : Source) (container : Node) : bool :=
  isJSXElementOrFragment (parent container)
  || (typeIs (parent container) "JSXAttribute"
      && typeIs (parentOf (parent container)) "JSXOpeningElement"
      && typeIs (childOf src (parentOf (parent container)) "name") "JSXIdentifier"
      && test isDOMElementName
              (strOf (childOf src (parentOf (parent container)) "name") "name")).

(** The finding [badSignal] at a read. *)
Definition badSignal (n : Node) (where' : string) : Report :=
  mkReport (AtNode (nid n)) "badSignal" [("name", nameText n); ("where", where')].

(** States met while the arrow function of [createEffect(() => count + 1)]
    is being left, and at the exit of the program that holds
    [<div onClick={count} />]. *)
Definition atSum : St :=
  set_frames [mkItem nProgram [mkTrackedScope (Some nSumArrow) expect_function] [] false;
              mkItem nSumArrow [] [] false]
             create.

Definition atHandler : St :=
  set_frames [mkItem nProgram [mkTrackedScope (Some nAttrCount) expect_called_function]
                     [] true]
             create.

(** * Proofs *)

(** ** Walking up the tree *)

Lemma Node_parent_ind (P : Node -> Prop) :
  (forall n, (forall p, parent n = Some p -> P p) -> P n) -> forall n, P n.
Proof.
  intros H. fix IH 1. intros [id t [p|] fs].
  - pose proof (IH p) as Pp. apply H. simpl. intros q E.
    inversion E; subst. exact Pp.
  - apply H. simpl. discriminate.
Qed.

Lemma find_ancestors (predicate : Node -> bool) (n : Node) :
  find n predicate = List.find predicate (n :: ancestors n).
Proof.
  induction n as [n IH] using Node_parent_ind.
  destruct n as [id t [p|] fs]; simpl in *.
  - destruct (predicate _); [reflexivity|]. rewrite (IH p eq_refl). reflexivity.
  - destruct (predicate _); reflexivity.
Qed.

Lemma findParent_nearest (n : Node) :
  findParent n isProgramOrFunctionNode = nearestEnclosing n.
Proof.
  unfold findParent, nearestEnclosing.
  destruct n as [id t [p|] fs]; simpl; [|reflexivity].
  apply find_ancestors.
Qed.

Lemma find_depth (predicate : Node -> bool) (l : list Node) (r : Node) (d : nat) :
  (forall x, In x l -> depth x < d) -> List.find predicate l = Some r -> depth r < d.
Proof.
  intros H E. apply find_some in E. apply H, E.
Qed.

Lemma ancestors_depth (n x : Node) : In x (ancestors n) -> depth x < depth n.
Proof.
  induction n as [n IH] using Node_parent_ind.
  destruct n as [id t [p|] fs]; simpl; [|tauto].
  intros [E|E].
  - subst. lia.
  - specialize (IH p eq_refl E). lia.
Qed.

Lemma nearestEnclosing_depth (n r : Node) :
  nearestEnclosing n = Some r -> depth r < depth n.
Proof.
  intros E. apply find_some in E. apply ancestors_depth, E.
Qed.

Lemma existsb_same (f : Node) (sync : list Node) :
  existsb (same f) sync = true <-> exists g, In g sync /\ nid g = nid f.
Proof.
  rewrite existsb_exists. unfold same. split; intros [g [I E]]; exists g; split; auto.
  - apply Nat.eqb_eq in E. auto.
  - apply Nat.eqb_eq. auto.
Qed.

Lemma isSyncCallback_decide (sync : list Node) (f : Node) :
  isFunctionNode f && existsb (same f) sync = true <-> IsSyncCallback sync f.
Proof.
  unfold IsSyncCallback. rewrite andb_true_iff, existsb_same. tauto.
Qed.

(** The loop computes the attribution, and its fuel is never used up. *)
Lemma skipSyncCallbacks_attributed (sync : list Node) (fuel : nat) :
  forall (o r : option Node),
    (forall f, o = Some f -> depth f < fuel) ->
    (skipSyncCallbacks fuel sync o = r <-> Attributed sync o r).
Proof.
  induction fuel as [|fuel IH]; intros o r Hd.
  - destruct o as [f|]; [specialize (Hd f eq_refl); lia|]. simpl.
    split; intros H; [subst; constructor | inversion H; reflexivity].
  - destruct o as [f|]; simpl.
    + destruct (isFunctionNode f && existsb (same f) sync) eqn:E.
      * rewrite findParent_nearest.
        apply isSyncCallback_decide in E.
        rewrite IH.
        -- split; intros H; [apply attributed_skip; assumption|].
           inversion H; subst; [contradiction|assumption].
        -- intros g Eg. apply nearestEnclosing_depth in Eg.
           specialize (Hd f eq_refl). lia.
      * assert (N : ~ IsSyncCallback sync f).
        { intros C. apply isSyncCallback_decide in C. congruence. }
        split; intros H; [subst; apply attributed_here; assumption|].
        inversion H; subst; [reflexivity|contradiction].
    + split; intros H; [subst; constructor | inversion H; reflexivity].
Qed.

Lemma currentScope_top (s : St) (rest : list ScopeStackItem) (cur : ScopeStackItem) :
  frames s = rest ++ [cur] -> currentScope s = Ok cur s.
Proof.
  intros E. unfold currentScope. rewrite E, length_app. simpl.
  replace (List.length rest + 1) with (S (List.length rest)) by lia.
  rewrite nth_error_app2 by lia. rewrite Nat.sub_diag. reflexivity.
Qed.

(** C7. [isReferenceInCurrentScope] answers [true] exactly when the nearest
    enclosing function-or-program ancestor of the reference's identifier,
    after every synchronous callback on the way has been replaced by its own
    nearest enclosing function-or-program ancestor, is the node of the frame
    being exited (the top of the stack). The call changes nothing. *)
Theorem isReferenceInCurrentScope_attributed
  (s : St) (rest : list ScopeStackItem) (cur : ScopeStackItem) (reference : Reference) :
  frames s = rest ++ [cur] ->
  exists b, isReferenceInCurrentScope reference s = Ok b s /\
            (b = true <-> AttributedTo (syncCallbacks s) (identifier reference) (node cur)).
Proof.
  intros E. unfold isReferenceInCurrentScope, bind, gets, ret.
  rewrite (currentScope_top s rest cur E).
  eexists; split; [reflexivity|].
  rewrite findParent_nearest.
  set (o := skipSyncCallbacks _ _ _).
  assert (A : Attributed (syncCallbacks s) (nearestEnclosing (identifier reference)) o).
  { apply (skipSyncCallbacks_attributed _ (depth (identifier reference))).
    - intros f Ef. apply nearestEnclosing_depth in Ef. exact Ef.
    - reflexivity. }
  unfold AttributedTo. split.
  - intros H. destruct o as [final|]; simpl in H; [|discriminate].
    exists final. split; [exact A|]. apply Nat.eqb_eq, H.
  - intros [final [A' En]].
    assert (o = Some final).
    { apply (skipSyncCallbacks_attributed _ (depth (identifier reference)));
        [intros f Ef; apply nearestEnclosing_depth in Ef; exact Ef|].
      exact A'. }
    rewrite H. simpl. apply Nat.eqb_eq, En.
Qed.

(** ** The deepest of two frames *)

Lemma nth_error_Some_lt {A} (l : list A) (k : nat) (x : A) :
  nth_error l k = Some x -> k < List.length l.
Proof. intros E. apply nth_error_Some. congruence. Qed.

Lemma find_rev_last {A} (p : A -> bool) (l : list A) (x : A) :
  List.find p (rev l) = Some x ->
  exists k, nth_error l k = Some x /\ p x = true /\
            forall k' y, k < k' -> nth_error l k' = Some y -> p y = false.
Proof.
  induction l as [|y l IH] using rev_ind; simpl; [discriminate|].
  rewrite rev_app_distr. simpl. destruct (p y) eqn:E.
  - intros H. inversion H; subst. exists (List.length l). split; [|split]; auto.
    + rewrite nth_error_app2 by lia. rewrite Nat.sub_diag. reflexivity.
    + intros k' z L N. apply nth_error_Some_lt in N. rewrite length_app in N. simpl in N. lia.
  - intros H. destruct (IH H) as [k [N [P L]]]. exists k. split; [|split]; auto.
    + rewrite nth_error_app1; [exact N|]. apply nth_error_Some_lt in N. exact N.
    + intros k' z Lt Nz. destruct (Nat.lt_ge_cases k' (List.length l)) as [C|C].
      * rewrite nth_error_app1 in Nz by exact C. eapply L; eauto.
      * rewrite nth_error_app2 in Nz by exact C.
        destruct (k' - List.length l) as [|m]; simpl in Nz.
        -- inversion Nz; subst. exact E.
        -- destruct m; discriminate.
Qed.

Lemma Nested_same_index (stack : list ScopeStackItem) (i j : nat) (fi fj : ScopeStackItem) :
  Nested stack -> nth_error stack i = Some fi -> nth_error stack j = Some fj ->
  nid (node fi) = nid (node fj) -> i = j.
Proof.
  intros N Hi Hj E. destruct (Nat.lt_trichotomy i j) as [L|[L|L]]; [|exact L|].
  - destruct (N i j fi fj L Hi Hj) as [_ D]. contradiction.
  - destruct (N j i fj fi L Hj Hi) as [_ D]. symmetry in E. contradiction.
Qed.

(** On a nested stack, the scan from the top finds the frame at the larger
    of the two positions. *)
Lemma findDeepest_nested (s : St) (i j : nat) (fi fj : ScopeStackItem) :
  Nested (frames s) ->
  nth_error (frames s) i = Some fi -> nth_error (frames s) j = Some fj ->
  exists r, findDeepestDeclarationScope (node fi) (node fj) s = Ok r s /\
            (r = node fi \/ r = node fj) /\
            (nid (node fi) = nid (node fj) -> r = node fi) /\
            descendantOrSelf r (node fi) /\ descendantOrSelf r (node fj).
Proof.
  intros N Hi Hj. unfold findDeepestDeclarationScope.
  destruct (same (node fi) (node fj)) eqn:S.
  - apply Nat.eqb_eq in S. assert (i = j) by (eapply Nested_same_index; eauto).
    subst j. rewrite Hi in Hj. inversion Hj; subst fj.
    exists (node fi). unfold ret, descendantOrSelf. repeat split; auto.
  - apply Nat.eqb_neq in S. unfold bind, gets.
    set (p := fun item => same (node fi) (node item) || same (node fj) (node item)).
    destruct (List.find p (rev (frames s))) as [x|] eqn:F.
    + destruct (find_rev_last _ _ _ F) as [k [Hk [Px Max]]].
      exists (node x). unfold ret. split; [reflexivity|].
      assert (Pi : p fi = true) by (unfold p, same; rewrite Nat.eqb_refl; reflexivity).
      assert (Pj : p fj = true)
        by (unfold p, same; rewrite (Nat.eqb_refl (nid (node fj))); apply orb_true_r).
      assert (Li : i <= k).
      { destruct (Nat.le_gt_cases i k); [assumption|].
        rewrite (Max i fi) in Pi by assumption. discriminate. }
      assert (Lj : j <= k).
      { destruct (Nat.le_gt_cases j k); [assumption|].
        rewrite (Max j fj) in Pj by assumption. discriminate. }
      unfold p in Px. apply orb_true_iff in Px. unfold same in Px.
      rewrite !Nat.eqb_eq in Px. destruct Px as [E|E].
      * assert (i = k) by (eapply Nested_same_index; eauto). subst k.
        rewrite Hi in Hk. inversion Hk; subst x.
        split; [auto|]. split; [auto|]. split; [left; reflexivity|].
        right. assert (j < i) by (destruct (Nat.eq_dec j i); [subst; rewrite Hi in Hj; inversion Hj; subst; contradiction | lia]).
        apply (N j i fj fi); assumption.
      * assert (j = k) by (eapply Nested_same_index; eauto). subst k.
        rewrite Hj in Hk. inversion Hk; subst x.
        split; [auto|]. split; [intros C; contradiction|]. split; [|left; reflexivity].
        right. assert (i < j) by (destruct (Nat.eq_dec i j); [subst; rewrite Hi in Hj; inversion Hj; subst; contradiction | lia]).
        apply (N i j fi fj); assumption.
    + exfalso. apply nth_error_In in Hi. apply (in_rev (frames s)) in Hi.
      pose proof (find_none _ _ F fi Hi) as C. unfold p, same in C.
      rewrite Nat.eqb_refl in C. discriminate.
Qed.

Lemma findDeepest_absent (s : St) (a b : Node) :
  nid a <> nid b -> onStack a (frames s) = false -> onStack b (frames s) = false ->
  findDeepestDeclarationScope a b s = Throw "This should never happen".
Proof.
  intros D A B. unfold findDeepestDeclarationScope.
  apply Nat.eqb_neq in D. unfold same at 1. rewrite D. unfold bind, gets.
  destruct (List.find _ (rev (frames s))) as [x|] eqn:F; [|reflexivity].
  exfalso. apply find_some in F. destruct F as [I P]. apply in_rev in I.
  unfold onStack in A, B. apply orb_true_iff in P. destruct P as [P|P].
  - assert (existsb (fun item => same a (node item)) (frames s) = true)
      by (apply existsb_exists; eauto). congruence.
  - assert (existsb (fun item => same b (node item)) (frames s) = true)
      by (apply existsb_exists; eauto). congruence.
Qed.

Lemma In_map_node (stack : list ScopeStackItem) (a : Node) :
  In a (map node stack) -> exists i fi, nth_error stack i = Some fi /\ node fi = a.
Proof.
  intros I. apply in_map_iff in I. destruct I as [fi [E I]].
  apply In_nth_error in I. destruct I as [i Hi]. eauto.
Qed.

(** C6 (as amended). On a stack whose frames mirror the nesting, for two
    nodes that are both on the stack, [findDeepestDeclarationScope] returns
    one of the two, the first when they are the same node, and the returned
    node is or lies inside each of them: it is the more deeply nested. For
    two different nodes neither of which is on the stack it throws,
    whatever the stack. Called with one node twice it returns the node
    and changes nothing, whatever the stack: the node need not be on it. *)
Theorem findDeepestDeclarationScope_deepest (s : St) (a b : Node) :
  (Nested (frames s) ->
   In a (map node (frames s)) -> In b (map node (frames s)) ->
   exists r, findDeepestDeclarationScope a b s = Ok r s /\
             (r = a \/ r = b) /\ (nid a = nid b -> r = a) /\
             descendantOrSelf r a /\ descendantOrSelf r b)
  /\ (nid a <> nid b -> onStack a (frames s) = false -> onStack b (frames s) = false ->
      findDeepestDeclarationScope a b s = Throw "This should never happen")
  /\ (nid a = nid b -> findDeepestDeclarationScope a b s = Ok a s).
Proof.
  split; [|split].
  - intros N Ia Ib. destruct (In_map_node _ _ Ia) as [i [fi [Hi Ea]]].
    destruct (In_map_node _ _ Ib) as [j [fj [Hj Eb]]]. subst a b.
    eapply findDeepest_nested; eauto.
  - apply findDeepest_absent.
  - intros E. unfold findDeepestDeclarationScope, same. rewrite E, Nat.eqb_refl.
    reflexivity.
Qed.

(** ** Merging declaration scopes *)

Lemma findIndex_nth {A} (p : A -> bool) (l : list A) (i : nat) :
  findIndex p l = Some i -> exists x, nth_error l i = Some x /\ p x = true.
Proof.
  revert i. induction l as [|y l IH]; simpl; [discriminate|].
  intros i. destruct (p y) eqn:E.
  - intros H. inversion H; subst. exists y. auto.
  - destruct (findIndex p l) as [k|]; simpl; [|discriminate].
    intros H. inversion H; subst. simpl. apply IH. reflexivity.
Qed.

(** C3 (as amended). When [pushUniqueSignal] meets a variable that already
    has an entry, and both the entry's declaration scope and the requested
    one are on a stack that mirrors the nesting, only that entry's
    declaration scope changes, and the new one is the old or the requested
    one and is or lies inside both: the merge moves the declaration scope
    inward, never toward the root. *)
Theorem pushUniqueSignal_merges_inward
  (s : St) (v : ScopeVariable) (requested : Node) (i : nat) (entry : Binding) :
  Nested (frames s) ->
  findIndex (fun b => sameVariable (variable b) v) (signals s) = Some i ->
  nth_error (signals s) i = Some entry ->
  In (declarationScope entry) (map node (frames s)) ->
  In requested (map node (frames s)) ->
  exists r,
    pushUniqueSignal v requested s
    = Ok tt (set_signals (updateAt i (set_declarationScope r) (signals s)) s)
    /\ (r = declarationScope entry \/ r = requested)
    /\ descendantOrSelf r (declarationScope entry)
    /\ descendantOrSelf r requested.
Proof.
  intros N F E Ia Ib.
  destruct (In_map_node _ _ Ia) as [a [fa [Ha Ea]]].
  destruct (In_map_node _ _ Ib) as [b [fb [Hb Eb]]].
  destruct (findDeepest_nested s a b fa fb N Ha Hb) as [r [R [C [_ [Da Db]]]]].
  rewrite Ea, Eb in *.
  exists r. unfold pushUniqueSignal, bind, gets. rewrite F, E, R.
  unfold modify. auto.
Qed.

(** ** Asynchronous tracked scopes *)

Lemma modifyCurrentScope_top (s : St) (f : ScopeStackItem -> ScopeStackItem) :
  frames s <> [] ->
  modifyCurrentScope f s
  = Ok tt (set_frames (updateAt (List.length (frames s) - 1) f (frames s)) s).
Proof.
  intros NE. unfold modifyCurrentScope, bind.
  destruct (exists_last NE) as [rest [cur E]].
  rewrite (currentScope_top s rest cur E). reflexivity.
Qed.

(** C2 (as amended). When [pushTrackedScope] registers an asynchronous
    function, the entry is added to the current frame, and the finding
    [noAsyncTrackedScope] is reported at the function exactly when the
    expectation is not [called-function]; for [called-function] nothing is
    reported. *)
Theorem pushTrackedScope_async (s : St) (n : Node) (e : Expect) :
  frames s <> [] -> isFunctionNode n = true -> flag n "async" = true ->
  exists s',
    pushTrackedScope (Some n) e s = Ok tt s'
    /\ reports s' =
       (if Expect_eqb e expect_called_function then reports s
        else reports s ++ [mkReport (AtNode (nid n)) "noAsyncTrackedScope" []])
    /\ frames s' =
       updateAt (List.length (frames s) - 1)
         (fun item => mkItem (node item) (trackedScopes item ++ [mkTrackedScope (Some n) e])
                             (unnamedDerivedSignals item) (hasJSX item))
         (frames s).
Proof.
  intros NE F A. unfold pushTrackedScope, bind.
  rewrite (modifyCurrentScope_top s _ NE). rewrite F, A.
  destruct e; simpl; eexists; split; reflexivity || (split; reflexivity).
Qed.

(** ** Exempt property names *)

Lemma prefixThen_spec (p : string) (cls : ascii -> bool) (s : string) :
  prefixThen p cls s = true <->
  exists c rest, cls c = true /\ s = String.append p (String c rest).
Proof.
  unfold prefixThen. revert s. induction p as [|a p IH]; intros s; simpl.
  - destruct s as [|b s]; simpl.
    + split; [discriminate|]. intros [c [rest [_ E]]]. discriminate.
    + split.
      * intros H. exists b, s. auto.
      * intros [c [rest [H E]]]. inversion E; subst. exact H.
  - destruct s as [|b s]; simpl.
    + split; [discriminate|]. intros [c [rest [_ E]]]. discriminate.
    + destruct (ascii_dec a b) as [E|N].
      * subst b. rewrite IH. split; intros [c [rest [H E]]]; exists c, rest; split; auto.
        -- rewrite E. reflexivity.
        -- inversion E. reflexivity.
      * split; [discriminate|]. intros [c [rest [_ E]]]. inversion E. subst. contradiction.
Qed.

Lemma isExemptPropName_spec (name : string) :
  isExemptPropName name = true <-> ExemptName name.
Proof.
  unfold isExemptPropName, ExemptName. rewrite !orb_true_iff, !prefixThen_spec. split.
  - intros [[H|H]|H]; destruct H as [c [rest [U E]]].
    + exists "initial", c, rest. simpl. auto.
    + exists "default", c, rest. simpl. auto.
    + exists "static", c, rest. simpl. auto 6.
  - intros [prefix [c [rest [I [U E]]]]]. simpl in I.
    destruct I as [I|[I|[I|[]]]]; subst prefix; [left; left|left; right|right];
      exists c, rest; auto.
Qed.

Lemma exempt_test (src : Source) (member : Node) :
  typeIs (child src member "property") "Identifier"
  && test isExemptPropName (strOf (child src member "property") "name") = true
  <-> ExemptAccess src member.
Proof.
  unfold ExemptAccess. rewrite andb_true_iff. split.
  - intros [T N]. destruct (child src member "property") as [property|]; [|discriminate].
    simpl in T, N. apply String.eqb_eq in T.
    destruct (str property "name") as [name|] eqn:S; simpl in N.
    + exists property, name. rewrite <- isExemptPropName_spec. auto.
    + vm_compute in N. discriminate.
  - intros [property [name [C [T [S X]]]]]. rewrite C. simpl. rewrite T, S. simpl.
    split; [reflexivity|]. apply isExemptPropName_spec, X.
Qed.

(** C8 (as amended). For a props or store reference that is not a write and
    whose identifier is the object of a member expression that is not the
    target of an assignment: when the property node is an identifier whose
    name is [initial], [default] or [static] followed by an upper-case
    letter, be the access computed or not ([store.initialValue] and
    [store[initialValue]] alike), the loop body changes nothing and reports
    nothing; otherwise it is the call
    [handleTrackedScopes(identifier, declarationScope)], which is also what
    the loop body for signals runs on a read in call position. *)
Theorem propsBody_member_read
  (src : Source) (reference : Reference) (member d : Node) (s : St) :
  isWrite reference = false ->
  parent (identifier reference) = Some member ->
  type member = "MemberExpression" ->
  childIs (Some member) "object" (identifier reference) = true ->
  typeIs (parent member) "AssignmentExpression" && childIs (parent member) "left" member
  = false ->
  (ExemptAccess src member -> propsBody src reference d s = Ok tt s)
  /\ (~ ExemptAccess src member ->
      propsBody src reference d s = handleTrackedScopes src (identifier reference) d s)
  /\ (forall signalRead,
        isWrite signalRead = false ->
        type (identifier signalRead) = "Identifier" ->
        inCallPosition (identifier signalRead) = true ->
        signalBody src signalRead d s = handleTrackedScopes src (identifier signalRead) d s).
Proof.
  intros W P T O A.
  assert (Shape : propsBody src reference d s
                  = (if typeIs (child src member "property") "Identifier"
                        && test isExemptPropName
                                (strOf (child src member "property") "name")
                     then ret tt
                     else handleTrackedScopes src (identifier reference) d) s).
  { unfold propsBody. rewrite W, P.
    change (parentOf (Some member)) with (parent member).
    change (childOf src (Some member) "property") with (child src member "property").
    unfold typeIs at 1. rewrite T, String.eqb_refl, O. simpl andb. cbv iota.
    rewrite A. reflexivity. }
  split; [|split].
  - intros X. apply exempt_test in X. rewrite Shape, X. reflexivity.
  - intros X. rewrite Shape.
    destruct (typeIs (child src member "property") "Identifier"
              && test isExemptPropName (strOf (child src member "property") "name")) eqn:E;
      [|reflexivity].
    apply exempt_test in E. contradiction.
  - intros r W' I C. unfold signalBody. rewrite W', I, String.eqb_refl.
    unfold inCallPosition in C. rewrite C. reflexivity.
Qed.

(** ** Reads that reach [handleTrackedScopes] *)

Lemma findM_pure {A} (p : A -> M bool) (l : list A) (s : St) :
  (forall x, In x l -> exists b, p x s = Ok b s) ->
  exists r, findM p l s = Ok r s.
Proof.
  induction l as [|x l IH]; simpl; intros H.
  - exists None. reflexivity.
  - unfold bind. destruct (H x (or_introl eq_refl)) as [b E]. rewrite E.
    destruct b; [exists (Some x); reflexivity|].
    apply IH. intros y I. apply H. right. exact I.
Qed.

Lemma findM_none {A} (p : A -> M bool) (l : list A) (s : St) :
  (forall x, In x l -> p x s = Ok false s) -> findM p l s = Ok None s.
Proof.
  induction l as [|x l IH]; simpl; intros H; [reflexivity|].
  unfold bind. rewrite (H x (or_introl eq_refl)). apply IH.
  intros y I. apply H. right. exact I.
Qed.

Lemma matchTrackedScope_pure
  (s : St) (rest : list ScopeStackItem) (cur : ScopeStackItem)
  (trackedScope : TrackedScope) (n : Node) :
  frames s = rest ++ [cur] -> exists b, matchTrackedScope trackedScope n s = Ok b s.
Proof.
  intros E. unfold matchTrackedScope.
  destruct (expect trackedScope); unfold ret, bind; try (eexists; reflexivity).
  rewrite (currentScope_top s rest cur E). eexists; reflexivity.
Qed.

Lemma parentScope_below
  (s : St) (rest : list ScopeStackItem) (below cur : ScopeStackItem) :
  frames s = rest ++ [below; cur] -> parentScope s = Ok (Some below) s.
Proof.
  intros E. unfold parentScope, gets. rewrite E, length_app. simpl.
  replace (List.length rest + 2) with (S (S (List.length rest))) by lia.
  rewrite nth_error_app2 by lia. rewrite Nat.sub_diag. reflexivity.
Qed.

(** Leaving a function expression that is the value of an object-literal
    property, [handleTrackedScopes] on a binding declared further out does
    nothing at all. *)
Lemma handleTrackedScopes_property
  (src : Source) (s : St) (rest : list ScopeStackItem) (below cur : ScopeStackItem)
  (identifier' d : Node) :
  frames s = rest ++ [below; cur] ->
  type (node cur) = "FunctionExpression" \/ type (node cur) = "ArrowFunctionExpression" ->
  typeIs (parent (node cur)) "Property" = true ->
  same d (node cur) = false ->
  handleTrackedScopes src identifier' d s = Ok tt s.
Proof.
  intros E T P D. unfold handleTrackedScopes, bind.
  assert (E' : frames s = (rest ++ [below]) ++ [cur]) by (rewrite <- app_assoc; exact E).
  rewrite (currentScope_top s _ cur E').
  destruct (findM_pure (fun ts => matchTrackedScope ts identifier') (trackedScopes cur) s)
    as [m Hm].
  { intros ts _. eapply matchTrackedScope_pure; eauto. }
  rewrite Hm. destruct m; [reflexivity|]. cbv beta iota delta [isSome].
  destruct (findM_pure
              (fun ts => matchTrackedScope (mkTrackedScope (ts_node ts) expect_expression)
                                           identifier')
              (trackedScopes cur) s) as [m' Hm'].
  { intros ts _. eapply matchTrackedScope_pure; eauto. }
  rewrite Hm', D, (parentScope_below s rest below cur E). cbv beta iota delta [isSome].
  assert (F : isFunctionNode (node cur) = true)
    by (unfold isFunctionNode; destruct T as [T|T]; rewrite T; reflexivity).
  rewrite F. simpl.
  assert (N1 : String.eqb (type (node cur)) "FunctionDeclaration" = false)
    by (destruct T as [T|T]; rewrite T; reflexivity).
  rewrite N1.
  assert (N2 : typeIs (parent (node cur)) "VariableDeclarator" = false).
  { unfold typeIs in *. destruct (parent (node cur)) as [p|]; [|reflexivity].
    apply String.eqb_eq in P. rewrite P. reflexivity. }
  rewrite N2, P. reflexivity.
Qed.

(** C10 (as amended). At the exit of a function expression whose parent is
    an object-literal property, the loop body run on a signal read declared
    further out pushes no entry (no [pushUniqueSignal]) and leaves every
    frame as it is (nothing is added to the parent frame's
    [unnamedDerivedSignals]): nothing is left behind for a later scope exit
    to report or to propagate. When the read is in call position, the only
    position from which [handleTrackedScopes] is reached, the body does
    nothing at all: no finding, no change of state. A read in another
    position is judged by its context alone and may be reported. *)
Theorem signalBody_property_function
  (src : Source) (s : St) (rest : list ScopeStackItem) (below cur : ScopeStackItem)
  (reference : Reference) (d : Node) :
  frames s = rest ++ [below; cur] ->
  type (node cur) = "FunctionExpression" \/ type (node cur) = "ArrowFunctionExpression" ->
  typeIs (parent (node cur)) "Property" = true ->
  same d (node cur) = false ->
  isWrite reference = false ->
  exists s',
    signalBody src reference d s = Ok tt s'
    /\ signals s' = signals s /\ props s' = props s /\ registered s' = registered s
    /\ frames s' = frames s
    /\ (inCallPosition (identifier reference) = true -> s' = s).
Proof.
  intros E T P D W. unfold signalBody. rewrite W.
  assert (E' : frames s = (rest ++ [below]) ++ [cur]) by (rewrite <- app_assoc; exact E).
  destruct (String.eqb (type (identifier reference)) "Identifier");
    [|exists s; repeat split; reflexivity].
  fold (inCallPosition (identifier reference)).
  destruct (inCallPosition (identifier reference)).
  { rewrite (handleTrackedScopes_property src s rest below cur _ d E T P D).
    exists s. repeat split; reflexivity. }
  repeat match goal with
         | |- context [if ?c then report ?l ?m ?x else _] =>
             destruct c; [eexists; split; [reflexivity|]; repeat split; discriminate|]
         end.
  destruct (typeIs (parent (identifier reference)) "JSXExpressionContainer");
    [|exists s; repeat split; discriminate].
  unfold bind. rewrite (currentScope_top s _ cur E').
  repeat match goal with
         | |- context [if ?c then _ else _] => destruct c
         end;
    eexists; (split; [reflexivity|]); repeat split; discriminate.
Qed.

(** An invoked read in the scope that declares the signal, matched by no
    tracked scope of the frame being left, is reported once, as
    [untrackedReactive], at the call. *)
Theorem signalBody_untracked_call
  (src : Source) (s : St) (rest : list ScopeStackItem) (cur : ScopeStackItem)
  (reference : Reference) (call : Node) :
  frames s = rest ++ [cur] ->
  (forall ts, In ts (trackedScopes cur) ->
     sameOpt (Some (identifier reference)) (ts_node ts) = false
     /\ findInScope (identifier reference) (node cur)
          (fun node2 => sameOpt (Some node2) (ts_node ts)) = None) ->
  isWrite reference = false ->
  type (identifier reference) = "Identifier" ->
  parent (identifier reference) = Some call ->
  type call = "CallExpression" ->
  signalBody src reference (node cur) s
  = Ok tt (set_reports
             (reports s ++ [mkReport (AtNode (nid call)) "untrackedReactive"
                                     [("name", nameText (identifier reference))]]) s).
Proof.
  intros E U W I P C. unfold signalBody.
  rewrite W, I, String.eqb_refl, P. unfold typeIs at 1. rewrite C, String.eqb_refl.
  rewrite orb_true_l. unfold handleTrackedScopes, bind.
  rewrite (currentScope_top s rest cur E).
  rewrite findM_none.
  2:{ intros ts In'. destruct (U ts In') as [U1 U2]. unfold matchTrackedScope.
      destruct (expect ts); unfold ret, bind; try (rewrite U1; reflexivity).
      rewrite (currentScope_top s rest cur E), U2. reflexivity. }
  cbv beta iota delta [isSome].
  rewrite findM_none.
  2:{ intros ts In'. destruct (U ts In') as [U1 U2]. unfold matchTrackedScope.
      cbn [expect ts_node]. unfold ret, bind.
      rewrite (currentScope_top s rest cur E), U2. reflexivity. }
  unfold same. rewrite Nat.eqb_refl. rewrite P. unfold typeIs. rewrite C. simpl.
  reflexivity.
Qed.

(** ** Computations that only push entries or rewrite declaration scopes *)

Create HintDb steps.

Lemma steps_ret {A} (a : A) : steps (ret a).
Proof. intros s b s' E. inversion E; subst. apply step_refl. Qed.

Lemma steps_throw {A} (e : string) : steps (@throw A e).
Proof. intros s b s' E. discriminate. Qed.

Lemma steps_gets {A} (f : St -> A) : steps (gets f).
Proof. intros s b s' E. inversion E; subst. apply step_refl. Qed.

Lemma steps_bind {A B} (m : M A) (f : A -> M B) :
  steps m -> (forall a, steps (f a)) -> steps (bind m f).
Proof.
  intros Hm Hf s b s' E. unfold bind in E. destruct (m s) as [a s1|] eqn:Em; [|discriminate].
  eapply step_trans; [eapply Hm|eapply Hf]; eauto.
Qed.

Lemma steps_modify (f : St -> St) : (forall s, Step s (f s)) -> steps (modify f).
Proof. intros H s b s' E. inversion E; subst. apply H. Qed.

Lemma steps_when (b : bool) (m : M unit) : steps m -> steps (when b m).
Proof. intros H. destruct b; [exact H|apply steps_ret]. Qed.

Lemma steps_forEach_in {A} (l : list A) (f : A -> M unit) :
  (forall x, In x l -> steps (f x)) -> steps (forEach l f).
Proof.
  unfold forEach. induction l as [|x l IH]; intros H.
  - apply steps_ret.
  - apply steps_bind; [apply H; left; reflexivity|]. intros _. apply IH.
    intros y I. apply H. right. exact I.
Qed.

Lemma steps_forEach {A} (l : list A) (f : A -> M unit) :
  (forall x, steps (f x)) -> steps (forEach l f).
Proof. intros H. apply steps_forEach_in. intros x _. apply H. Qed.

Lemma steps_findM {A} (p : A -> M bool) (l : list A) :
  (forall x, steps (p x)) -> steps (findM p l).
Proof.
  intros H. induction l as [|x l IH]; simpl.
  - apply steps_ret.
  - apply steps_bind; [apply H|]. intros [|]; [apply steps_ret|apply IH].
Qed.

Lemma steps_partitionM {A} (p : A -> M bool) (l : list A) :
  (forall x, steps (p x)) -> steps (partitionM p l).
Proof.
  intros H. induction l as [|x l IH]; simpl.
  - apply steps_ret.
  - apply steps_bind; [apply H|]. intros b. apply steps_bind; [apply IH|].
    intros r. apply steps_ret.
Qed.

Lemma steps_currentScope : steps currentScope.
Proof.
  intros s a s' E. unfold currentScope in E.
  destruct (List.length (frames s)); [discriminate|].
  destruct (nth_error _ _); inversion E; subst. apply step_refl.
Qed.

Lemma steps_trace (src : Source) (cur n : Node) : steps (trace src cur n).
Proof.
  unfold trace. destruct (traceFrom _ _ _ _); [apply steps_ret|apply steps_throw].
Qed.

#[export] Hint Resolve steps_ret steps_throw steps_gets steps_currentScope steps_trace : steps.

(** One step of the proof that a computation only takes steps: the monad's
    operations by their lemmas, a test by cases, anything else from the
    lemmas proved so far. *)
Ltac step :=
  match goal with
  | |- steps (ret _) => apply steps_ret
  | |- steps (throw _) => apply steps_throw
  | |- steps (gets _) => apply steps_gets
  | |- steps (bind _ _) => apply steps_bind; [|intros ?]
  | |- steps (when _ _) => apply steps_when
  | |- steps (forEach _ _) => apply steps_forEach; intros ?
  | |- steps (findM _ _) => apply steps_findM; intros ?
  | |- steps (modify _) =>
      apply steps_modify; intros ?; apply step_other; reflexivity
  | |- steps (if ?c then _ else _) => destruct c
  | |- steps (match ?x with _ => _ end) => destruct x
  | |- steps _ => solve [auto with steps]
  | |- steps _ => progress cbv zeta
  end.

Ltac steps_auto := repeat step.

Lemma steps_parentScope : steps parentScope.
Proof. unfold parentScope. steps_auto. Qed.

Lemma steps_modifyCurrentScope f : steps (modifyCurrentScope f).
Proof. unfold modifyCurrentScope. steps_auto. Qed.

Lemma steps_report l mid d : steps (report l mid d).
Proof. unfold report. steps_auto. Qed.

#[export] Hint Resolve steps_parentScope steps_modifyCurrentScope steps_report : steps.

Lemma steps_findDeepestDeclarationScope a b : steps (findDeepestDeclarationScope a b).
Proof. unfold findDeepestDeclarationScope. steps_auto. Qed.

Lemma steps_pushSignal v d : steps (pushSignal v d).
Proof.
  unfold pushSignal. apply steps_modify. intros s.
  apply (step_pushSignal _ _ v d); reflexivity.
Qed.

Lemma steps_pushProps v d : steps (pushProps v d).
Proof.
  unfold pushProps. apply steps_modify. intros s.
  apply (step_pushProps _ _ v d); reflexivity.
Qed.

#[export] Hint Resolve steps_findDeepestDeclarationScope steps_pushSignal steps_pushProps
  : steps.

Lemma steps_pushSignalHere v : steps (pushSignalHere v).
Proof. unfold pushSignalHere. steps_auto. Qed.

Lemma steps_pushUniqueSignal v d : steps (pushUniqueSignal v d).
Proof.
  unfold pushUniqueSignal. steps_auto.
  apply steps_modify. intros s. eapply step_declarationScope; reflexivity.
Qed.

Lemma steps_isReferenceInCurrentScope r : steps (isReferenceInCurrentScope r).
Proof. unfold isReferenceInCurrentScope. steps_auto. Qed.

#[export] Hint Resolve steps_pushSignalHere steps_pushUniqueSignal
  steps_isReferenceInCurrentScope : steps.

Lemma steps_warnShouldDestructure n nth : steps (warnShouldDestructure n nth).
Proof. unfold warnShouldDestructure. steps_auto. Qed.

Lemma steps_warnShouldAssign n : steps (warnShouldAssign n).
Proof. unfold warnShouldAssign. steps_auto. Qed.

#[export] Hint Resolve steps_warnShouldDestructure steps_warnShouldAssign : steps.

Lemma steps_markPropsOnCondition src n cb :
  (forall p, steps (cb p)) -> steps (markPropsOnCondition src n cb).
Proof. intros H. unfold markPropsOnCondition. steps_auto. Qed.

Lemma steps_onFunctionEnter src n : steps (onFunctionEnter src n).
Proof.
  unfold onFunctionEnter. steps_auto.
  apply steps_markPropsOnCondition. intros p. steps_auto.
Qed.

Lemma steps_matchTrackedScope ts n : steps (matchTrackedScope ts n).
Proof. unfold matchTrackedScope. steps_auto. Qed.

Lemma steps_pushUnnamedDerivedSignal n : steps (pushUnnamedDerivedSignal n).
Proof. unfold pushUnnamedDerivedSignal. steps_auto. Qed.

#[export] Hint Resolve steps_onFunctionEnter steps_matchTrackedScope
  steps_pushUnnamedDerivedSignal : steps.

Lemma steps_handleTrackedScopes src i d : steps (handleTrackedScopes src i d).
Proof. unfold handleTrackedScopes. steps_auto. Qed.

#[export] Hint Resolve steps_handleTrackedScopes : steps.

Lemma steps_signalBody src r d : steps (signalBody src r d).
Proof. unfold signalBody. steps_auto. Qed.

Lemma steps_propsBody src r d : steps (propsBody src r d).
Proof. unfold propsBody. steps_auto. Qed.

Lemma steps_addSyncCallback n : steps (addSyncCallback n).
Proof. unfold addSyncCallback. steps_auto. Qed.

#[export] Hint Resolve steps_signalBody steps_propsBody steps_addSyncCallback : steps.

Lemma steps_checkForSyncCallbacks src n : steps (checkForSyncCallbacks src n).
Proof. unfold checkForSyncCallbacks. steps_auto. Qed.

Lemma steps_checkForReactiveAssignment src cur id init0 :
  steps (checkForReactiveAssignment src cur id init0).
Proof. unfold checkForReactiveAssignment. steps_auto. Qed.

Lemma steps_pushTrackedScope n e : steps (pushTrackedScope n e).
Proof. unfold pushTrackedScope. steps_auto. Qed.

#[export] Hint Resolve steps_checkForSyncCallbacks steps_checkForReactiveAssignment
  steps_pushTrackedScope : steps.

Lemma Ast_kids_ind (P : Ast -> Prop) :
  (forall n kids, (forall k, In k kids -> P k) -> P (AstNode n kids)) -> forall t, P t.
Proof.
  intros H. fix IH 1. intros [n kids]. apply H.
  induction kids as [|k kids IHk]; simpl; intros x I; [contradiction|].
  destruct I as [E|I]; [exact (eq_ind k P (IH k) x E)|apply IHk, I].
Qed.

Lemma steps_visitChild (f : Ast -> M unit) (kids : list Ast) (id : nat) :
  (forall k, In k kids -> steps (f k)) -> steps (visitChild f kids id).
Proof.
  unfold visitChild. induction kids as [|k kids IHk]; intros H; [apply steps_ret|].
  destruct (nid (astNode k) =? id); [apply H; left; reflexivity|].
  apply IHk. intros x I. apply H. right. exact I.
Qed.

Lemma steps_permissivelyTrack src cur t : steps (permissivelyTrack src cur t).
Proof.
  induction t as [n kids IH] using Ast_kids_ind. simpl.
  apply steps_bind; [auto with steps|]. intros traced.
  destruct (_ || _); [auto with steps|].
  destruct (visitorKeys (type n)) as [keys|]; [|apply steps_throw].
  apply steps_forEach. intros id. apply steps_visitChild. exact IH.
Qed.

#[export] Hint Resolve steps_permissivelyTrack : steps.

Lemma steps_permissivelyTrackArguments src cur args :
  steps (permissivelyTrackArguments src cur args).
Proof. unfold permissivelyTrackArguments, permissivelyTrackNode. steps_auto. Qed.

#[export] Hint Resolve steps_permissivelyTrackArguments : steps.

Lemma steps_checkForTrackedScopes src options n : steps (checkForTrackedScopes src options n).
Proof. unfold checkForTrackedScopes. steps_auto. Qed.

Lemma steps_onRenderCallback src n : steps (onRenderCallback src n).
Proof. unfold onRenderCallback. steps_auto. Qed.

Lemma steps_handleImportDeclaration src n : steps (handleImportDeclaration src n).
Proof. unfold handleImportDeclaration. steps_auto. Qed.

Lemma steps_onJSX : steps onJSX.
Proof. unfold onJSX. steps_auto. Qed.

#[export] Hint Resolve steps_checkForTrackedScopes steps_onRenderCallback
  steps_handleImportDeclaration steps_onJSX : steps.

Lemma steps_enter src options n : steps (enter src options n).
Proof. unfold enter. steps_auto. Qed.

(** ** The conservation law *)

Lemma updateAt_split {A} (f : A -> A) (l : list A) (i : nat) (x : A) :
  nth_error l i = Some x ->
  l = firstn i l ++ x :: skipn (S i) l
  /\ updateAt i f l = firstn i l ++ f x :: skipn (S i) l.
Proof.
  revert i. induction l as [|y l IH]; intros [|i] E; simpl in E; try discriminate.
  - inversion E; subst. simpl. auto.
  - destruct (IH i E) as [H1 H2].
    split; [change (y :: l = y :: (firstn i l ++ x :: skipn (S i) l))
           |change (y :: updateAt i f l = y :: (firstn i l ++ f x :: skipn (S i) l))];
      f_equal; assumption.
Qed.

Lemma map_updateAt {A B} (h : A -> B) (f : A -> A) (l : list A) (i : nat) :
  (forall x, h (f x) = h x) -> map h (updateAt i f l) = map h l.
Proof.
  intros H. revert i. induction l as [|y l IH]; intros [|i]; simpl; try reflexivity.
  - rewrite H. reflexivity.
  - rewrite IH. reflexivity.
Qed.

Lemma nth_error_updateAt {A} (f : A -> A) (l : list A) (i j : nat) :
  nth_error (updateAt i f l) j
  = if j =? i then option_map f (nth_error l j) else nth_error l j.
Proof.
  revert i j. induction l as [|y l IH]; intros [|i] [|j]; simpl; try reflexivity.
  - destruct (j =? i); destruct j; reflexivity.
  - apply IH.
Qed.

Lemma flat_map_updateAt {A B} (h : A -> list B) (f : A -> A) (l : list A) (i : nat) :
  (forall x, h (f x) = h x) -> flat_map h (updateAt i f l) = flat_map h l.
Proof.
  intros H. rewrite !flat_map_concat_map, map_updateAt; auto.
Qed.

Lemma heldBy_eq (e : nat) (s s' : St) :
  signals s' = signals s -> props s' = props s -> heldBy e s' = heldBy e s.
Proof. intros A B. unfold heldBy. rewrite A, B. reflexivity. Qed.

Lemma yieldedOf_eq (e : nat) (s s' : St) :
  yielded s' = yielded s -> yieldedOf e s' = yieldedOf e s.
Proof. intros A. unfold yieldedOf. rewrite A. reflexivity. Qed.

Lemma Conserved_ext (pending : list (nat * Reference)) (s s' : St) :
  signals s' = signals s -> props s' = props s ->
  registered s' = registered s -> yielded s' = yielded s ->
  Conserved pending s -> Conserved pending s'.
Proof.
  intros A B C D [H1 [H2 [H3 [H4 H5]]]]. unfold Conserved.
  rewrite A, B, C, D. repeat split; auto.
  intros e v E. rewrite (heldBy_eq e s s' A B), (yieldedOf_eq e s s' D). auto.
Qed.

Lemma heldIn_fresh (e : nat) (l : list Binding) :
  (forall b, In b l -> eid b <> e) -> flat_map (heldIn e) l = [].
Proof.
  induction l as [|b l IH]; simpl; intros H; [reflexivity|].
  unfold heldIn at 1. destruct (eid b =? e) eqn:E.
  - apply Nat.eqb_eq in E. exfalso. apply (H b); auto.
  - simpl. apply IH. intros x I. apply H. auto.
Qed.

Lemma yieldedOf_fresh (e : nat) (s : St) :
  (forall y, In y (yielded s) -> y_eid y <> e) -> yieldedOf e s = [].
Proof.
  unfold yieldedOf. induction (yielded s) as [|y l IH]; simpl; intros H; [reflexivity|].
  destruct (y_eid y =? e) eqn:E.
  - apply Nat.eqb_eq in E. exfalso. apply (H y); auto.
  - apply IH. intros x I. apply H. auto.
Qed.

Lemma pendingOf_fresh (e : nat) (pending : list (nat * Reference)) :
  (forall p, In p pending -> fst p <> e) -> pendingOf e pending = [].
Proof.
  unfold pendingOf. induction pending as [|p l IH]; simpl; intros H; [reflexivity|].
  destruct (fst p =? e) eqn:E.
  - apply Nat.eqb_eq in E. exfalso. apply (H p); auto.
  - apply IH. intros x I. apply H. auto.
Qed.

Lemma pendingOf_own (e : nat) (l : list Reference) :
  pendingOf e (map (pair e) l) = l.
Proof.
  unfold pendingOf. induction l as [|x l IH]; simpl; [reflexivity|].
  rewrite Nat.eqb_refl. simpl. f_equal. exact IH.
Qed.

(** Pushing an entry keeps the invariant: the entry is new, holds the whole
    list, and has yielded nothing. *)
Lemma push_Conserved (pending : list (nat * Reference)) (s s' : St)
  (v : ScopeVariable) (d : Node) (before after : list Binding) :
  signals s ++ props s = before ++ after ->
  signals s' ++ props s' = before ++ newBinding v d s :: after ->
  registered s' = registered s ++ [v] -> yielded s' = yielded s ->
  Conserved pending s -> Conserved pending s'.
Proof.
  intros L L' R Y [H1 [H2 [H3 [H4 H5]]]]. unfold Conserved.
  rewrite R, Y, L', length_app. simpl List.length.
  rewrite L in H2, H3.
  split; [|split; [|split; [|split]]].
  - intros e v0 E. rewrite (yieldedOf_eq e s s' Y). unfold heldBy. rewrite L'.
    rewrite flat_map_app. simpl flat_map.
    destruct (Nat.lt_ge_cases e (List.length (registered s))) as [Lt|Ge].
    + rewrite nth_error_app1 in E by exact Lt.
      unfold heldIn at 2. simpl eid.
      replace (List.length (registered s) =? e) with false
        by (symmetry; apply Nat.eqb_neq; lia).
      simpl. rewrite <- flat_map_app, <- L. apply H1, E.
    + rewrite nth_error_app2 in E by exact Ge.
      destruct (e - List.length (registered s)) as [|k] eqn:K; simpl in E;
        [|destruct k; discriminate].
      inversion E; subst v0. assert (e = List.length (registered s)) by lia. subst e.
      rewrite yieldedOf_fresh, pendingOf_fresh.
      * rewrite !heldIn_fresh.
        -- unfold heldIn. simpl eid. rewrite Nat.eqb_refl. simpl. rewrite !app_nil_r.
           apply Permutation_refl.
        -- intros b I. assert (eid b < List.length (registered s))
             by (apply H3; apply in_or_app; auto). lia.
        -- intros b I. assert (eid b < List.length (registered s))
             by (apply H3; apply in_or_app; auto). lia.
      * intros p I. specialize (H5 p I). lia.
      * intros y I. specialize (H4 y I). lia.
  - rewrite map_app. simpl map. rewrite map_app in H2.
    apply (Permutation_NoDup (l := List.length (registered s) :: (map eid before ++ map eid after))).
    + apply Permutation_middle.
    + constructor; [|exact H2]. rewrite <- map_app. intros I.
      apply in_map_iff in I. destruct I as [b [E I]]. specialize (H3 b I). lia.
  - intros b I. apply in_app_or in I. simpl in I.
    destruct I as [I|[I|I]].
    + assert (eid b < List.length (registered s)) by (apply H3; apply in_or_app; auto). lia.
    + subst b. simpl. lia.
    + assert (eid b < List.length (registered s)) by (apply H3; apply in_or_app; auto). lia.
  - intros y I. specialize (H4 y I). lia.
  - intros p I. specialize (H5 p I). lia.
Qed.

Lemma Step_Conserved (pending : list (nat * Reference)) (s s' : St) :
  Step s s' -> Conserved pending s -> Conserved pending s'.
Proof.
  induction 1 as [s|s1 s2 s3 _ IH1 _ IH2|s s' A B C D|s s' v d A B C D|s s' v d A B C D
                 |s s' i d A B C D]; intros H; auto.
  - eapply Conserved_ext; eauto.
  - apply (push_Conserved pending s s' v d (signals s) (props s)); auto.
    rewrite A, B, <- app_assoc. reflexivity.
  - apply (push_Conserved pending s s' v d (signals s ++ props s) []); auto.
    + rewrite app_nil_r. reflexivity.
    + rewrite A, B, app_assoc. reflexivity.
  - destruct H as [H1 [H2 [H3 [H4 H5]]]]. unfold Conserved.
    rewrite C, D.
    assert (Eid : map eid (signals s' ++ props s') = map eid (signals s ++ props s)).
    { rewrite A, B, !map_app, map_updateAt; auto. }
    assert (Held : forall e, heldBy e s' = heldBy e s).
    { intros e. unfold heldBy. rewrite A, B, !flat_map_app, flat_map_updateAt; auto. }
    split; [|split; [|split; [|split]]]; auto.
    + intros e v E. rewrite Held, (yieldedOf_eq e s s' D). auto.
    + rewrite Eid. exact H2.
    + intros b I. apply (in_map eid) in I. rewrite Eid in I.
      apply in_map_iff in I. destruct I as [b0 [E I]]. rewrite <- E. auto.
Qed.

Lemma Keeps_refl (s : St) : Keeps s s.
Proof. intros which i b E. exists b. auto. Qed.

Lemma Keeps_trans (s1 s2 s3 : St) : Keeps s1 s2 -> Keeps s2 s3 -> Keeps s1 s3.
Proof.
  intros H1 H2 which i b E. destruct (H1 which i b E) as [b1 [E1 [I1 R1]]].
  destruct (H2 which i b1 E1) as [b2 [E2 [I2 R2]]]. exists b2.
  repeat split; congruence.
Qed.

Lemma Keeps_ext (s s' : St) :
  signals s' = signals s -> props s' = props s -> Keeps s s'.
Proof.
  intros A B which i b E. exists b. repeat split; auto.
  destruct which; simpl in *; congruence.
Qed.

Lemma Step_Keeps (s s' : St) : Step s s' -> Keeps s s'.
Proof.
  induction 1 as [s|s1 s2 s3 _ IH1 _ IH2|s s' A B C D|s s' v d A B C D|s s' v d A B C D
                 |s s' i d A B C D].
  - apply Keeps_refl.
  - eapply Keeps_trans; eauto.
  - apply Keeps_ext; auto.
  - intros which j b E. exists b. repeat split; auto. destruct which; simpl in *.
    + rewrite A. rewrite nth_error_app1; [exact E|]. apply nth_error_Some. congruence.
    + congruence.
  - intros which j b E. exists b. repeat split; auto. destruct which; simpl in *.
    + congruence.
    + rewrite B. rewrite nth_error_app1; [exact E|]. apply nth_error_Some. congruence.
  - intros which j b E. destruct which; simpl in *.
    + rewrite A, nth_error_updateAt, E. destruct (j =? i); simpl; eexists; eauto.
    + exists b. repeat split; auto. congruence.
Qed.

(** A reference handed over and not yet taken out of the entry is pending. *)
Lemma logYield_Conserved (pending : list (nat * Reference)) (e : nat) (r : Reference)
  (s s' : St) :
  logYield e r s = Ok tt s' -> e < List.length (registered s) ->
  Conserved pending s -> Conserved (pending ++ [(e, r)]) s' /\ Keeps s s'.
Proof.
  unfold logYield, bind, modify. intros E Lt [H1 [H2 [H3 [H4 H5]]]].
  destruct (currentScope s) as [c s0|] eqn:C; [|discriminate].
  assert (s0 = s).
  { unfold currentScope in C. destruct (List.length (frames s)); [discriminate|].
    destruct (nth_error _ _); inversion C; reflexivity. }
  subst s0. inversion E; subst s'. clear E. split; [|apply Keeps_ext; reflexivity].
  unfold Conserved. simpl signals. simpl props. simpl registered. simpl yielded.
  split; [|split; [|split; [|split]]]; auto.
  - intros e' v E'. specialize (H1 e' v E').
    unfold yieldedOf, pendingOf, heldBy in *. simpl yielded. simpl signals. simpl props.
    rewrite !filter_app, !map_app. simpl filter.
    destruct (e =? e'); simpl.
    + rewrite <- !app_assoc.
      apply Permutation_trans with
        (l' := (map y_reference (filter (fun y => y_eid y =? e') (yielded s))
                ++ flat_map (heldIn e') (signals s ++ props s)) ++ [r]).
      * rewrite <- app_assoc. apply Permutation_app_head. apply Permutation_app_comm.
      * rewrite app_assoc. apply Permutation_app_tail. exact H1.
    + rewrite !app_nil_r. exact H1.
  - intros y I. apply in_app_or in I. destruct I as [I|[I|[]]]; auto. subst y. exact Lt.
  - intros p I. apply in_app_or in I. destruct I as [I|[I|[]]]; auto. subst p. exact Lt.
Qed.

Lemma forEach_yields (body : Reference -> Node -> M unit) (e : nat) (d : Node) :
  (forall r d', steps (body r d')) ->
  forall (l : list Reference) (pending : list (nat * Reference)) (s s' : St),
    Conserved pending s -> e < List.length (registered s) ->
    forEach (map (fun r => (r, d)) l) (fun p => logYield e (fst p) ;; body (fst p) (snd p)) s
    = Ok tt s' ->
    Conserved (pending ++ map (pair e) l) s' /\ Keeps s s'.
Proof.
  intros Hb. unfold forEach.
  induction l as [|r l IH]; intros pending s s' H Lt E; simpl in E.
  - inversion E; subst. simpl. rewrite app_nil_r. split; [exact H|apply Keeps_refl].
  - unfold bind in E at 1. unfold bind in E at 1. simpl fst in E. simpl snd in E.
    destruct (logYield e r s) as [[] s1|] eqn:E1; [|discriminate].
    destruct (body r d s1) as [[] s2|] eqn:E2; [|discriminate].
    destruct (logYield_Conserved pending e r s s1 E1 Lt H) as [C1 K1].
    pose proof (Hb r d s1 tt s2 E2) as St2.
    pose proof (Step_Conserved _ _ _ St2 C1) as C2.
    assert (Lt2 : e < List.length (registered s2)).
    { destruct C2 as [_ [_ [_ [_ P]]]]. apply (P (e, r)). apply in_or_app. simpl. auto. }
    destruct (IH (pending ++ [(e, r)]) s2 s' C2 Lt2 E) as [C3 K3].
    split.
    + simpl. rewrite <- app_assoc in C3. exact C3.
    + eapply Keeps_trans; [exact K1|]. eapply Keeps_trans; [apply Step_Keeps; exact St2|exact K3].
Qed.

Lemma partitionM_pure {A} (p : A -> M bool) (l : list A) (s s' : St)
  (parts : list A * list A) :
  (forall x s1 b s2, p x s1 = Ok b s2 -> s2 = s1) ->
  partitionM p l s = Ok parts s' ->
  s' = s /\ Permutation l (fst parts ++ snd parts).
Proof.
  intros Hp. revert parts s'. induction l as [|x l IH]; intros parts s' E; simpl in E.
  - inversion E; subst. simpl. auto.
  - unfold bind in E. destruct (p x s) as [b s1|] eqn:E1; [|discriminate].
    apply Hp in E1. subst s1.
    destruct (partitionM p l s) as [r s2|] eqn:E2; [|discriminate].
    destruct (IH r s2 eq_refl) as [S2 P]. subst s2. inversion E; subst. split; [reflexivity|].
    destruct b; simpl.
    + constructor. exact P.
    + apply Permutation_cons_app. exact P.
Qed.

Lemma isReferenceInCurrentScope_pure (r : Reference) (s : St) (b : bool) (s' : St) :
  isReferenceInCurrentScope r s = Ok b s' -> s' = s.
Proof.
  unfold isReferenceInCurrentScope, bind, gets, ret. unfold currentScope.
  destruct (List.length (frames s)); [discriminate|].
  destruct (nth_error _ _); intros E; inversion E; reflexivity.
Qed.

(** Storing the references that were not in scope settles the entry's
    pending yields. *)
Lemma set_references_Conserved (which : Registry) (i : nat) (b : Binding)
  (inScope notInScope : list Reference) (s : St) :
  Conserved (map (pair (eid b)) inScope) s ->
  nth_error (registry which s) i = Some b ->
  Permutation (references b) (inScope ++ notInScope) ->
  Conserved []
    (set_registry which (updateAt i (set_references notInScope) (registry which s)) s).
Proof.
  intros [H1 [H2 [H3 [H4 H5]]]] E P.
  destruct (updateAt_split (set_references notInScope) _ _ _ E) as [S1 S2].
  set (s' := set_registry which _ s).
  assert (R : registered s' = registered s) by (destruct which; reflexivity).
  assert (Y : yielded s' = yielded s) by (destruct which; reflexivity).
  assert (L : exists before after,
             signals s ++ props s = before ++ b :: after
             /\ signals s' ++ props s' = before ++ set_references notInScope b :: after).
  { destruct which; simpl in *.
    - exists (firstn i (signals s)), (skipn (S i) (signals s) ++ props s).
      rewrite S2. rewrite S1 at 1. rewrite <- !app_assoc. auto.
    - exists (signals s ++ firstn i (props s)), (skipn (S i) (props s)).
      rewrite S2. rewrite S1 at 1. rewrite <- !app_assoc. auto. }
  destruct L as [before [after [L L']]].
  unfold Conserved. rewrite R, L'. rewrite L in H2, H3.
  split; [|split; [|split; [|split]]].
  - intros e v Ev. specialize (H1 e v Ev). rewrite (yieldedOf_eq e s s' Y).
    unfold heldBy in *. rewrite L'. rewrite L in H1.
    rewrite flat_map_app in *. simpl flat_map in *.
    unfold heldIn at 2. unfold heldIn at 2 in H1. simpl eid. simpl references.
    simpl pendingOf. rewrite app_nil_r.
    destruct (eid b =? e) eqn:Eq.
    + apply Nat.eqb_eq in Eq. subst e.
      rewrite pendingOf_own in H1.
      apply (Permutation_app_inv_l inScope).
      eapply Permutation_trans; [|eapply Permutation_trans; [exact H1|apply Permutation_app_comm]].
      set (Yd := yieldedOf (eid b) s).
      set (A := flat_map (heldIn (eid b)) before).
      set (B := flat_map (heldIn (eid b)) after).
      eapply Permutation_trans; [apply Permutation_app_swap_app|].
      apply Permutation_app_head.
      eapply Permutation_trans; [apply Permutation_app_swap_app|].
      apply Permutation_app_head.
      rewrite app_assoc. apply Permutation_app_tail. apply Permutation_sym. exact P.
    + assert (PE : pendingOf e (map (pair (eid b)) inScope) = []).
      { apply pendingOf_fresh. intros p I. apply in_map_iff in I.
        destruct I as [x [Ex _]]. subst p. simpl. apply Nat.eqb_neq. exact Eq. }
      rewrite PE, app_nil_r in H1. exact H1.
  - rewrite map_app in *. simpl map in *. exact H2.
  - intros x I. apply in_app_or in I. simpl in I. destruct I as [I|[I|I]].
    + apply H3. apply in_or_app. auto.
    + subst x. simpl. apply (H3 b). apply in_or_app. simpl. auto.
    + apply H3. apply in_or_app. simpl. auto.
  - rewrite Y. exact H4.
  - intros p [].
Qed.

Lemma Conserved_bound (pending : list (nat * Reference)) (which : Registry) (i : nat)
  (b : Binding) (s : St) :
  Conserved pending s -> nth_error (registry which s) i = Some b ->
  eid b < List.length (registered s).
Proof.
  intros [_ [_ [H3 _]]] E. apply H3. apply nth_error_In in E.
  apply in_or_app. destruct which; simpl in E; auto.
Qed.

(** The generator, with any loop body that only takes steps, keeps the
    invariant. *)
Lemma consumeReferencesInScope_conserves (which : Registry)
  (body : Reference -> Node -> M unit) :
  (forall r d, steps (body r d)) ->
  forall fuel i, conserves (consumeReferencesInScope fuel which body i).
Proof.
  intros Hb. induction fuel as [|fuel IH]; intros i s a s' C E; simpl in E; [discriminate|].
  unfold bind at 1 in E. unfold gets in E.
  destruct (nth_error (registry which s) i) as [b|] eqn:N.
  - unfold bind at 1 in E.
    destruct (partitionM isReferenceInCurrentScope (references b) s) as [parts s1|] eqn:E1;
      [|discriminate].
    destruct (partitionM_pure _ _ _ _ _ isReferenceInCurrentScope_pure E1) as [S1 P].
    subst s1. unfold bind at 1 in E.
    match type of E with
    | match ?m s with _ => _ end = _ => destruct (m s) as [[] s2|] eqn:E2; [|discriminate]
    end.
    destruct (forEach_yields body (eid b) (declarationScope b) Hb (fst parts) [] s s2 C
                (Conserved_bound _ _ _ _ _ C N) E2) as [C2 K2].
    destruct (K2 which i b N) as [b2 [N2 [I2 R2]]].
    unfold bind at 1 in E. unfold modify in E.
    eapply IH; [|exact E].
    simpl in C2. rewrite <- I2 in C2. rewrite <- R2 in P.
    exact (set_references_Conserved which i b2 (fst parts) (snd parts) s2 C2 N2 P).
  - inversion E; subst. exact C.
Qed.

Lemma flat_map_filter_hasReferences (e : nat) (l : list Binding) :
  flat_map (heldIn e) (filter hasReferences l) = flat_map (heldIn e) l.
Proof.
  induction l as [|b l IH]; simpl; [reflexivity|].
  unfold hasReferences at 1. destruct (references b) as [|r rs] eqn:R; simpl.
  - rewrite IH. unfold heldIn at 2. rewrite R. destruct (eid b =? e); reflexivity.
  - rewrite IH. reflexivity.
Qed.

Lemma NoDup_app_inv {A} (l1 l2 : list A) :
  NoDup (l1 ++ l2) -> NoDup l1 /\ NoDup l2 /\ (forall a, In a l1 -> ~ In a l2).
Proof.
  induction l1 as [|x l1 IH]; simpl; intros H.
  - repeat split; [constructor|exact H|tauto].
  - inversion H; subst. destruct (IH H3) as [N1 [N2 D]]. repeat split; auto.
    + constructor; [|exact N1]. intros I. apply H2. apply in_or_app. auto.
    + intros a [E|I]; [subst; intros I2; apply H2; apply in_or_app; auto|apply D, I].
Qed.

Lemma NoDup_map_filter {A B} (h : A -> B) (p : A -> bool) (l : list A) :
  NoDup (map h l) -> NoDup (map h (filter p l)).
Proof.
  induction l as [|x l IH]; simpl; intros H; [constructor|].
  inversion H; subst. destruct (p x); simpl; [|auto].
  constructor; [|auto]. intros I. apply H2. apply in_map_iff in I.
  destruct I as [y [E I]]. apply filter_In in I. apply in_map_iff. exists y. tauto.
Qed.

Lemma In_map_filter {A B} (h : A -> B) (p : A -> bool) (l : list A) (a : B) :
  In a (map h (filter p l)) -> In a (map h l).
Proof.
  intros I. apply in_map_iff in I. destruct I as [y [E I]]. apply filter_In in I.
  apply in_map_iff. exists y. tauto.
Qed.

Lemma filter_Conserved (which : Registry) (s : St) :
  Conserved [] s ->
  Conserved [] (set_registry which (filter hasReferences (registry which s)) s).
Proof.
  intros [H1 [H2 [H3 [H4 H5]]]].
  set (s' := set_registry which _ s).
  assert (R : registered s' = registered s) by (destruct which; reflexivity).
  assert (Y : yielded s' = yielded s) by (destruct which; reflexivity).
  assert (Held : forall e, heldBy e s' = heldBy e s).
  { intros e. unfold heldBy. rewrite !flat_map_app.
    destruct which; simpl; rewrite flat_map_filter_hasReferences; reflexivity. }
  assert (Sub : forall b, In b (signals s' ++ props s') -> In b (signals s ++ props s)).
  { intros b I. apply in_app_or in I. apply in_or_app.
    destruct which; simpl in I; destruct I as [I|I]; auto;
      apply filter_In in I; tauto. }
  unfold Conserved. rewrite R, Y. split; [|split; [|split; [|split]]]; auto.
  - intros e v E. rewrite Held, (yieldedOf_eq e s s' Y). auto.
  - rewrite map_app in H2. destruct (NoDup_app_inv _ _ H2) as [N1 [N2 D]].
    rewrite map_app. destruct which; simpl; apply NoDup_app; auto.
    + apply NoDup_map_filter, N1.
    + intros a I. apply D. eapply In_map_filter, I.
    + apply NoDup_map_filter, N2.
    + intros a I I2. apply (D a I). eapply In_map_filter, I2.
Qed.

Lemma steps_conserves {A} (m : M A) : steps m -> conserves m.
Proof. intros H s a s' C E. eapply Step_Conserved; eauto. Qed.

Lemma conserves_bind {A B} (m : M A) (f : A -> M B) :
  conserves m -> (forall a, conserves (f a)) -> conserves (bind m f).
Proof.
  intros Hm Hf s b s' C E. unfold bind in E. destruct (m s) as [a s1|] eqn:Em; [|discriminate].
  eapply Hf; [|exact E]. eapply Hm; eauto.
Qed.

Lemma modify_filter_conserves (which : Registry) :
  conserves (modify (fun s => set_registry which (filter hasReferences (registry which s)) s)).
Proof. intros s a s' C E. inversion E; subst. apply filter_Conserved, C. Qed.

Lemma consumeSignalReferencesInScope_conserves (body : Reference -> Node -> M unit) :
  (forall r d, steps (body r d)) -> conserves (consumeSignalReferencesInScope body).
Proof.
  intros Hb. unfold consumeSignalReferencesInScope.
  apply conserves_bind; [apply steps_conserves, steps_gets|]. intros n.
  apply conserves_bind; [apply consumeReferencesInScope_conserves, Hb|]. intros _.
  apply (modify_filter_conserves Signals).
Qed.

Lemma consumePropsReferencesInScope_conserves (body : Reference -> Node -> M unit) :
  (forall r d, steps (body r d)) -> conserves (consumePropsReferencesInScope body).
Proof.
  intros Hb. unfold consumePropsReferencesInScope.
  apply conserves_bind; [apply steps_conserves, steps_gets|]. intros n.
  apply conserves_bind; [apply consumeReferencesInScope_conserves, Hb|]. intros _.
  apply (modify_filter_conserves Props).
Qed.

Lemma onFunctionExit_conserves (src : Source) (n : Node) : conserves (onFunctionExit src n).
Proof.
  unfold onFunctionExit.
  apply conserves_bind.
  { apply steps_conserves. apply steps_when. apply steps_markPropsOnCondition.
    intros p. steps_auto. }
  intros _. apply conserves_bind; [apply steps_conserves, steps_gets|]. intros sync.
  destruct (_ && _); [apply steps_conserves, steps_ret|].
  apply conserves_bind; [apply consumeSignalReferencesInScope_conserves, steps_signalBody|].
  intros _.
  apply conserves_bind; [apply consumePropsReferencesInScope_conserves, steps_propsBody|].
  intros _. apply steps_conserves. steps_auto.
Qed.

Lemma leave_conserves (src : Source) (n : Node) : conserves (leave src n).
Proof.
  unfold leave. destruct (isProgramOrFunctionNode n);
    [apply onFunctionExit_conserves|apply steps_conserves, steps_ret].
Qed.

Lemma conserves_forEach_in {A} (l : list A) (f : A -> M unit) :
  (forall x, In x l -> conserves (f x)) -> conserves (forEach l f).
Proof.
  unfold forEach. induction l as [|x l IH]; intros H.
  - apply steps_conserves, steps_ret.
  - apply conserves_bind; [apply H; left; reflexivity|]. intros _. apply IH.
    intros y I. apply H. right. exact I.
Qed.

Lemma walk_conserves (src : Source) (options : Options) (t : Ast) :
  conserves (walk src options t).
Proof.
  induction t as [n kids IH] using Ast_kids_ind. simpl.
  apply conserves_bind; [apply steps_conserves, steps_enter|]. intros _.
  apply conserves_bind; [apply conserves_forEach_in, IH|]. intros _.
  apply leave_conserves.
Qed.

Lemma create_Conserved : Conserved [] create.
Proof.
  unfold Conserved, create. simpl. split; [|split; [|split; [|split]]].
  - intros e v E. destruct e; discriminate.
  - constructor.
  - intros b [].
  - intros y [].
  - intros p [].
Qed.

Lemma run_Conserved (src : Source) (options : Options) (s : St) :
  run src options = Ok tt s -> Conserved [] s.
Proof. intros E. eapply walk_conserves; [apply create_Conserved|exact E]. Qed.

(** C1 (as amended). When a run is over, every entry ever pushed onto
    [signals] or [props] is accounted for: the references it yielded to the
    validator, over all scope exits, together with the references it still
    holds are, up to order, exactly the references it was pushed with (the
    variable's references without the initialising ones). Hence, when the
    list an entry was pushed with has no duplicates, the entry yielded no
    reference twice, none that it still holds, and dropped none without
    yielding it. No two entries share an identity. The law is one of
    entries: an entry may hold a reference to the end, and a variable that
    is pushed twice has two entries, each with the references of its own. *)
Theorem reference_conservation (src : Source) (options : Options) (s : St) :
  run src options = Ok tt s ->
  (forall e v, nth_error (registered s) e = Some v ->
     Permutation (yieldedOf e s ++ heldBy e s) (postFilter v)
     /\ (NoDup (postFilter v) -> NoDup (yieldedOf e s ++ heldBy e s)))
  /\ NoDup (map eid (signals s ++ props s))
  /\ (forall y, In y (yielded s) -> y_eid y < List.length (registered s))
  /\ (forall b, In b (signals s ++ props s) ->
        nth_error (registered s) (eid b) <> None).
Proof.
  intros E. destruct (run_Conserved src options s E) as [H1 [H2 [H3 [H4 _]]]].
  split; [|split; [exact H2|split; [exact H4|]]].
  - intros e v Ev. specialize (H1 e v Ev). simpl in H1. rewrite app_nil_r in H1.
    split; [exact H1|]. intros N. eapply Permutation_NoDup; [|exact N].
    apply Permutation_sym, H1.
  - intros b I. apply nth_error_Some. apply H3, I.
Qed.

(** ** The passes of the generators end *)

Lemma Bounded_refl fv s : Bounded fv s s.
Proof. unfold Bounded. auto. Qed.

Lemma Bounded_trans fv s1 s2 s3 : Bounded fv s1 s2 -> Bounded fv s2 s3 -> Bounded fv s1 s3.
Proof.
  unfold Bounded. intros [A1 [B1 [C1 D1]]] [A2 [B2 [C2 D2]]].
  repeat split; try congruence; lia.
Qed.

Lemma Bounded_same fv s s' :
  map node (frames s') = map node (frames s) -> props s' = props s ->
  signals s' = signals s -> Bounded fv s s'.
Proof. unfold Bounded. intros A B C. rewrite C. auto. Qed.

Lemma Bounded_top fv s s' : Bounded fv s s' -> topNode s' = topNode s.
Proof.
  intros [A _]. unfold topNode.
  assert (E : map node (rev (frames s')) = map node (rev (frames s)))
    by (rewrite !map_rev, A; reflexivity).
  destruct (rev (frames s')) as [|x l], (rev (frames s)) as [|y l'];
    simpl in E; try discriminate; [reflexivity|]. inversion E. congruence.
Qed.

Create HintDb tame.

Lemma tame_ret {A} fv c (a : A) : tame fv c (ret a).
Proof. intros s T. apply Bounded_refl. Qed.

Lemma tame_throw {A} fv c (e : string) : e <> "out of fuel" -> tame fv c (@throw A e).
Proof. intros N s T. exact N. Qed.

Lemma tame_gets {A} fv c (f : St -> A) : tame fv c (gets f).
Proof. intros s T. apply Bounded_refl. Qed.

Lemma tame_bind {A B} fv c (m : M A) (f : A -> M B) :
  tame fv c m -> (forall a, tame fv c (f a)) -> tame fv c (bind m f).
Proof.
  intros Hm Hf s T. unfold bind. specialize (Hm s T).
  destruct (m s) as [a s1|e]; [|exact Hm].
  assert (T1 : topNode s1 = Some c) by (rewrite (Bounded_top _ _ _ Hm); exact T).
  specialize (Hf a s1 T1). destruct (f a s1) as [b s2|e]; [|exact Hf].
  eapply Bounded_trans; eauto.
Qed.

Lemma tame_modify fv c (f : St -> St) :
  (forall s, Bounded fv s (f s)) -> tame fv c (modify f).
Proof. intros H s T. apply H. Qed.

Lemma tame_when fv c (b : bool) (m : M unit) : tame fv c m -> tame fv c (when b m).
Proof. intros H. destruct b; [exact H|apply tame_ret]. Qed.

Lemma tame_forEach {A} fv c (l : list A) (f : A -> M unit) :
  (forall x, tame fv c (f x)) -> tame fv c (forEach l f).
Proof.
  intros H. unfold forEach. induction l as [|x l IH].
  - apply tame_ret.
  - apply tame_bind; [apply H|]. intros _. exact IH.
Qed.

Lemma tame_findM {A} fv c (p : A -> M bool) (l : list A) :
  (forall x, tame fv c (p x)) -> tame fv c (findM p l).
Proof.
  intros H. induction l as [|x l IH]; simpl.
  - apply tame_ret.
  - apply tame_bind; [apply H|]. intros [|]; [apply tame_ret|apply IH].
Qed.

Lemma currentScope_topNode (s : St) :
  match currentScope s with
  | Ok item s' => s' = s /\ topNode s = Some (node item)
  | Throw e => e = TypeError
  end.
Proof.
  unfold currentScope, topNode.
  destruct (frames s) as [|x l] eqn:F using rev_ind; [reflexivity|].
  rewrite length_app, rev_app_distr. simpl.
  replace (List.length l + 1) with (S (List.length l)) by lia.
  rewrite nth_error_app2 by lia. rewrite Nat.sub_diag. simpl. auto.
Qed.

Lemma tame_currentScope fv c : tame fv c currentScope.
Proof.
  intros s T. pose proof (currentScope_topNode s) as H.
  destruct (currentScope s) as [item s'|e].
  - destruct H as [E _]. subst. apply Bounded_refl.
  - subst e. discriminate.
Qed.

(** After [currentScope()] the node in hand is the one on top. *)
Lemma tame_bind_currentScope {B} fv c (f : ScopeStackItem -> M B) :
  (forall item, node item = c -> tame fv c (f item)) -> tame fv c (bind currentScope f).
Proof.
  intros H s T. unfold bind. pose proof (currentScope_topNode s) as C.
  destruct (currentScope s) as [item s'|e].
  - destruct C as [E N]. subst s'. apply H; [|exact T]. congruence.
  - subst e. discriminate.
Qed.

#[export] Hint Resolve tame_ret tame_gets tame_currentScope : tame.

Ltac tame_step :=
  match goal with
  | |- tame _ _ (ret _) => apply tame_ret
  | |- tame _ _ (throw _) => apply tame_throw; discriminate
  | |- tame _ _ (gets _) => apply tame_gets
  | |- tame _ _ (bind _ _) => apply tame_bind; [|intros ?]
  | |- tame _ _ (when _ _) => apply tame_when
  | |- tame _ _ (forEach _ _) => apply tame_forEach; intros ?
  | |- tame _ _ (findM _ _) => apply tame_findM; intros ?
  | |- tame _ _ (modify _) =>
      apply tame_modify; intros ?; apply Bounded_same; reflexivity
  | |- tame _ _ (if ?c then _ else _) => destruct c
  | |- tame _ _ (match ?x with _ => _ end) => destruct x
  | |- tame _ _ _ => solve [auto with tame]
  | |- tame _ _ _ => progress cbv zeta
  end.

Ltac tame_auto := repeat tame_step.

Lemma tame_parentScope fv c : tame fv c parentScope.
Proof. unfold parentScope. tame_auto. Qed.

Lemma tame_report fv c l mid d : tame fv c (report l mid d).
Proof. unfold report. tame_auto. Qed.

Lemma tame_matchTrackedScope fv c ts n : tame fv c (matchTrackedScope ts n).
Proof. unfold matchTrackedScope. tame_auto. Qed.

Lemma tame_findDeepestDeclarationScope fv c a b :
  tame fv c (findDeepestDeclarationScope a b).
Proof. unfold findDeepestDeclarationScope. tame_auto. Qed.

#[export] Hint Resolve tame_parentScope tame_report tame_matchTrackedScope
  tame_findDeepestDeclarationScope : tame.

Lemma map_node_updateAt (f : ScopeStackItem -> ScopeStackItem) (l : list ScopeStackItem)
  (i : nat) :
  (forall item, node (f item) = node item) -> map node (updateAt i f l) = map node l.
Proof. intros H. apply map_updateAt. exact H. Qed.

Lemma tame_pushUnnamedDerivedSignal fv c n : tame fv c (pushUnnamedDerivedSignal n).
Proof.
  unfold pushUnnamedDerivedSignal. tame_auto.
  apply tame_modify. intros s0. apply Bounded_same; try reflexivity.
  simpl. apply map_node_updateAt. reflexivity.
Qed.

Lemma existsb_variable_updateAt (v : ScopeVariable) (d : Node) (l : list Binding)
  (i : nat) :
  existsb (fun b => sameVariable (variable b) v) (updateAt i (set_declarationScope d) l)
  = existsb (fun b => sameVariable (variable b) v) l.
Proof.
  revert i. induction l as [|x l IH]; intros [|i]; simpl; try reflexivity.
  rewrite IH. reflexivity.
Qed.

Lemma findIndex_None_existsb {A} (p : A -> bool) (l : list A) :
  findIndex p l = None -> existsb p l = false.
Proof.
  induction l as [|x l IH]; simpl; [reflexivity|].
  destruct (p x); [discriminate|]. destruct (findIndex p l); [discriminate|].
  intros _. apply IH. reflexivity.
Qed.

Lemma length_updateAt {A} (f : A -> A) (l : list A) (i : nat) :
  List.length (updateAt i f l) = List.length l.
Proof. revert i. induction l as [|x l IH]; intros [|i]; simpl; auto. Qed.

(** Promoting the function's own variable pushes an entry only when the
    variable has none yet. *)
Lemma tame_pushUniqueSignal c v d : tame (Some v) c (pushUniqueSignal v d).
Proof.
  unfold pushUniqueSignal. intros s T. unfold bind, gets.
  destruct (findIndex _ (signals s)) as [i|] eqn:F.
  - destruct (nth_error (signals s) i) as [found|]; [|apply Bounded_refl].
    pose proof (tame_findDeepestDeclarationScope (Some v) c (declarationScope found) d s T)
      as H.
    destruct (findDeepestDeclarationScope _ _ s) as [r s1|e]; [|exact H].
    unfold modify. destruct H as [A [B [C D]]]. unfold Bounded. simpl.
    rewrite length_updateAt.
    unfold slack in *. rewrite existsb_variable_updateAt.
    repeat split; auto.
  - unfold pushSignal, modify, Bounded. simpl. rewrite length_app. simpl.
    rewrite existsb_app. simpl. unfold sameVariable at 2. rewrite Nat.eqb_refl.
    rewrite orb_true_r. apply findIndex_None_existsb in F. rewrite F.
    repeat split; auto; lia.
Qed.

#[export] Hint Resolve tame_pushUnnamedDerivedSignal tame_pushUniqueSignal : tame.

Lemma tame_handleTrackedScopes src c i d :
  tame (functionVariable src c) c (handleTrackedScopes src i d).
Proof.
  unfold handleTrackedScopes. apply tame_bind_currentScope. intros item E. subst c.
  unfold functionVariable. tame_auto.
Qed.

#[export] Hint Resolve tame_handleTrackedScopes : tame.

Lemma tame_signalBody src c r d : tame (functionVariable src c) c (signalBody src r d).
Proof. unfold signalBody. tame_auto. Qed.

Lemma tame_propsBody src c r d : tame (functionVariable src c) c (propsBody src r d).
Proof. unfold propsBody. tame_auto. Qed.

Lemma tame_logYield fv c e r : tame fv c (logYield e r).
Proof. unfold logYield. tame_auto. Qed.

Lemma currentScope_empty (s : St) : topNode s = None -> currentScope s = Throw TypeError.
Proof.
  intros T. pose proof (currentScope_topNode s) as H.
  destruct (currentScope s) as [item s'|e]; [|congruence].
  destruct H as [_ N]. congruence.
Qed.

Lemma partitionM_isReference_throw (l : list Reference) (s : St) (e : string) :
  partitionM isReferenceInCurrentScope l s = Throw e -> e = TypeError.
Proof.
  induction l as [|x l IH]; simpl; [discriminate|]. unfold bind.
  destruct (isReferenceInCurrentScope x s) as [b s1|e1] eqn:E1.
  - apply isReferenceInCurrentScope_pure in E1. subst s1.
    destruct (partitionM isReferenceInCurrentScope l s) as [r s2|e2]; [discriminate|].
    intros H. inversion H; subst. apply IH. reflexivity.
  - intros H. inversion H; subst. clear H.
    unfold isReferenceInCurrentScope, bind, gets in E1.
    pose proof (currentScope_topNode s) as C.
    destruct (currentScope s) as [item s'|e0]; [discriminate|]. congruence.
Qed.

Lemma slack_set_references fv (r : list Reference) (l : list Binding) (i : nat) :
  slack fv (updateAt i (set_references r) l) = slack fv l.
Proof.
  unfold slack. destruct fv as [v|]; [|reflexivity].
  replace (existsb (fun b => sameVariable (variable b) v) (updateAt i (set_references r) l))
    with (existsb (fun b => sameVariable (variable b) v) l); [reflexivity|].
  revert i. induction l as [|x l IH]; intros [|i]; simpl; try reflexivity.
  rewrite <- IH. reflexivity.
Qed.

Lemma topNode_set_registry which l s : topNode (set_registry which l s) = topNode s.
Proof. destruct which; reflexivity. Qed.

(** A pass started with more fuel than turns remain is not cut short. *)
Lemma consumeReferencesInScope_fuel (which : Registry) (body : Reference -> Node -> M unit)
  (fv : option ScopeVariable) (c : Node) :
  (forall r d, tame fv c (body r d)) ->
  forall fuel i s, topNode s = Some c -> remaining which fv i s < fuel ->
    consumeReferencesInScope fuel which body i s <> Throw "out of fuel".
Proof.
  intros Hb. induction fuel as [|fuel IH]; intros i s T R; [lia|].
  simpl. unfold bind at 1. unfold gets.
  destruct (nth_error (registry which s) i) as [b|] eqn:N; [|discriminate].
  unfold bind at 1.
  destruct (partitionM isReferenceInCurrentScope (references b) s) as [parts s1|e] eqn:E1.
  - destruct (partitionM_pure _ _ _ _ _ isReferenceInCurrentScope_pure E1) as [S1 _].
    subst s1. unfold bind at 1.
    assert (Hf : tame fv c
                   (forEach (map (fun reference => (reference, declarationScope b)) (fst parts))
                      (fun p => logYield (eid b) (fst p) ;; body (fst p) (snd p)))).
    { apply tame_forEach. intros p. apply tame_bind; [apply tame_logYield|].
      intros _. apply Hb. }
    specialize (Hf s T).
    match goal with
    | |- match ?m s with _ => _ end <> _ => destruct (m s) as [[] s2|e2]
    end.
    + unfold bind at 1. unfold modify.
      apply IH.
      * rewrite topNode_set_registry, (Bounded_top _ _ _ Hf). exact T.
      * destruct Hf as [_ [P [L1 L2]]].
        assert (Li : i < List.length (registry which s))
          by (apply nth_error_Some; congruence).
        destruct which; simpl in *.
        -- rewrite length_updateAt, slack_set_references. lia.
        -- rewrite length_updateAt, P. lia.
    + intros H. inversion H. subst. apply Hf. reflexivity.
  - apply partitionM_isReference_throw in E1. subst e. discriminate.
Qed.

(** With no frame on the stack a pass only walks over entries that hold no
    reference: the test of the first reference it meets throws. *)
Lemma consumeReferencesInScope_fuel_empty (which : Registry)
  (body : Reference -> Node -> M unit) :
  forall fuel i s, topNode s = None -> List.length (registry which s) - i < fuel ->
    consumeReferencesInScope fuel which body i s <> Throw "out of fuel".
Proof.
  induction fuel as [|fuel IH]; intros i s T R; [lia|].
  simpl. unfold bind at 1. unfold gets.
  destruct (nth_error (registry which s) i) as [b|] eqn:N; [|discriminate].
  assert (Li : i < List.length (registry which s)) by (apply nth_error_Some; congruence).
  unfold bind at 1. destruct (references b) as [|x l].
  - simpl. unfold bind at 1. unfold ret at 1. unfold bind at 1. unfold modify.
    apply IH.
    + rewrite topNode_set_registry. exact T.
    + destruct which; simpl in *; rewrite length_updateAt; lia.
  - simpl. unfold bind at 1. unfold isReferenceInCurrentScope at 1. unfold bind at 1.
    unfold gets. unfold bind at 1. rewrite (currentScope_empty s T). discriminate.
Qed.

Lemma remaining_start_signals fv s :
  remaining Signals fv 0 s < List.length (signals s) + 2.
Proof. unfold remaining, slack. destruct fv; [destruct (existsb _ _)|]; lia. Qed.

Lemma remaining_start_props fv s :
  remaining Props fv 0 s < List.length (props s) + 1.
Proof. unfold remaining. lia. Qed.

(** ** Nothing fails for want of fuel *)

Create HintDb fuel.

Lemma fuelFree_ret {A} (a : A) : fuelFree (ret a).
Proof. intros s. discriminate. Qed.

Lemma fuelFree_throw {A} (e : string) : e <> "out of fuel" -> fuelFree (@throw A e).
Proof. intros N s H. inversion H. contradiction. Qed.

Lemma fuelFree_gets {A} (f : St -> A) : fuelFree (gets f).
Proof. intros s. discriminate. Qed.

Lemma fuelFree_modify (f : St -> St) : fuelFree (modify f).
Proof. intros s. discriminate. Qed.

Lemma fuelFree_bind {A B} (m : M A) (f : A -> M B) :
  fuelFree m -> (forall a, fuelFree (f a)) -> fuelFree (bind m f).
Proof.
  intros Hm Hf s. unfold bind. specialize (Hm s).
  destruct (m s) as [a s1|e]; [apply Hf|].
  intros H. inversion H; subst. apply Hm. reflexivity.
Qed.

Lemma fuelFree_when (b : bool) (m : M unit) : fuelFree m -> fuelFree (when b m).
Proof. intros H. destruct b; [exact H|apply fuelFree_ret]. Qed.

Lemma fuelFree_forEach_in {A} (l : list A) (f : A -> M unit) :
  (forall x, In x l -> fuelFree (f x)) -> fuelFree (forEach l f).
Proof.
  unfold forEach. induction l as [|x l IH]; intros H.
  - apply fuelFree_ret.
  - apply fuelFree_bind; [apply H; left; reflexivity|]. intros _. apply IH.
    intros y I. apply H. right. exact I.
Qed.

Lemma fuelFree_forEach {A} (l : list A) (f : A -> M unit) :
  (forall x, fuelFree (f x)) -> fuelFree (forEach l f).
Proof. intros H. apply fuelFree_forEach_in. intros x _. apply H. Qed.

Lemma fuelFree_findM {A} (p : A -> M bool) (l : list A) :
  (forall x, fuelFree (p x)) -> fuelFree (findM p l).
Proof.
  intros H. induction l as [|x l IH]; simpl.
  - apply fuelFree_ret.
  - apply fuelFree_bind; [apply H|]. intros [|]; [apply fuelFree_ret|apply IH].
Qed.

Lemma fuelFree_currentScope : fuelFree currentScope.
Proof.
  intros s. pose proof (currentScope_topNode s) as H.
  destruct (currentScope s); [discriminate|]. subst. discriminate.
Qed.

Lemma fuelFree_trace (src : Source) (cur n : Node) : fuelFree (trace src cur n).
Proof.
  unfold trace. destruct (traceFrom _ _ _ _); [apply fuelFree_ret|].
  apply fuelFree_throw. discriminate.
Qed.

#[export] Hint Resolve fuelFree_ret fuelFree_gets fuelFree_modify fuelFree_currentScope
  fuelFree_trace : fuel.

Ltac fuel_step :=
  match goal with
  | |- fuelFree (ret _) => apply fuelFree_ret
  | |- fuelFree (throw _) => apply fuelFree_throw; discriminate
  | |- fuelFree (gets _) => apply fuelFree_gets
  | |- fuelFree (modify _) => apply fuelFree_modify
  | |- fuelFree (bind _ _) => apply fuelFree_bind; [|intros ?]
  | |- fuelFree (when _ _) => apply fuelFree_when
  | |- fuelFree (forEach _ _) => apply fuelFree_forEach; intros ?
  | |- fuelFree (findM _ _) => apply fuelFree_findM; intros ?
  | |- fuelFree (if ?c then _ else _) => destruct c
  | |- fuelFree (match ?x with _ => _ end) => destruct x
  | |- fuelFree _ => solve [auto with fuel]
  | |- fuelFree _ => progress cbv zeta
  end.

Ltac fuel_auto := repeat fuel_step.

Lemma fuelFree_parentScope : fuelFree parentScope.
Proof. unfold parentScope. fuel_auto. Qed.

Lemma fuelFree_modifyCurrentScope f : fuelFree (modifyCurrentScope f).
Proof. unfold modifyCurrentScope. fuel_auto. Qed.

Lemma fuelFree_report l mid d : fuelFree (report l mid d).
Proof. unfold report. fuel_auto. Qed.

Lemma fuelFree_pushSignal v d : fuelFree (pushSignal v d).
Proof. unfold pushSignal. fuel_auto. Qed.

Lemma fuelFree_pushProps v d : fuelFree (pushProps v d).
Proof. unfold pushProps. fuel_auto. Qed.

#[export] Hint Resolve fuelFree_parentScope fuelFree_modifyCurrentScope fuelFree_report
  fuelFree_pushSignal fuelFree_pushProps : fuel.

Lemma fuelFree_findDeepestDeclarationScope a b : fuelFree (findDeepestDeclarationScope a b).
Proof. unfold findDeepestDeclarationScope. fuel_auto. Qed.

Lemma fuelFree_pushSignalHere v : fuelFree (pushSignalHere v).
Proof. unfold pushSignalHere. fuel_auto. Qed.

#[export] Hint Resolve fuelFree_findDeepestDeclarationScope fuelFree_pushSignalHere : fuel.

Lemma fuelFree_pushUniqueSignal v d : fuelFree (pushUniqueSignal v d).
Proof. unfold pushUniqueSignal. fuel_auto. Qed.

Lemma fuelFree_warnShouldDestructure n nth : fuelFree (warnShouldDestructure n nth).
Proof. unfold warnShouldDestructure. fuel_auto. Qed.

Lemma fuelFree_warnShouldAssign n : fuelFree (warnShouldAssign n).
Proof. unfold warnShouldAssign. fuel_auto. Qed.

#[export] Hint Resolve fuelFree_pushUniqueSignal fuelFree_warnShouldDestructure
  fuelFree_warnShouldAssign : fuel.

Lemma fuelFree_markPropsOnCondition src n cb :
  (forall p, fuelFree (cb p)) -> fuelFree (markPropsOnCondition src n cb).
Proof. intros H. unfold markPropsOnCondition. fuel_auto. Qed.

Lemma fuelFree_onFunctionEnter src n : fuelFree (onFunctionEnter src n).
Proof.
  unfold onFunctionEnter. fuel_auto.
  apply fuelFree_markPropsOnCondition. intros p. fuel_auto.
Qed.

Lemma fuelFree_matchTrackedScope ts n : fuelFree (matchTrackedScope ts n).
Proof. unfold matchTrackedScope. fuel_auto. Qed.

Lemma fuelFree_pushUnnamedDerivedSignal n : fuelFree (pushUnnamedDerivedSignal n).
Proof. unfold pushUnnamedDerivedSignal. fuel_auto. Qed.

#[export] Hint Resolve fuelFree_onFunctionEnter fuelFree_matchTrackedScope
  fuelFree_pushUnnamedDerivedSignal : fuel.

Lemma fuelFree_handleTrackedScopes src i d : fuelFree (handleTrackedScopes src i d).
Proof. unfold handleTrackedScopes. fuel_auto. Qed.

Lemma fuelFree_addSyncCallback n : fuelFree (addSyncCallback n).
Proof. unfold addSyncCallback. fuel_auto. Qed.

#[export] Hint Resolve fuelFree_handleTrackedScopes fuelFree_addSyncCallback : fuel.

Lemma fuelFree_checkForSyncCallbacks src n : fuelFree (checkForSyncCallbacks src n).
Proof. unfold checkForSyncCallbacks. fuel_auto. Qed.

Lemma fuelFree_checkForReactiveAssignment src cur id init0 :
  fuelFree (checkForReactiveAssignment src cur id init0).
Proof. unfold checkForReactiveAssignment. fuel_auto. Qed.

Lemma fuelFree_pushTrackedScope n e : fuelFree (pushTrackedScope n e).
Proof. unfold pushTrackedScope. fuel_auto. Qed.

#[export] Hint Resolve fuelFree_checkForSyncCallbacks fuelFree_checkForReactiveAssignment
  fuelFree_pushTrackedScope : fuel.

Lemma fuelFree_visitChild (f : Ast -> M unit) (kids : list Ast) (id : nat) :
  (forall k, In k kids -> fuelFree (f k)) -> fuelFree (visitChild f kids id).
Proof.
  unfold visitChild. induction kids as [|k kids IHk]; intros H; [apply fuelFree_ret|].
  destruct (nid (astNode k) =? id); [apply H; left; reflexivity|].
  apply IHk. intros x I. apply H. right. exact I.
Qed.

Lemma fuelFree_permissivelyTrack src cur t : fuelFree (permissivelyTrack src cur t).
Proof.
  induction t as [n kids IH] using Ast_kids_ind. simpl.
  apply fuelFree_bind; [auto with fuel|]. intros traced.
  destruct (_ || _); [auto with fuel|].
  destruct (visitorKeys (type n)) as [keys|]; [|apply fuelFree_throw; discriminate].
  apply fuelFree_forEach. intros id. apply fuelFree_visitChild. exact IH.
Qed.

#[export] Hint Resolve fuelFree_permissivelyTrack : fuel.

Lemma fuelFree_permissivelyTrackArguments src cur args :
  fuelFree (permissivelyTrackArguments src cur args).
Proof. unfold permissivelyTrackArguments, permissivelyTrackNode. fuel_auto. Qed.

#[export] Hint Resolve fuelFree_permissivelyTrackArguments : fuel.

Lemma fuelFree_checkForTrackedScopes src options n :
  fuelFree (checkForTrackedScopes src options n).
Proof. unfold checkForTrackedScopes. fuel_auto. Qed.

Lemma fuelFree_onRenderCallback src n : fuelFree (onRenderCallback src n).
Proof. unfold onRenderCallback. fuel_auto. Qed.

Lemma fuelFree_handleImportDeclaration src n : fuelFree (handleImportDeclaration src n).
Proof. unfold handleImportDeclaration. fuel_auto. Qed.

Lemma fuelFree_onJSX : fuelFree onJSX.
Proof. unfold onJSX. fuel_auto. Qed.

#[export] Hint Resolve fuelFree_checkForTrackedScopes fuelFree_onRenderCallback
  fuelFree_handleImportDeclaration fuelFree_onJSX : fuel.

Lemma fuelFree_enter src options n : fuelFree (enter src options n).
Proof. unfold enter. fuel_auto. Qed.

Lemma consume_not_cut_short (which : Registry) (body : Reference -> Node -> M unit)
  (src : Source) (fuel : nat) (s : St) :
  (forall c r d, tame (functionVariable src c) c (body r d)) ->
  (forall fv, remaining which fv 0 s < fuel) ->
  consumeReferencesInScope fuel which body 0 s <> Throw "out of fuel".
Proof.
  intros Hb R. destruct (topNode s) as [c|] eqn:T.
  - apply (consumeReferencesInScope_fuel which body (functionVariable src c) c);
      auto.
  - apply consumeReferencesInScope_fuel_empty; [exact T|].
    specialize (R None). destruct which; simpl in *; lia.
Qed.

Lemma fuelFree_consumeSignalReferencesInScope src :
  fuelFree (consumeSignalReferencesInScope (signalBody src)).
Proof.
  intros s. unfold consumeSignalReferencesInScope, bind, gets.
  pose proof (consume_not_cut_short Signals (signalBody src) src
                (List.length (signals s) + 2) s (tame_signalBody src)
                (fun fv => remaining_start_signals fv s)) as H.
  destruct (consumeReferencesInScope _ _ _ _ s) as [[] s1|e]; [discriminate|].
  intros C. inversion C; subst. apply H. reflexivity.
Qed.

Lemma fuelFree_consumePropsReferencesInScope src :
  fuelFree (consumePropsReferencesInScope (propsBody src)).
Proof.
  intros s. unfold consumePropsReferencesInScope, bind, gets.
  pose proof (consume_not_cut_short Props (propsBody src) src
                (List.length (props s) + 1) s (tame_propsBody src)
                (fun fv => remaining_start_props fv s)) as H.
  destruct (consumeReferencesInScope _ _ _ _ s) as [[] s1|e]; [discriminate|].
  intros C. inversion C; subst. apply H. reflexivity.
Qed.

#[export] Hint Resolve fuelFree_consumeSignalReferencesInScope
  fuelFree_consumePropsReferencesInScope fuelFree_enter : fuel.

Lemma fuelFree_onFunctionExit src n : fuelFree (onFunctionExit src n).
Proof.
  unfold onFunctionExit. fuel_auto.
  apply fuelFree_markPropsOnCondition. intros p. fuel_auto.
Qed.

Lemma fuelFree_leave src n : fuelFree (leave src n).
Proof. unfold leave. destruct (isProgramOrFunctionNode n); [apply fuelFree_onFunctionExit|apply fuelFree_ret]. Qed.

Lemma fuelFree_walk src options t : fuelFree (walk src options t).
Proof.
  induction t as [n kids IH] using Ast_kids_ind. simpl.
  apply fuelFree_bind; [apply fuelFree_enter|]. intros _.
  apply fuelFree_bind; [apply fuelFree_forEach_in, IH|]. intros _.
  apply fuelFree_leave.
Qed.


(** ** The samples, run *)

(** C4, counterexample: the program of the claim, with [createSignal]
    imported from solid-js so that [count] is a signal, yields one finding,
    not none. *)
Lemma direct_invoked_read_counterexample :
  option_map (@List.length Report) (analyze sampleLog noOptions) = Some 1.
Proof. vm_compute. reflexivity. Qed.

(** C4 (as amended). The program [const [count, setCount] = createSignal(0);
    console.log(count());] with [createSignal] imported from solid-js yields
    exactly one finding: [untrackedReactive], at the call [count()], since no
    tracked scope contains the read; none of the [badSignal] findings is
    raised for the invoked read. Without the import the program yields no
    finding. *)
Theorem direct_invoked_read_is_untracked :
  analyze sampleLog noOptions
  = Some [mkReport (AtNode (nid nCountCall)) "untrackedReactive" [("name", "count")]]
  /\ analyze sampleLogNoImport noOptions = Some [].
Proof. split; vm_compute; reflexivity. Qed.


(** C2, counterexample: an asynchronous function registered with the
    expectation [called-function] raises no finding, neither in
    [pushTrackedScope] nor in a run over [onMount(async () => {})]. *)
Lemma pushTrackedScope_async_counterexample :
  isFunctionNode nAsyncArrow = true /\ flag nAsyncArrow "async" = true
  /\ (exists s', pushTrackedScope (Some nAsyncArrow) expect_called_function atProgram
                 = Ok tt s'
                 /\ reports s' = []
                 /\ map trackedScopes (frames s')
                    = [[mkTrackedScope (Some nAsyncArrow) expect_called_function]])
  /\ analyze sampleAsyncMount noOptions = Some [].
Proof.
  split; [reflexivity|]. split; [reflexivity|]. split.
  - eexists. split; [reflexivity|]. split; reflexivity.
  - vm_compute. reflexivity.
Qed.

Lemma pushTrackedScope_async_witness :
  exists s',
    pushTrackedScope (Some nAsyncArrow) expect_function atProgram = Ok tt s'
    /\ reports s' = [mkReport (AtNode 68) "noAsyncTrackedScope" []]
    /\ frames s' = [mkItem nProgram [mkTrackedScope (Some nAsyncArrow) expect_function]
                           [] false].
Proof.
  apply (pushTrackedScope_async atProgram nAsyncArrow expect_function).
  - discriminate.
  - reflexivity.
  - reflexivity.
Defined.

(** C3, counterexample: the entry of [g] is declared at the program; the
    merge with the scope [Comp] moves it to [Comp], which lies inside the
    program and is not one of its ancestors. A run shows the move: with the
    read of [b] in [g], the call [g()] is reported when [Comp] is left, as
    a read in the scope that declares [g]; without that read the entry stays
    at the program and the call is not reported. *)
Lemma pushUniqueSignal_counterexample :
  map declarationScope (signals atMerge) = [nProgram]
  /\ (exists s', pushUniqueSignal vG nComp atMerge = Ok tt s'
                 /\ map declarationScope (signals s') = [nComp])
  /\ isAncestorOrSelf nComp nProgram = false
  /\ In nProgram (ancestors nComp)
  /\ analyze (sampleDerived true) noOptions
     = Some [mkReport (AtNode (nid nGUseCall)) "untrackedReactive" [("name", "g")]]
  /\ analyze (sampleDerived false) noOptions = Some [].
Proof.
  split; [reflexivity|]. split; [eexists; split; reflexivity|].
  split; [reflexivity|]. split; [simpl; auto|].
  split; vm_compute; reflexivity.
Qed.

Lemma atMerge_Nested : Nested (frames atMerge).
Proof.
  intros i j fi fj L Hi Hj.
  destruct i as [|[|[|i]]]; destruct j as [|[|[|j]]]; simpl in Hi, Hj;
    try lia; try discriminate;
    try (destruct i; discriminate); try (destruct j; discriminate);
    inversion Hi; inversion Hj; subst;
    (split; [cbv; auto 10 | cbv; intros C; discriminate C]).
Defined.

Lemma pushUniqueSignal_merges_inward_witness :
  exists r,
    pushUniqueSignal vG nComp atMerge
    = Ok tt (set_signals (updateAt 0 (set_declarationScope r) (signals atMerge)) atMerge)
    /\ (r = nProgram \/ r = nComp)
    /\ descendantOrSelf r nProgram /\ descendantOrSelf r nComp.
Proof.
  apply (pushUniqueSignal_merges_inward atMerge vG nComp 0 (mkBinding [mkReference nGUse false false true] vG nProgram 0)).
  - exact atMerge_Nested.
  - reflexivity.
  - reflexivity.
  - simpl. auto.
  - simpl. auto.
Defined.

(** C6, counterexample: called with one node twice, a node that is not on
    the stack, [findDeepestDeclarationScope] returns it and does not throw. *)
Lemma findDeepestDeclarationScope_counterexample :
  onStack nComp (frames atProgram) = false
  /\ findDeepestDeclarationScope nComp nComp atProgram = Ok nComp atProgram.
Proof. split; reflexivity. Qed.

Lemma findDeepestDeclarationScope_witness :
  (exists r, findDeepestDeclarationScope nProgram nComp atMerge = Ok r atMerge
             /\ (r = nProgram \/ r = nComp) /\ (nid nProgram = nid nComp -> r = nProgram)
             /\ descendantOrSelf r nProgram /\ descendantOrSelf r nComp)
  /\ findDeepestDeclarationScope nAsyncArrow nPropertyFunction atMerge
     = Throw "This should never happen"
  /\ findDeepestDeclarationScope nAsyncArrow nAsyncArrow atMerge = Ok nAsyncArrow atMerge.
Proof.
  destruct (findDeepestDeclarationScope_deepest atMerge nProgram nComp) as [H _].
  destruct (findDeepestDeclarationScope_deepest atMerge nAsyncArrow nPropertyFunction)
    as [_ [H' _]].
  destruct (findDeepestDeclarationScope_deepest atMerge nAsyncArrow nAsyncArrow)
    as [_ [_ H'']].
  split; [|split].
  - apply H; [exact atMerge_Nested|simpl; auto|simpl; auto].
  - apply H'; [discriminate|reflexivity|reflexivity].
  - apply H''. reflexivity.
Defined.

Lemma isReferenceInCurrentScope_attributed_witness :
  exists b,
    isReferenceInCurrentScope (mkReference nCountRead false false true) atProgram
    = Ok b atProgram
    /\ (b = true <-> AttributedTo (syncCallbacks atProgram) nCountRead nProgram).
Proof.
  apply (isReferenceInCurrentScope_attributed atProgram [] (mkItem nProgram [] [] false)).
  reflexivity.
Defined.

(** C8, counterexample: the property name [initialize] begins with
    [initial], and the access [store.initialize] is reported;
    so is [store.static]. The test does not look at [computed]: the access
    [store[initialValue]], whose property is the identifier [initialValue],
    is exempt as [store.initialValue] is, and [store[initialize]] is
    reported. *)
Lemma exempt_name_counterexample :
  String.prefix "initial" "initialize" = true
  /\ analyze (sampleStore "initialize") noOptions
     = Some [mkReport (AtNode (nid nStoreMember)) "untrackedReactive"
                      [("name", "store.initialize")]]
  /\ analyze (sampleStore "static") noOptions
     = Some [mkReport (AtNode (nid nStoreMember)) "untrackedReactive"
                      [("name", "store.static")]]
  /\ analyze (sampleStore "initialValue") noOptions = Some []
  /\ flag nComputedMember "computed" = true
  /\ analyze (sampleStoreComputed "initialValue") noOptions = Some []
  /\ analyze (sampleStoreComputed "initialize") noOptions
     = Some [mkReport (AtNode (nid nComputedMember)) "untrackedReactive"
                      [("name", "store[initialize]")]].
Proof. repeat split; vm_compute; reflexivity. Qed.

Lemma propsBody_member_read_witness :
  let src := sampleStore "initialValue" in
  let reference := mkReference nStoreRead false false true in
  (ExemptAccess src nStoreMember -> propsBody src reference nProgram atProgram = Ok tt atProgram)
  /\ (~ ExemptAccess src nStoreMember ->
      propsBody src reference nProgram atProgram
      = handleTrackedScopes src (identifier reference) nProgram atProgram)
  /\ (forall signalRead,
        isWrite signalRead = false ->
        type (identifier signalRead) = "Identifier" ->
        inCallPosition (identifier signalRead) = true ->
        signalBody src signalRead nProgram atProgram
        = handleTrackedScopes src (identifier signalRead) nProgram atProgram).
Proof.
  apply (propsBody_member_read (sampleStore "initialValue")
           (mkReference nStoreRead false false true) nStoreMember nProgram atProgram);
    reflexivity.
Defined.

(** C10, counterexample: in [const o = { f: function () { return count + 1; } }]
    the read of [count] is declared at the program and drained at the exit
    of a function expression whose parent is a property, and it is
    reported, as [badSignal], by the loop body and by the run; the read in
    [return count();] passes in silence. *)
Lemma signalBody_property_function_counterexample :
  let s := set_frames [mkItem nProgram [] [] false; mkItem nPropertyFunction [] [] false]
                      create in
  type nPropertyFunction = "FunctionExpression"
  /\ typeIs (parent nPropertyFunction) "Property" = true
  /\ same nProgram nPropertyFunction = false
  /\ signalBody samplePropertySum (mkReference nPropertyCountAdded false false true)
                nProgram s
     = Ok tt (set_reports
                [mkReport (AtNode (nid nPropertyCountAdded)) "badSignal"
                          [("name", "count"); ("where", "arithmetic or comparisons")]] s)
  /\ analyze samplePropertySum noOptions
     = Some [mkReport (AtNode (nid nPropertyCountAdded)) "badSignal"
                      [("name", "count"); ("where", "arithmetic or comparisons")]]
  /\ analyze samplePropertyCall noOptions = Some [].
Proof. cbv zeta. repeat apply conj; vm_compute; reflexivity. Qed.

Lemma signalBody_property_function_witness :
  let s := set_frames [mkItem nProgram [] [] false; mkItem nPropertyFunction [] [] false]
                      create in
  exists s',
    signalBody samplePropertyCall (mkReference nPropertyCountCalled false false true)
               nProgram s = Ok tt s'
    /\ signals s' = signals s /\ props s' = props s /\ registered s' = registered s
    /\ frames s' = frames s
    /\ (inCallPosition nPropertyCountCalled = true -> s' = s).
Proof.
  apply (signalBody_property_function samplePropertyCall _ []
           (mkItem nProgram [] [] false) (mkItem nPropertyFunction [] [] false)).
  - reflexivity.
  - left. reflexivity.
  - reflexivity.
  - reflexivity.
  - reflexivity.
Defined.

(** C1, counterexample. In [sampleHoisted] the read of [count] inside [f] is
    in the list the entry of [count] is pushed with, no scope exit yields
    it, and the entry still holds it when the run is over: it is consumed by
    no scope exit. In [sampleTwice] the variable [memo] is registered twice,
    once for every [memo = createMemo(...)]; at the exit of the program
    each of the two entries yields the three references of [memo], so that
    every one of them is yielded twice and reported twice. *)
Lemma reference_conservation_counterexample :
  let s := finalState sampleHoisted noOptions in
  let read := mkReference nHoistedRead false false true in
  let s2 := finalState sampleTwice noOptions in
  (run sampleHoisted noOptions = Ok tt s
   /\ registered s = [vCount nHoistedRead]
   /\ postFilter (vCount nHoistedRead) = [read]
   /\ yielded s = []
   /\ map references (signals s) = [[read]]
   /\ heldBy 0 s = [read])
  /\ (run sampleTwice noOptions = Ok tt s2
      /\ registered s2 = [vMemo; vMemo]
      /\ yieldedOf 0 s2 = postFilter vMemo
      /\ yieldedOf 1 s2 = postFilter vMemo
      /\ map y_reference (yielded s2) = postFilter vMemo ++ postFilter vMemo
      /\ List.length (postFilter vMemo) = 3
      /\ map loc (reports s2)
         = [AtNode 312; AtNode 322; AtNode 331; AtNode 312; AtNode 322; AtNode 331]).
Proof. cbv zeta. repeat apply conj; vm_compute; reflexivity. Qed.

Lemma reference_conservation_witness :
  let s := finalState sampleEffectLog noOptions in
  (forall e v, nth_error (registered s) e = Some v ->
     Permutation (yieldedOf e s ++ heldBy e s) (postFilter v)
     /\ (NoDup (postFilter v) -> NoDup (yieldedOf e s ++ heldBy e s)))
  /\ NoDup (map eid (signals s ++ props s))
  /\ (forall y, In y (yielded s) -> y_eid y < List.length (registered s))
  /\ (forall b, In b (signals s ++ props s) ->
        nth_error (registered s) (eid b) <> None).
Proof.
  apply (reference_conservation sampleEffectLog noOptions). vm_compute. reflexivity.
Defined.

Lemma signalBody_untracked_call_witness :
  signalBody sampleLog (mkReference nCountRead false false true) nProgram atProgram
  = Ok tt (set_reports [mkReport (AtNode 25) "untrackedReactive" [("name", "count")]]
                       atProgram).
Proof.
  apply (signalBody_untracked_call sampleLog atProgram [] (mkItem nProgram [] [] false)
           (mkReference nCountRead false false true) nCountCall).
  - reflexivity.
  - intros ts [].
  - reflexivity.
  - reflexivity.
  - reflexivity.
  - reflexivity.
Defined.

(** * Properties of the helpers and of further rules *)

(** ** Relations between the state before and after

    A reflexive and transitive relation that every step of a computation
    keeps is kept by the computation. *)

Section Relation.

Variable R : St -> St -> Prop.
Hypothesis R_refl : forall s, R s s.
Hypothesis R_trans : forall s1 s2 s3, R s1 s2 -> R s2 s3 -> R s1 s3.

Definition related {A} (m : M A) : Prop := forall s a s', m s = Ok a s' -> R s s'.

Lemma related_ret {A} (a : A) : related (ret a).
Proof. intros s b s' E. inversion E; subst. apply R_refl. Qed.

Lemma related_throw {A} (e : string) : related (@throw A e).
Proof. intros s b s' E. discriminate. Qed.

Lemma related_gets {A} (f : St -> A) : related (gets f).
Proof. intros s b s' E. inversion E; subst. apply R_refl. Qed.

Lemma related_bind {A B} (m : M A) (f : A -> M B) :
  related m -> (forall a, related (f a)) -> related (bind m f).
Proof.
  intros Hm Hf s b s' E. unfold bind in E. destruct (m s) as [a s1|] eqn:Em; [|discriminate].
  eapply R_trans; [eapply Hm|eapply Hf]; eauto.
Qed.

Lemma related_modify (f : St -> St) : (forall s, R s (f s)) -> related (modify f).
Proof. intros H s b s' E. inversion E; subst. apply H. Qed.

Lemma related_when (b : bool) (m : M unit) : (b = true -> related m) -> related (when b m).
Proof. intros H. destruct b; [apply H; reflexivity|apply related_ret]. Qed.

Lemma related_forEach_in {A} (l : list A) (f : A -> M unit) :
  (forall x, In x l -> related (f x)) -> related (forEach l f).
Proof.
  unfold forEach. induction l as [|x l IH]; intros H.
  - apply related_ret.
  - apply related_bind; [apply H; left; reflexivity|]. intros _. apply IH.
    intros y I. apply H. right. exact I.
Qed.

Lemma related_forEach {A} (l : list A) (f : A -> M unit) :
  (forall x, related (f x)) -> related (forEach l f).
Proof. intros H. apply related_forEach_in. intros x _. apply H. Qed.

Lemma related_findM {A} (p : A -> M bool) (l : list A) :
  (forall x, related (p x)) -> related (findM p l).
Proof.
  intros H. induction l as [|x l IH]; simpl.
  - apply related_ret.
  - apply related_bind; [apply H|]. intros [|]; [apply related_ret|apply IH].
Qed.

Lemma related_partitionM {A} (p : A -> M bool) (l : list A) :
  (forall x, related (p x)) -> related (partitionM p l).
Proof.
  intros H. induction l as [|x l IH]; simpl.
  - apply related_ret.
  - apply related_bind; [apply H|]. intros b. apply related_bind; [apply IH|].
    intros r. apply related_ret.
Qed.

Lemma related_currentScope : related currentScope.
Proof.
  intros s a s' E. unfold currentScope in E.
  destruct (List.length (frames s)); [discriminate|].
  destruct (nth_error _ _); inversion E; subst. apply R_refl.
Qed.

Lemma related_trace (src : Source) (cur n : Node) : related (trace src cur n).
Proof.
  unfold trace. destruct (traceFrom _ _ _ _); [apply related_ret|apply related_throw].
Qed.

End Relation.

(** ** What a run never does

    A relation between states that holds whatever the rule does to the
    stack, the registries and the import map, that survives the addition of
    a function to the set of synchronous callbacks and the report of a
    finding of one of the [SITES], holds between the start of every
    computation of the rule and its end. *)

Section Invariant.

Variable R : St -> St -> Prop.
Hypothesis R_refl : forall s, R s s.
Hypothesis R_trans : forall s1 s2 s3, R s1 s2 -> R s2 s3 -> R s1 s3.
Hypothesis R_frames : forall f s, R s (set_frames f s).
Hypothesis R_signals : forall l s, R s (set_signals l s).
Hypothesis R_props : forall l s, R s (set_props l s).
Hypothesis R_importMap : forall m s, R s (set_importMap m s).
Hypothesis R_registered : forall l s, R s (set_registered l s).
Hypothesis R_yielded : forall l s, R s (set_yielded l s).
Hypothesis R_sync : forall n s,
  isFunctionNode n = true -> R s (set_syncCallbacks (addNode n (syncCallbacks s)) s).
Hypothesis R_report : forall l mid d s,
  In (mid, map fst d) SITES -> R s (set_reports (reports s ++ [mkReport l mid d]) s).

Definition respects {A} (m : M A) : Prop := related R m.

Lemma respects_ret {A} (a : A) : respects (ret a).
Proof. apply related_ret, R_refl. Qed.

Lemma respects_throw {A} (e : string) : respects (@throw A e).
Proof. apply related_throw. Qed.

Lemma respects_gets {A} (f : St -> A) : respects (gets f).
Proof. apply related_gets, R_refl. Qed.

Lemma respects_bind {A B} (m : M A) (f : A -> M B) :
  respects m -> (forall a, respects (f a)) -> respects (bind m f).
Proof. apply related_bind, R_trans. Qed.

Lemma respects_modify (f : St -> St) : (forall s, R s (f s)) -> respects (modify f).
Proof. apply related_modify. Qed.

Lemma respects_when (b : bool) (m : M unit) : (b = true -> respects m) -> respects (when b m).
Proof. apply related_when, R_refl. Qed.

Lemma respects_forEach_in {A} (l : list A) (f : A -> M unit) :
  (forall x, In x l -> respects (f x)) -> respects (forEach l f).
Proof. apply related_forEach_in; assumption. Qed.

Lemma respects_forEach {A} (l : list A) (f : A -> M unit) :
  (forall x, respects (f x)) -> respects (forEach l f).
Proof. apply related_forEach; assumption. Qed.

Lemma respects_findM {A} (p : A -> M bool) (l : list A) :
  (forall x, respects (p x)) -> respects (findM p l).
Proof. apply related_findM; assumption. Qed.

Lemma respects_partitionM {A} (p : A -> M bool) (l : list A) :
  (forall x, respects (p x)) -> respects (partitionM p l).
Proof. apply related_partitionM; assumption. Qed.

Lemma respects_currentScope : respects currentScope.
Proof. apply related_currentScope, R_refl. Qed.

Lemma respects_trace (src : Source) (cur n : Node) : respects (trace src cur n).
Proof. apply related_trace, R_refl. Qed.

Lemma respects_report l mid d : In (mid, map fst d) SITES -> respects (report l mid d).
Proof. intros H. unfold report. apply respects_modify. intros s. apply R_report, H. Qed.

Lemma respects_addSyncCallback n : isFunctionNode n = true -> respects (addSyncCallback n).
Proof. intros H. unfold addSyncCallback. apply respects_modify. intros s. apply R_sync, H. Qed.

Lemma respects_pushSignal v d : respects (pushSignal v d).
Proof.
  unfold pushSignal. apply respects_modify. intros s.
  eapply R_trans; [apply R_signals|apply R_registered].
Qed.

Lemma respects_pushProps v d : respects (pushProps v d).
Proof.
  unfold pushProps. apply respects_modify. intros s.
  eapply R_trans; [apply R_props|apply R_registered].
Qed.

Lemma respects_set_registry which (f : St -> list Binding) :
  respects (modify (fun s => set_registry which (f s) s)).
Proof.
  apply respects_modify. intros s. destruct which; [apply R_signals|apply R_props].
Qed.

Create HintDb respects.

Hint Resolve respects_ret respects_throw respects_gets respects_currentScope
  respects_trace respects_pushSignal respects_pushProps respects_set_registry : respects.

(** What is known of the node at this point of the code. *)
Ltac function_node :=
  cbn [isFunctionNodeOpt] in *;
  repeat match goal with
         | H : _ && _ = true |- _ => apply andb_prop in H; destruct H
         end;
  assumption.

(** A finding of one of the sites. *)
Ltac known_site :=
  repeat match goal with
         | |- context [if ?c then _ else _] => destruct c
         end;
  cbv [SITES map fst In]; tauto.

Ltac respect :=
  match goal with
  | |- respects (ret _) => apply respects_ret
  | |- respects (throw _) => apply respects_throw
  | |- respects (gets _) => apply respects_gets
  | |- respects (bind _ _) => apply respects_bind; [|intros ?]
  | |- respects (when _ _) => apply respects_when; intros ?
  | |- respects (forEach _ _) => apply respects_forEach; intros ?
  | |- respects (findM _ _) => apply respects_findM; intros ?
  | |- respects (partitionM _ _) => apply respects_partitionM; intros ?
  | |- respects (report _ _ _) => apply respects_report; known_site
  | |- respects (addSyncCallback _) => apply respects_addSyncCallback; function_node
  | |- respects (modify (fun s => set_frames _ s)) =>
      apply respects_modify; intros ?; apply R_frames
  | |- respects (modify (fun s => set_signals _ s)) =>
      apply respects_modify; intros ?; apply R_signals
  | |- respects (modify (fun s => set_props _ s)) =>
      apply respects_modify; intros ?; apply R_props
  | |- respects (modify (fun s => set_importMap _ s)) =>
      apply respects_modify; intros ?; apply R_importMap
  | |- respects (modify (fun s => set_yielded _ s)) =>
      apply respects_modify; intros ?; apply R_yielded
  | |- respects (if ?c then _ else _) => destruct c eqn:?
  | |- respects (match ?x with _ => _ end) => destruct x eqn:?
  | |- respects _ => solve [auto with respects]
  | |- respects _ => progress cbv zeta
  end.

Ltac respect_all := repeat respect.

Lemma respects_parentScope : respects parentScope.
Proof. unfold parentScope. respect_all. Qed.

Lemma respects_modifyCurrentScope f : respects (modifyCurrentScope f).
Proof. unfold modifyCurrentScope. respect_all. Qed.

Hint Resolve respects_parentScope respects_modifyCurrentScope : respects.

Lemma respects_findDeepestDeclarationScope a b : respects (findDeepestDeclarationScope a b).
Proof. unfold findDeepestDeclarationScope. respect_all. Qed.

Hint Resolve respects_findDeepestDeclarationScope : respects.

Lemma respects_pushSignalHere v : respects (pushSignalHere v).
Proof. unfold pushSignalHere. respect_all. Qed.

Lemma respects_pushUniqueSignal v d : respects (pushUniqueSignal v d).
Proof. unfold pushUniqueSignal. respect_all. Qed.

Lemma respects_isReferenceInCurrentScope r : respects (isReferenceInCurrentScope r).
Proof. unfold isReferenceInCurrentScope. respect_all. Qed.

Lemma respects_logYield e r : respects (logYield e r).
Proof. unfold logYield. respect_all. Qed.

Hint Resolve respects_pushSignalHere respects_pushUniqueSignal
  respects_isReferenceInCurrentScope respects_logYield : respects.

Lemma respects_warnShouldDestructure n nth : respects (warnShouldDestructure n nth).
Proof.
  unfold warnShouldDestructure. destruct nth; apply respects_report; known_site.
Qed.

Lemma respects_warnShouldAssign n : respects (warnShouldAssign n).
Proof. unfold warnShouldAssign. respect_all. Qed.

Hint Resolve respects_warnShouldDestructure respects_warnShouldAssign : respects.

Lemma respects_markPropsOnCondition src n cb :
  (forall p, respects (cb p)) -> respects (markPropsOnCondition src n cb).
Proof. intros H. unfold markPropsOnCondition. respect_all. Qed.

Lemma respects_onFunctionEnter src n : respects (onFunctionEnter src n).
Proof.
  unfold onFunctionEnter. respect_all.
  apply respects_markPropsOnCondition. intros p. respect_all.
Qed.

Lemma respects_matchTrackedScope ts n : respects (matchTrackedScope ts n).
Proof. unfold matchTrackedScope. respect_all. Qed.

Lemma respects_pushUnnamedDerivedSignal n : respects (pushUnnamedDerivedSignal n).
Proof. unfold pushUnnamedDerivedSignal. respect_all. Qed.

Hint Resolve respects_onFunctionEnter respects_matchTrackedScope
  respects_pushUnnamedDerivedSignal : respects.

Lemma respects_handleTrackedScopes src i d : respects (handleTrackedScopes src i d).
Proof. unfold handleTrackedScopes. respect_all. Qed.

Hint Resolve respects_handleTrackedScopes : respects.

Lemma respects_signalBody src r d : respects (signalBody src r d).
Proof. unfold signalBody. respect_all. Qed.

Lemma respects_propsBody src r d : respects (propsBody src r d).
Proof. unfold propsBody. respect_all. Qed.

Hint Resolve respects_signalBody respects_propsBody : respects.

Lemma respects_checkForSyncCallbacks src n : respects (checkForSyncCallbacks src n).
Proof. unfold checkForSyncCallbacks. respect_all. Qed.

Lemma respects_checkForReactiveAssignment src cur id init0 :
  respects (checkForReactiveAssignment src cur id init0).
Proof. unfold checkForReactiveAssignment. respect_all. Qed.

Lemma respects_pushTrackedScope n e : respects (pushTrackedScope n e).
Proof. unfold pushTrackedScope. respect_all. Qed.

Hint Resolve respects_checkForSyncCallbacks respects_checkForReactiveAssignment
  respects_pushTrackedScope : respects.

Lemma respects_visitChild (f : Ast -> M unit) (kids : list Ast) (id : nat) :
  (forall k, In k kids -> respects (f k)) -> respects (visitChild f kids id).
Proof.
  unfold visitChild. induction kids as [|k kids IHk]; intros H; [apply respects_ret|].
  destruct (nid (astNode k) =? id); [apply H; left; reflexivity|].
  apply IHk. intros x I. apply H. right. exact I.
Qed.

Lemma respects_permissivelyTrack src cur t : respects (permissivelyTrack src cur t).
Proof.
  induction t as [n kids IH] using Ast_kids_ind. simpl.
  apply respects_bind; [auto with respects|]. intros traced.
  destruct (_ || _); [auto with respects|].
  destruct (visitorKeys (type n)) as [keys|]; [|apply respects_throw].
  apply respects_forEach. intros id. apply respects_visitChild. exact IH.
Qed.

Hint Resolve respects_permissivelyTrack : respects.

Lemma respects_permissivelyTrackArguments src cur args :
  respects (permissivelyTrackArguments src cur args).
Proof. unfold permissivelyTrackArguments, permissivelyTrackNode. respect_all. Qed.

Hint Resolve respects_permissivelyTrackArguments : respects.

Lemma respects_checkForTrackedScopes src options n :
  respects (checkForTrackedScopes src options n).
Proof. unfold checkForTrackedScopes. respect_all. Qed.

Lemma respects_onRenderCallback src n : respects (onRenderCallback src n).
Proof. unfold onRenderCallback. respect_all. Qed.

Lemma respects_handleImportDeclaration src n : respects (handleImportDeclaration src n).
Proof. unfold handleImportDeclaration. respect_all. Qed.

Lemma respects_onJSX : respects onJSX.
Proof. unfold onJSX. respect_all. Qed.

Hint Resolve respects_checkForTrackedScopes respects_onRenderCallback
  respects_handleImportDeclaration respects_onJSX : respects.

Lemma respects_enter src options n : respects (enter src options n).
Proof. unfold enter. respect_all. Qed.

Lemma respects_consumeReferencesInScope fuel which body i :
  (forall r d, respects (body r d)) -> respects (consumeReferencesInScope fuel which body i).
Proof.
  intros Hb. revert i. induction fuel as [|fuel IH]; intros i; simpl.
  - apply respects_throw.
  - respect_all.
Qed.

Lemma respects_onFunctionExit src n : respects (onFunctionExit src n).
Proof.
  unfold onFunctionExit, consumeSignalReferencesInScope, consumePropsReferencesInScope.
  respect_all;
    try (apply respects_markPropsOnCondition; intros p; respect_all);
    try (apply respects_consumeReferencesInScope; intros r d; auto with respects).
Qed.

Lemma respects_leave src n : respects (leave src n).
Proof.
  unfold leave. destruct (isProgramOrFunctionNode n);
    [apply respects_onFunctionExit|apply respects_ret].
Qed.

Lemma respects_walk src options t : respects (walk src options t).
Proof.
  induction t as [n kids IH] using Ast_kids_ind. simpl.
  apply respects_bind; [apply respects_enter|]. intros _.
  apply respects_bind; [apply respects_forEach_in, IH|]. intros _.
  apply respects_leave.
Qed.

Lemma respects_run src options s : run src options = Ok tt s -> R create s.
Proof. intros E. exact (respects_walk src options (ast src) create tt s E). Qed.

End Invariant.

(** *** Findings *)

Lemma Forall_app_intro {A} (P : A -> Prop) (l1 l2 : list A) :
  Forall P l1 -> Forall P l2 -> Forall P (l1 ++ l2).
Proof. intros H1 H2. apply Forall_app. split; assumption. Qed.

(** Every site but [shouldDestructure] without data uses a declared message
    and names what the message interpolates. *)
Lemma sites_render (r : Report) :
  In (site r) SITES -> Renders r \/ (messageId r = "shouldDestructure" /\ data r = []).
Proof.
  destruct r as [l mid d]. unfold site, Renders. cbn [messageId data].
  intros H. cbv [SITES In] in H.
  repeat match goal with
         | H : _ \/ _ |- _ => destruct H as [H|H]
         end; try contradiction;
    injection H as Hm Hd; subst mid;
    try (right; split; [reflexivity|]; destruct d; [reflexivity|discriminate]);
    left; rewrite <- Hd;
    (eexists; split; [cbv [MESSAGES In]; auto 10|]);
    cbv; intros a I; tauto.
Qed.

Lemma findings_from_sites (src : Source) (options : Options) (s : St) :
  run src options = Ok tt s -> Forall (fun r => In (site r) SITES) (reports s).
Proof.
  intros E.
  assert (H : exists new, reports s = reports create ++ new
                          /\ Forall (fun r => In (site r) SITES) new).
  { apply (respects_run
             (fun s s' => exists new, reports s' = reports s ++ new
                                      /\ Forall (fun r => In (site r) SITES) new))
      with (src := src) (options := options); try exact E.
    - intros s0. exists []. rewrite app_nil_r. auto.
    - intros s1 s2 s3 [n1 [E1 F1]] [n2 [E2 F2]]. exists (n1 ++ n2).
      rewrite E2, E1, app_assoc. split; [reflexivity|apply Forall_app_intro; assumption].
    - intros f s0. exists []. rewrite app_nil_r. auto.
    - intros l s0. exists []. rewrite app_nil_r. auto.
    - intros l s0. exists []. rewrite app_nil_r. auto.
    - intros m s0. exists []. rewrite app_nil_r. auto.
    - intros l s0. exists []. rewrite app_nil_r. auto.
    - intros l s0. exists []. rewrite app_nil_r. auto.
    - intros n s0 _. exists []. rewrite app_nil_r. auto.
    - intros l mid d s0 I. exists [mkReport l mid d]. split; [reflexivity|].
      constructor; [exact I|constructor]. }
  destruct H as [new [E' F]]. rewrite E'. exact F.
Qed.

(** Every finding of a run uses a message the rule declares and carries a
    value for every name the message interpolates; the one exception is
    [shouldDestructure] raised without data (by the branch for [splitProps]),
    whose message interpolates [nth]. *)
Theorem findings_render (src : Source) (options : Options) (s : St) :
  run src options = Ok tt s ->
  Forall (fun r => Renders r \/ (messageId r = "shouldDestructure" /\ data r = []))
         (reports s).
Proof.
  intros E. eapply Forall_impl; [|apply (findings_from_sites src options s E)].
  intros r. apply sites_render.
Qed.

(** *** Synchronous callbacks *)

(** Only functions are ever marked as synchronous callbacks. *)
Theorem syncCallbacks_are_functions (src : Source) (options : Options) (s : St) :
  run src options = Ok tt s ->
  Forall (fun f => isFunctionNode f = true) (syncCallbacks s).
Proof.
  intros E. apply Forall_forall. intros f I.
  assert (H : forall g, In g (syncCallbacks s) ->
                        In g (syncCallbacks create) \/ isFunctionNode g = true).
  { apply (respects_run
             (fun s s' => forall g, In g (syncCallbacks s') ->
                                    In g (syncCallbacks s) \/ isFunctionNode g = true))
      with (src := src) (options := options); try exact E; auto.
    - intros s1 s2 s3 H1 H2 g Ig. destruct (H2 g Ig) as [I2|F]; [apply H1, I2|right; exact F].
    - intros n s0 F g Ig. simpl in Ig. unfold addNode in Ig.
      destruct (existsb _ _); [left; exact Ig|].
      apply in_app_or in Ig. destruct Ig as [Ig|[Eg|[]]]; [left; exact Ig|].
      subst g. right. exact F. }
  destruct (H f I) as [[]|F]. exact F.
Qed.

(** ** The helpers at the top of the bundle *)

Lemma find_FirstThat {A} (p : A -> bool) (l : list A) (r : A) :
  List.find p l = Some r <-> FirstThat p l r.
Proof.
  unfold FirstThat. induction l as [|x l IH]; simpl.
  - split; [discriminate|]. intros [nearer [further [E _]]]. destruct nearer; discriminate.
  - destruct (p x) eqn:Px.
    + split.
      * intros E. inversion E; subst. exists [], l. auto.
      * intros [nearer [further [E [Pr F]]]]. destruct nearer as [|y nearer].
        -- inversion E; subst. reflexivity.
        -- inversion E; subst. inversion F; subst. congruence.
    + rewrite IH. split.
      * intros [nearer [further [E [Pr F]]]]. exists (x :: nearer), further.
        rewrite E. auto.
      * intros [nearer [further [E [Pr F]]]]. destruct nearer as [|y nearer].
        -- inversion E; subst. congruence.
        -- inversion E; subst. inversion F; subst. exists nearer, further. auto.
Qed.

Lemma find_None_Forall {A} (p : A -> bool) (l : list A) :
  List.find p l = None <-> Forall (fun x => p x = false) l.
Proof.
  induction l as [|x l IH]; simpl.
  - split; auto.
  - destruct (p x) eqn:Px.
    + split; [discriminate|]. intros F. inversion F; subst. congruence.
    + rewrite IH. split; [intros F; constructor; assumption|].
      intros F. inversion F; assumption.
Qed.

(** [find] returns the node itself or its nearest ancestor that passes the
    predicate, [findParent] the nearest proper ancestor that does; each
    returns [null] exactly when no such node exists. *)
Theorem find_nearest (n : Node) (predicate : Node -> bool) :
  (forall r, find n predicate = Some r <-> FirstThat predicate (n :: ancestors n) r)
  /\ (find n predicate = None <->
      Forall (fun x => predicate x = false) (n :: ancestors n))
  /\ (forall r, findParent n predicate = Some r <-> FirstThat predicate (ancestors n) r)
  /\ (findParent n predicate = None <-> Forall (fun x => predicate x = false) (ancestors n)).
Proof.
  assert (P : findParent n predicate = List.find predicate (ancestors n)).
  { unfold findParent. destruct n as [id t [p|] fs]; simpl; [|reflexivity].
    apply find_ancestors. }
  rewrite P, find_ancestors. repeat split;
    try apply find_FirstThat; try apply find_None_Forall.
Qed.

(** [findInScope] returns the nearest node, from [node] upwards, that passes
    the predicate, provided no node before it is the scope; the scope itself
    is returned only when it is the node the search starts at. *)
Theorem findInScope_within (n scope : Node) (predicate : Node -> bool) (r : Node) :
  findInScope n scope predicate = Some r <->
  exists nearer further,
    n :: ancestors n = nearer ++ r :: further
    /\ predicate r = true
    /\ Forall (fun x => predicate x = false /\ same x scope = false) nearer
    /\ (same r scope = true -> nearer = []).
Proof.
  unfold findInScope. rewrite find_ancestors.
  set (q := fun node2 => same node2 scope || predicate node2).
  split.
  - destruct (List.find q (n :: ancestors n)) as [found|] eqn:E.
    + apply find_FirstThat in E. destruct E as [nearer [further [L [Q F]]]].
      cbn [sameOpt]. intros H.
      assert (Sub : Forall (fun x => predicate x = false /\ same x scope = false) nearer).
      { eapply Forall_impl; [|exact F]. intros x Qx. unfold q in Qx.
        apply orb_false_elim in Qx. tauto. }
      destruct (same found scope) eqn:S.
      * destruct (predicate n) eqn:Pn; [|discriminate]. simpl in H. inversion H; subst r.
        destruct nearer as [|y nearer].
        -- exists [], further. split; [exact L|]. simpl in L. injection L as L1 L2.
           subst found. auto.
        -- exfalso. simpl in L. injection L as L1 L2. subst y.
           apply Forall_inv in F. unfold q in F. rewrite Pn, orb_true_r in F.
           discriminate.
      * simpl in H. inversion H; subst r. exists nearer, further.
        unfold q in Q. rewrite S in Q. simpl in Q. repeat split; auto.
        intros C. rewrite S in C. discriminate.
    + simpl. discriminate.
  - intros [nearer [further [L [Pr [F S]]]]].
    assert (E : List.find q (n :: ancestors n) = Some r).
    { apply find_FirstThat. exists nearer, further. split; [exact L|]. split.
      - unfold q. rewrite Pr. apply orb_true_r.
      - eapply Forall_impl; [|exact F]. intros x [Px Sx]. unfold q. rewrite Px, Sx.
        reflexivity. }
    rewrite E. cbn [sameOpt]. destruct (same r scope) eqn:Sr; [|reflexivity].
    rewrite (S eq_refl) in L. inversion L; subst. rewrite Pr. reflexivity.
Qed.

Lemma ignoreTransparentWrappersUp_eq (n : Node) :
  ignoreTransparentWrappersUp n
  = if isTransparentWrapper n
    then match parent n with
         | Some next => ignoreTransparentWrappersUp next
         | None => n
         end
    else n.
Proof. destruct n; reflexivity. Qed.

Lemma ancestors_eq (n : Node) :
  ancestors n = match parent n with Some p => p :: ancestors p | None => [] end.
Proof. destruct n; reflexivity. Qed.

(** [ignoreTransparentWrappers(node, true)] climbs through the wrappers above
    the node: every node passed is a wrapper, and the result is not one
    unless it has no parent. Applied twice it gives the same. *)
Theorem ignoreTransparentWrappersUp_stops (n : Node) :
  exists wrappers further,
    n :: ancestors n = wrappers ++ ignoreTransparentWrappersUp n :: further
    /\ Forall (fun x => isTransparentWrapper x = true) wrappers
    /\ (isTransparentWrapper (ignoreTransparentWrappersUp n) = true ->
        parent (ignoreTransparentWrappersUp n) = None)
    /\ ignoreTransparentWrappersUp (ignoreTransparentWrappersUp n)
       = ignoreTransparentWrappersUp n.
Proof.
  induction n as [n IH] using Node_parent_ind.
  rewrite (ignoreTransparentWrappersUp_eq n), (ancestors_eq n).
  destruct (isTransparentWrapper n) eqn:W.
  - destruct (parent n) as [p|] eqn:P.
    + destruct (IH p eq_refl) as [wrappers [further [L [F [S I]]]]].
      exists (n :: wrappers), further. rewrite L. repeat split; auto.
    + exists [], []. repeat split; auto.
      rewrite (ignoreTransparentWrappersUp_eq n), W, P. reflexivity.
  - exists [], (match parent n with Some p => p :: ancestors p | None => [] end).
    repeat split; auto.
    + rewrite W. discriminate.
    + rewrite (ignoreTransparentWrappersUp_eq n), W. reflexivity.
Qed.

(** *** [trackImports] *)

Lemma find_app_last {A} (p : A -> bool) (l : list A) (x : A) :
  List.find p (l ++ [x])
  = match List.find p l with
    | Some y => Some y
    | None => if p x then Some x else None
    end.
Proof.
  induction l as [|y l IH]; simpl; [reflexivity|]. destruct (p y); [reflexivity|exact IH].
Qed.

Lemma importGet_replaced (m : list (string * string)) (k v k' : string) :
  importGet (map (fun kv => if String.eqb (fst kv) k then (k, v) else kv) m) k'
  = if String.eqb k' k then option_map (fun _ => v) (importGet m k) else importGet m k'.
Proof.
  unfold importGet. induction m as [|[a b] m IH]; simpl.
  - destruct (String.eqb k' k); reflexivity.
  - destruct (String.eqb a k) eqn:A; simpl.
    + apply String.eqb_eq in A. subst a. rewrite (String.eqb_sym k k').
      destruct (String.eqb k' k) eqn:K; [reflexivity|exact IH].
    + destruct (String.eqb a k') eqn:A'.
      * apply String.eqb_eq in A'. subst a. rewrite A. reflexivity.
      * exact IH.
Qed.

Lemma importGet_importSet (m : list (string * string)) (k v k' : string) :
  importGet (importSet k v m) k' = if String.eqb k' k then Some v else importGet m k'.
Proof.
  unfold importSet. destruct (importGet m k) as [old|] eqn:I; simpl.
  - rewrite importGet_replaced, I. reflexivity.
  - unfold importGet in *. rewrite find_app_last. simpl.
    rewrite (String.eqb_sym k k'). destruct (String.eqb k' k) eqn:K.
    + apply String.eqb_eq in K. subst k'.
      destruct (List.find (fun kv => String.eqb (fst kv) k) m); [discriminate|reflexivity].
    + destruct (List.find (fun kv => String.eqb (fst kv) k') m); reflexivity.
Qed.

Definition recordPair (m : list (string * string)) (kv : string * string)
  : list (string * string) := importSet (fst kv) (snd kv) m.

Lemma importGet_fold (pairs : list (string * string)) :
  forall (m : list (string * string)) (k : string),
    importGet (fold_left recordPair pairs m) k
    = match lastBinding pairs k with
      | Some l => Some l
      | None => importGet m k
      end.
Proof.
  unfold lastBinding. induction pairs as [|[a b] pairs IH]; intros m k; simpl; [reflexivity|].
  rewrite IH, find_app_last. destruct (List.find _ (rev pairs)); simpl; [reflexivity|].
  unfold recordPair. simpl. rewrite importGet_importSet, (String.eqb_sym a k).
  destruct (String.eqb k a); reflexivity.
Qed.

Lemma set_importMap_same (s : St) : set_importMap (importMap s) s = s.
Proof. destruct s; reflexivity. Qed.

Lemma set_importMap_twice (m m' : list (string * string)) (s : St) :
  set_importMap m (set_importMap m' s) = set_importMap m s.
Proof. reflexivity. Qed.

Lemma matchImport_one (m : list (string * string)) (imported local : string) :
  matchImport m [imported] local = Some imported <-> importGet m imported = Some local.
Proof.
  unfold matchImport. simpl. destruct (importGet m imported) as [l|].
  - destruct (String.eqb l local) eqn:E.
    + apply String.eqb_eq in E. subst. tauto.
    + apply String.eqb_neq in E. split; [discriminate|]. intros H. inversion H. contradiction.
  - split; discriminate.
Qed.

Lemma handleImportDeclaration_loop (src : Source) (l : list (option Node)) :
  forall s,
    forEach l (fun specifier =>
      when (typeIs specifier "ImportSpecifier")
        match strOf (childOf src specifier "imported") "name",
              strOf (childOf src specifier "local") "name" with
        | Some imported, Some local =>
            modify (fun s => set_importMap (importSet imported local (importMap s)) s)
        | _, _ => ret tt
        end) s
    = Ok tt
        (set_importMap
           (fold_left recordPair
              (flat_map (fun specifier =>
                           if typeIs specifier "ImportSpecifier" then
                             match strOf (childOf src specifier "imported") "name",
                                   strOf (childOf src specifier "local") "name" with
                             | Some imported, Some local => [(imported, local)]
                             | _, _ => []
                             end
                           else []) l)
              (importMap s)) s).
Proof.
  unfold forEach. induction l as [|specifier l IH]; intros s; simpl.
  - rewrite set_importMap_same. reflexivity.
  - unfold bind, when.
    destruct (typeIs specifier "ImportSpecifier"); simpl; [|apply IH].
    destruct (strOf (childOf src specifier "imported") "name") as [imported|];
      [|apply IH].
    destruct (strOf (childOf src specifier "local") "name") as [local|];
      [|apply IH].
    simpl. unfold modify. rewrite IH. reflexivity.
Qed.

(** [handleImportDeclaration] changes the import map and nothing else. A
    declaration whose source does not begin with [solid-js] is ignored. For
    one that does, [matchImport(imported, local)] afterwards finds
    [imported] exactly when the declaration's last specifier importing that
    name binds it to [local], or, when the declaration does not import the
    name, when it did before. *)
Theorem handleImportDeclaration_records (src : Source) (n : Node) (s : St) :
  exists m,
    handleImportDeclaration src n s = Ok tt (set_importMap m s)
    /\ (test fromModule (strOf (child src n "source") "value") = false -> m = importMap s)
    /\ (test fromModule (strOf (child src n "source") "value") = true ->
        forall imported local,
          matchImport m [imported] local = Some imported <->
          match lastBinding (importedPairs src n) imported with
          | Some l => l = local
          | None => matchImport (importMap s) [imported] local = Some imported
          end).
Proof.
  unfold handleImportDeclaration.
  destruct (test fromModule (strOf (child src n "source") "value")) eqn:T; unfold when.
  - exists (fold_left recordPair (importedPairs src n) (importMap s)). split; [|split].
    + apply handleImportDeclaration_loop.
    + discriminate.
    + intros _ imported local. rewrite matchImport_one, importGet_fold.
      destruct (lastBinding _ _) as [l|]; [|symmetry; apply matchImport_one].
      split; [intros H; inversion H; reflexivity|intros H; subst; reflexivity].
  - exists (importMap s). rewrite set_importMap_same.
    split; [reflexivity|]. split; [reflexivity|discriminate].
Qed.

(** ** [class ScopeStack]: entries of derived signals *)

Lemma set_signals_same (s : St) : set_signals (signals s) s = s.
Proof. destruct s; reflexivity. Qed.

Lemma set_declarationScope_same (b : Binding) :
  set_declarationScope (declarationScope b) b = b.
Proof. destruct b; reflexivity. Qed.

Lemma updateAt_same {A} (f : A -> A) (l : list A) (i : nat) (x : A) :
  nth_error l i = Some x -> f x = x -> updateAt i f l = l.
Proof.
  revert i. induction l as [|y l IH]; intros [|i] N E; simpl in *; try discriminate.
  - inversion N; subst. rewrite E. reflexivity.
  - rewrite (IH i N E). reflexivity.
Qed.

Lemma updateAt_twice {A} (f : A -> A) (l : list A) (i : nat) :
  (forall x, f (f x) = f x) -> updateAt i f (updateAt i f l) = updateAt i f l.
Proof.
  intros H. revert i. induction l as [|y l IH]; intros [|i]; simpl; try reflexivity.
  - rewrite H. reflexivity.
  - rewrite IH. reflexivity.
Qed.

Lemma findIndex_updateAt {A} (p : A -> bool) (f : A -> A) (l : list A) (i : nat) :
  (forall x, p (f x) = p x) -> findIndex p (updateAt i f l) = findIndex p l.
Proof.
  intros H. revert i. induction l as [|y l IH]; intros [|i]; simpl; try reflexivity.
  - rewrite H. reflexivity.
  - rewrite IH. reflexivity.
Qed.

Lemma findIndex_app_last {A} (p : A -> bool) (l : list A) (x : A) :
  findIndex p l = None -> p x = true -> findIndex p (l ++ [x]) = Some (List.length l).
Proof.
  induction l as [|y l IH]; simpl; intros F P.
  - rewrite P. reflexivity.
  - destruct (p y); [discriminate|]. destruct (findIndex p l); [discriminate|].
    rewrite (IH eq_refl P). reflexivity.
Qed.

Lemma find_ext_in {A} (p q : A -> bool) (l : list A) :
  (forall x, In x l -> p x = q x) -> List.find p l = List.find q l.
Proof.
  induction l as [|y l IH]; simpl; intros H; [reflexivity|].
  rewrite <- (H y (or_introl eq_refl)). destruct (p y); [reflexivity|].
  apply IH. intros x I. apply H. right. exact I.
Qed.

Lemma same_sym (a b : Node) : same a b = same b a.
Proof. unfold same. apply Nat.eqb_sym. Qed.

Lemma same_refl (a : Node) : same a a = true.
Proof. unfold same. apply Nat.eqb_refl. Qed.

(** The deeper of [r] and [b] is [r] again, when [r] was found as the deeper
    of [a] and [b]. *)
Lemma findDeepestDeclarationScope_again (a b r : Node) (s s1 : St) :
  frames s1 = frames s ->
  findDeepestDeclarationScope a b s = Ok r s ->
  findDeepestDeclarationScope r b s1 = Ok r s1.
Proof.
  intros Fr. unfold findDeepestDeclarationScope.
  destruct (same a b) eqn:Sab.
  - intros H. inversion H; subst r. rewrite Sab. reflexivity.
  - unfold bind, gets.
    destruct (List.find _ (rev (frames s))) as [item|] eqn:F; [|discriminate].
    intros H. inversion H; subst r. clear H.
    destruct (same (node item) b) eqn:Srb; [reflexivity|].
    rewrite Fr.
    pose proof (find_some _ _ F) as [_ Pi].
    rewrite (same_sym b), Srb, orb_false_r in Pi.
    assert (E : nid a = nid (node item)) by (apply Nat.eqb_eq; exact Pi).
    rewrite (find_ext_in _ (fun item0 => same a (node item0) || same b (node item0))).
    + rewrite F. reflexivity.
    + intros x _. unfold same. rewrite E. reflexivity.
Qed.

(** [pushUniqueSignal] called again with the same variable and scope changes
    nothing: the entry is there, and its declaration scope is already the
    deeper of the two. *)
Theorem pushUniqueSignal_idempotent (v : ScopeVariable) (d : Node) (s s1 : St) :
  pushUniqueSignal v d s = Ok tt s1 -> pushUniqueSignal v d s1 = Ok tt s1.
Proof.
  unfold pushUniqueSignal, bind, gets.
  destruct (findIndex _ (signals s)) as [i|] eqn:F.
  - destruct (nth_error (signals s) i) as [found|] eqn:N.
    + destruct (findDeepestDeclarationScope (declarationScope found) d s) as [r s0|e] eqn:D;
        [|discriminate].
      assert (s0 = s).
      { unfold findDeepestDeclarationScope, bind, gets in D.
        destruct (same _ _); [inversion D; reflexivity|].
        destruct (List.find _ _); inversion D; reflexivity. }
      subst s0. unfold modify. intros H. inversion H; subst s1. clear H.
      cbn [signals set_signals].
      rewrite findIndex_updateAt, F by reflexivity.
      rewrite nth_error_updateAt, Nat.eqb_refl, N. cbn [option_map].
      cbn [declarationScope set_declarationScope].
      match goal with
      | |- context [findDeepestDeclarationScope r d ?s1] =>
          rewrite (findDeepestDeclarationScope_again _ _ _ s s1 eq_refl D)
      end. unfold modify. cbn [signals set_signals].
      rewrite updateAt_twice by reflexivity. reflexivity.
    + intros H. inversion H; subst s1. rewrite F, N. reflexivity.
  - unfold pushSignal, modify. intros H. inversion H; subst s1. clear H.
    cbn [signals set_signals set_registered].
    rewrite (findIndex_app_last _ _ _ F) by (unfold sameVariable; apply Nat.eqb_refl).
    rewrite nth_error_app2, Nat.sub_diag by lia. cbn [nth_error].
    unfold findDeepestDeclarationScope. cbn [declarationScope newBinding].
    rewrite same_refl. unfold ret.
    cbn [signals set_signals set_registered].
    rewrite (updateAt_same _ _ _ (newBinding v d s));
      [destruct s; reflexivity| |reflexivity].
    rewrite nth_error_app2, Nat.sub_diag by lia. reflexivity.
Qed.

(** [pushUniqueSignal] never gives a variable a second entry: it adds an
    entry exactly when the variable has none. *)
Theorem pushUniqueSignal_unique (v : ScopeVariable) (d : Node) (s s1 : St) :
  NoDup (map (fun b => v_id (variable b)) (signals s)) ->
  pushUniqueSignal v d s = Ok tt s1 ->
  NoDup (map (fun b => v_id (variable b)) (signals s1))
  /\ map variable (signals s1)
     = (if existsb (fun b => sameVariable (variable b) v) (signals s)
        then map variable (signals s)
        else map variable (signals s) ++ [v]).
Proof.
  intros ND. unfold pushUniqueSignal, bind, gets.
  destruct (findIndex _ (signals s)) as [i|] eqn:F.
  - destruct (findIndex_nth _ _ _ F) as [found [N P]]. rewrite N.
    assert (X : existsb (fun b => sameVariable (variable b) v) (signals s) = true).
    { apply existsb_exists. exists found. split; [|exact P].
      eapply nth_error_In. exact N. }
    rewrite X.
    destruct (findDeepestDeclarationScope _ _ s) as [r s0|e] eqn:D; [|discriminate].
    assert (s0 = s).
    { unfold findDeepestDeclarationScope, bind, gets in D.
      destruct (same _ _); [inversion D; reflexivity|].
      destruct (List.find _ _); inversion D; reflexivity. }
    subst s0. unfold modify. intros H. inversion H; subst s1. clear H.
    cbn [signals set_signals]. rewrite !map_updateAt by reflexivity. auto.
  - rewrite (findIndex_None_existsb _ _ F).
    unfold pushSignal, modify. intros H. inversion H; subst s1. clear H.
    cbn [signals set_signals set_registered]. rewrite !map_app. simpl. split; [|reflexivity].
    apply NoDup_app; [exact ND|repeat constructor; intros []|].
    intros x I [E|[]]. subst x. apply in_map_iff in I. destruct I as [b [E I]].
    apply findIndex_None_existsb in F.
    assert (C : existsb (fun b => sameVariable (variable b) v) (signals s) = true).
    { apply existsb_exists. exists b. split; [exact I|]. unfold sameVariable.
      rewrite E. apply Nat.eqb_refl. }
    congruence.
Qed.

(** ** [checkForReactiveAssignment] *)

Definition Outcome (s s' : St) : Prop :=
  frames s' = frames s /\ syncCallbacks s' = syncCallbacks s
  /\ importMap s' = importMap s /\ yielded s' = yielded s
  /\ (Registers s s' \/ Warns s s').

Definition outcome (m : M unit) : Prop := forall s s', m s = Ok tt s' -> Outcome s s'.

Lemma outcome_ret : outcome (ret tt).
Proof.
  intros s s' E. inversion E; subst. unfold Outcome, Registers. repeat split; auto.
  left. split; [reflexivity|]. exists [], []. rewrite !app_nil_r. auto.
Qed.

Lemma outcome_registers (m : M unit) :
  (forall s s', m s = Ok tt s' ->
     exists newSignals newProps newRegistered,
       s' = set_registered (registered s ++ newRegistered)
              (set_props (props s ++ newProps) (set_signals (signals s ++ newSignals) s))) ->
  outcome m.
Proof.
  intros H s s' E. destruct (H s s' E) as [a [b [c E']]]. subst s'.
  unfold Outcome, Registers. simpl. repeat split; auto. left. split; [reflexivity|].
  exists a, b. auto.
Qed.

Lemma outcome_pushSignal (v : ScopeVariable) :
  outcome (c <- currentScope ;; pushSignal v (node c)).
Proof.
  apply outcome_registers. intros s s' E. unfold bind in E.
  destruct (currentScope s) as [c s0|] eqn:C; [|discriminate].
  assert (s0 = s) by (unfold currentScope in C; destruct (List.length _);
                      [discriminate|destruct (nth_error _ _); inversion C; reflexivity]).
  subst s0. inversion E. exists [newBinding v (node c) s], [], [v].
  destruct s; simpl. rewrite app_nil_r. reflexivity.
Qed.

Lemma outcome_pushProps (v : ScopeVariable) :
  outcome (c <- currentScope ;; pushProps v (node c)).
Proof.
  apply outcome_registers. intros s s' E. unfold bind in E.
  destruct (currentScope s) as [c s0|] eqn:C; [|discriminate].
  assert (s0 = s) by (unfold currentScope in C; destruct (List.length _);
                      [discriminate|destruct (nth_error _ _); inversion C; reflexivity]).
  subst s0. inversion E. exists [], [newBinding v (node c) s], [v].
  destruct s; simpl. rewrite app_nil_r. reflexivity.
Qed.

Lemma outcome_pushSignalHere (v : ScopeVariable) : outcome (pushSignalHere v).
Proof. apply outcome_pushSignal. Qed.

Lemma outcome_pushProps_each (vars : list ScopeVariable) :
  outcome (forEach vars (fun v => c <- currentScope ;; pushProps v (node c))).
Proof.
  apply outcome_registers. unfold forEach.
  induction vars as [|v vars IH]; intros s s' E; simpl in E.
  - inversion E. exists [], [], []. destruct s'; simpl. rewrite !app_nil_r. reflexivity.
  - unfold bind at 1 in E.
    destruct ((c <- currentScope ;; pushProps v (node c)) s) as [[] s1|] eqn:E1;
      [|discriminate].
    unfold bind in E1. destruct (currentScope s) as [c s0|] eqn:C; [|discriminate].
    assert (s0 = s) by (unfold currentScope in C; destruct (List.length _);
                        [discriminate|destruct (nth_error _ _); inversion C; reflexivity]).
    subst s0. inversion E1; subst s1. clear E1.
    destruct (IH _ _ E) as [a [b [c' E']]]. subst s'.
    exists a, (newBinding v (node c) s :: b), (v :: c'). destruct s; simpl.
    rewrite <- !app_assoc. reflexivity.
Qed.

Lemma outcome_warnShouldDestructure (n : Node) (nth : option string) :
  outcome (warnShouldDestructure n nth).
Proof.
  intros s s' E. inversion E; subst. unfold Outcome, Warns. simpl. repeat split; auto.
  right. repeat split; auto. exists (nid n). left. eexists. reflexivity.
Qed.

Lemma outcome_warnShouldAssign (n : Node) : outcome (warnShouldAssign n).
Proof.
  intros s s' E. inversion E; subst. unfold Outcome, Warns. simpl. repeat split; auto.
  right. repeat split; auto. exists (nid n). right. reflexivity.
Qed.

Lemma outcome_gets {A} (g : St -> A) (f : A -> M unit) :
  (forall a, outcome (f a)) -> outcome (bind (gets g) f).
Proof. intros H s s' E. exact (H (g s) s s' E). Qed.

Lemma outcome_checkForReactiveAssignment
  (src : Source) (cur : Node) (id : option Node) (init0 : Node) :
  outcome (checkForReactiveAssignment src cur id init0).
Proof.
  unfold checkForReactiveAssignment. apply outcome_gets. intros imports. cbv zeta.
  repeat match goal with
         | |- outcome (ret tt) => apply outcome_ret
         | |- outcome (warnShouldDestructure _ _) => apply outcome_warnShouldDestructure
         | |- outcome (warnShouldAssign _) => apply outcome_warnShouldAssign
         | |- outcome (pushSignalHere _) => apply outcome_pushSignalHere
         | |- outcome (forEach _ _) => apply outcome_pushProps_each
         | |- outcome (bind currentScope (fun c => pushSignal _ _)) =>
             apply outcome_pushSignal
         | |- outcome (bind currentScope (fun c => pushProps _ _)) =>
             apply outcome_pushProps
         | |- outcome (if ?c then _ else _) => destruct c
         | |- outcome (match ?x with _ => _ end) => destruct x
         end.
Qed.

(** [checkForReactiveAssignment] either registers variables (none, one or,
    for [splitProps], several) and reports nothing, or it reports once that
    the result of the call should be destructured or assigned and registers
    nothing; it leaves the stack, the synchronous callbacks and the import
    map alone. *)
Theorem checkForReactiveAssignment_outcome
  (src : Source) (cur : Node) (id : option Node) (init0 : Node) (s s' : St) :
  checkForReactiveAssignment src cur id init0 s = Ok tt s' ->
  frames s' = frames s /\ syncCallbacks s' = syncCallbacks s
  /\ importMap s' = importMap s
  /\ (Registers s s' \/ Warns s s').
Proof.
  intros E. destruct (outcome_checkForReactiveAssignment src cur id init0 s s' E)
    as [A [B [C [_ D]]]]. auto.
Qed.

(** ** The stack at a scope exit *)

(** The frames are those of the same nodes. *)
Definition SameStack (s s' : St) : Prop := map node (frames s') = map node (frames s).

Lemma SameStack_refl (s : St) : SameStack s s.
Proof. reflexivity. Qed.

Lemma SameStack_trans (s1 s2 s3 : St) : SameStack s1 s2 -> SameStack s2 s3 -> SameStack s1 s3.
Proof. unfold SameStack. congruence. Qed.

Ltac same_stack :=
  match goal with
  | |- related SameStack (ret _) => apply related_ret, SameStack_refl
  | |- related SameStack (throw _) => apply related_throw
  | |- related SameStack (gets _) => apply related_gets, SameStack_refl
  | |- related SameStack currentScope => apply related_currentScope, SameStack_refl
  | |- related SameStack (bind _ _) => apply related_bind; [apply SameStack_trans| |intros ?]
  | |- related SameStack (when _ _) => apply related_when; [apply SameStack_refl|intros ?]
  | |- related SameStack (forEach _ _) =>
      apply related_forEach; [apply SameStack_refl|apply SameStack_trans|intros ?]
  | |- related SameStack (findM _ _) =>
      apply related_findM; [apply SameStack_refl|apply SameStack_trans|intros ?]
  | |- related SameStack (partitionM _ _) =>
      apply related_partitionM; [apply SameStack_refl|apply SameStack_trans|intros ?]
  | |- related SameStack (modify _) =>
      apply related_modify; intros ?; unfold SameStack; cbn [frames set_frames set_signals
        set_props set_reports set_registered set_yielded set_syncCallbacks set_importMap];
      first [reflexivity | apply map_node_updateAt; reflexivity]
  | |- related SameStack (if ?c then _ else _) => destruct c
  | |- related SameStack (match ?x with _ => _ end) => destruct x
  | |- related SameStack _ => solve [auto with sameStack]
  | |- related SameStack _ => progress cbv zeta
  end.

Create HintDb sameStack.

Lemma sameStack_parentScope : related SameStack parentScope.
Proof. unfold parentScope. repeat same_stack. Qed.

Lemma sameStack_report l mid d : related SameStack (report l mid d).
Proof. unfold report. repeat same_stack. Qed.

Lemma sameStack_pushSignal v d : related SameStack (pushSignal v d).
Proof. unfold pushSignal. repeat same_stack. Qed.

Lemma sameStack_pushProps v d : related SameStack (pushProps v d).
Proof. unfold pushProps. repeat same_stack. Qed.

Lemma sameStack_findDeepestDeclarationScope a b :
  related SameStack (findDeepestDeclarationScope a b).
Proof. unfold findDeepestDeclarationScope. repeat same_stack. Qed.

#[export] Hint Resolve sameStack_parentScope sameStack_report sameStack_pushSignal
  sameStack_pushProps sameStack_findDeepestDeclarationScope : sameStack.

Lemma sameStack_pushUniqueSignal v d : related SameStack (pushUniqueSignal v d).
Proof. unfold pushUniqueSignal. repeat same_stack. Qed.

Lemma sameStack_matchTrackedScope ts n : related SameStack (matchTrackedScope ts n).
Proof. unfold matchTrackedScope. repeat same_stack. Qed.

Lemma sameStack_pushUnnamedDerivedSignal n : related SameStack (pushUnnamedDerivedSignal n).
Proof. unfold pushUnnamedDerivedSignal. repeat same_stack. Qed.

Lemma sameStack_isReferenceInCurrentScope r : related SameStack (isReferenceInCurrentScope r).
Proof. unfold isReferenceInCurrentScope. repeat same_stack. Qed.

Lemma sameStack_logYield e r : related SameStack (logYield e r).
Proof. unfold logYield. repeat same_stack. Qed.

#[export] Hint Resolve sameStack_pushUniqueSignal sameStack_matchTrackedScope
  sameStack_pushUnnamedDerivedSignal sameStack_isReferenceInCurrentScope
  sameStack_logYield : sameStack.

Lemma sameStack_handleTrackedScopes src i d : related SameStack (handleTrackedScopes src i d).
Proof. unfold handleTrackedScopes. repeat same_stack. Qed.

#[export] Hint Resolve sameStack_handleTrackedScopes : sameStack.

Lemma sameStack_signalBody src r d : related SameStack (signalBody src r d).
Proof. unfold signalBody. repeat same_stack. Qed.

Lemma sameStack_propsBody src r d : related SameStack (propsBody src r d).
Proof. unfold propsBody. repeat same_stack. Qed.

Lemma sameStack_markPropsOnCondition src n cb :
  (forall p, related SameStack (cb p)) -> related SameStack (markPropsOnCondition src n cb).
Proof. intros H. unfold markPropsOnCondition. repeat same_stack. Qed.

Lemma sameStack_consumeReferencesInScope fuel which body i :
  (forall r d, related SameStack (body r d)) ->
  related SameStack (consumeReferencesInScope fuel which body i).
Proof.
  intros Hb. revert i. induction fuel as [|fuel IH]; intros i; simpl.
  - apply related_throw.
  - repeat same_stack. apply related_modify. intros s. destruct which; reflexivity.
Qed.

#[export] Hint Resolve sameStack_signalBody sameStack_propsBody : sameStack.

Lemma removelast_map {A B} (f : A -> B) (l : list A) :
  map f (removelast l) = removelast (map f l).
Proof.
  induction l as [|x l IH]; [reflexivity|]. destruct l as [|y l]; [reflexivity|].
  change (f x :: map f (removelast (y :: l)) = f x :: removelast (map f (y :: l))).
  rewrite IH. reflexivity.
Qed.

(** A scope exit that is not the exit of a synchronous callback pops exactly
    one frame, whatever its loops report, push or promote on the way. *)
Theorem onFunctionExit_pops_one_frame
  (src : Source) (n : Node) (s s' : St) (rest : list ScopeStackItem) (cur : ScopeStackItem) :
  frames s = rest ++ [cur] ->
  isFunctionNode n && existsb (same n) (syncCallbacks s) = false ->
  onFunctionExit src n s = Ok tt s' ->
  map node (frames s') = map node rest.
Proof.
  intros F NS E. unfold onFunctionExit in E. unfold bind at 1 in E.
  match type of E with
  | match ?m s with _ => _ end = _ => destruct (m s) as [[] s1|] eqn:E1; [|discriminate]
  end.
  assert (S1 : SameStack s s1 /\ syncCallbacks s1 = syncCallbacks s).
  { split.
    - refine (_ s tt s1 E1). apply related_when.
      + apply SameStack_refl.
      + intros _. apply sameStack_markPropsOnCondition. intros p. repeat same_stack.
    - refine (_ s tt s1 E1).
      apply (related_when (fun s s' => syncCallbacks s' = syncCallbacks s));
        [reflexivity|]. intros _. unfold markPropsOnCondition.
      repeat match goal with
             | |- related _ (ret _) => apply related_ret; reflexivity
             | |- related _ (bind _ _) =>
                 apply related_bind; [intros ? ? ?; congruence| |intros ?]
             | |- related _ currentScope => apply related_currentScope; reflexivity
             | |- related _ (pushProps _ _) =>
                 unfold pushProps; apply related_modify; reflexivity
             | |- related _ (if ?c then _ else _) => destruct c
             | |- related _ (match ?x with _ => _ end) => destruct x
             end. }
  destruct S1 as [S1 Y1]. unfold bind at 1, gets in E. rewrite Y1, NS in E.
  unfold consumeSignalReferencesInScope, consumePropsReferencesInScope in E.
  assert (L : related SameStack
                (n0 <- gets (fun s => List.length (signals s)) ;;
                 consumeReferencesInScope (n0 + 2) Signals (signalBody src) 0 ;;
                 modify (fun s => set_signals (filter hasReferences (signals s)) s))).
  { repeat same_stack. apply sameStack_consumeReferencesInScope. auto with sameStack. }
  assert (L' : related SameStack
                 (n0 <- gets (fun s => List.length (props s)) ;;
                  consumeReferencesInScope (n0 + 1) Props (propsBody src) 0 ;;
                  modify (fun s => set_props (filter hasReferences (props s)) s))).
  { repeat same_stack. apply sameStack_consumeReferencesInScope. auto with sameStack. }
  unfold bind at 1 in E.
  match type of E with
  | match ?m s1 with _ => _ end = _ => destruct (m s1) as [[] s2|] eqn:E2; [|discriminate]
  end.
  apply L in E2. unfold bind at 1 in E.
  match type of E with
  | match ?m s2 with _ => _ end = _ => destruct (m s2) as [[] s3|] eqn:E3; [|discriminate]
  end.
  apply L' in E3. unfold bind at 1 in E.
  destruct (currentScope s3) as [c s4|] eqn:C; [|discriminate].
  apply (related_currentScope SameStack SameStack_refl) in C.
  unfold bind at 1 in E.
  match type of E with
  | match ?m s4 with _ => _ end = _ => destruct (m s4) as [[] s5|] eqn:E5; [|discriminate]
  end.
  assert (S5 : SameStack s4 s5).
  { eapply (related_forEach SameStack SameStack_refl SameStack_trans); [|exact E5].
    intros x. cbv beta. repeat same_stack. }
  unfold modify in E. inversion E; subst s'. cbn [frames set_frames].
  rewrite removelast_map. unfold SameStack in *.
  rewrite S5, C, E3, E2, S1, F, map_app. simpl. apply removelast_last.
Qed.

(** ** Synchronous callbacks at function entry and exit *)

Lemma currentScope_pure (s s0 : St) (c : ScopeStackItem) :
  currentScope s = Ok c s0 -> s0 = s.
Proof.
  unfold currentScope. destruct (List.length _); [discriminate|].
  destruct (nth_error _ _); intros E; inversion E; reflexivity.
Qed.

Lemma currentScope_nonempty (s : St) :
  frames s <> [] -> exists c, currentScope s = Ok c s.
Proof.
  intros NE. destruct (exists_last NE) as [rest [cur E]]. exists cur.
  apply (currentScope_top s rest cur E).
Qed.

(** A function marked as a synchronous callback gets no frame: entering it
    changes nothing, and leaving it pops nothing, consumes nothing and
    reports nothing; at most the function's parameter is registered as
    props. *)
Theorem sync_callback_has_no_frame (src : Source) (n : Node) (s : St) :
  isFunctionNode n = true ->
  existsb (same n) (syncCallbacks s) = true ->
  frames s <> [] ->
  onFunctionEnter src n s = Ok tt s
  /\ exists s', onFunctionExit src n s = Ok tt s'
                /\ (s' = s \/ exists v, pushProps v n s = Ok tt s').
Proof.
  intros Fn Sy NE. split.
  - unfold onFunctionEnter, bind, gets. rewrite Fn, Sy. reflexivity.
  - destruct (currentScope_nonempty s NE) as [c C].
    unfold onFunctionExit. rewrite Fn. unfold when, bind at 1.
    assert (H : exists s', markPropsOnCondition src n
                  (fun props =>
                     if negb (test isPropsByName (str props "name")) then
                       c <- currentScope ;;
                       if hasJSX c then
                         match getFunctionName src n with
                         | Some functionName =>
                             ret (negb (String.eqb functionName "")
                                  && negb (isDOMElementName functionName))
                         | None => ret false
                         end
                       else ret false
                     else ret false) s = Ok tt s'
                  /\ (s' = s \/ exists v, pushProps v n s = Ok tt s')).
    { assert (Same : forall m : M unit, m s = Ok tt s ->
                exists s', m s = Ok tt s'
                           /\ (s' = s \/ exists v, pushProps v n s = Ok tt s'))
        by (intros m Em; exists s; auto).
      unfold markPropsOnCondition.
      destruct (childList src n "params") as [|[param|] [|]];
        try (apply Same; reflexivity).
      match goal with
      | |- context [if ?c then _ else _] => destruct c; [|apply Same; reflexivity]
      end.
      unfold bind at 1.
      destruct (negb (test isPropsByName (str param "name")));
        [|apply Same; reflexivity].
      unfold bind at 1. rewrite C.
      destruct (hasJSX c); [|apply Same; reflexivity].
      destruct (getFunctionName src n) as [name|]; [|apply Same; reflexivity].
      unfold ret at 1.
      match goal with
      | |- context [if ?c then _ else _] => destruct c; [|apply Same; reflexivity]
      end.
      destruct (findVariableOf src n (Some param)) as [v|]; [|apply Same; reflexivity].
      eexists. split; [reflexivity|]. right. exists v. reflexivity. }
    destruct H as [s' [E H]]. rewrite E. exists s'. split; [|exact H].
    unfold bind, gets.
    assert (Y : syncCallbacks s' = syncCallbacks s).
    { destruct H as [H|[v H]]; [subst; reflexivity|]. inversion H. reflexivity. }
    rewrite Y, Sy. reflexivity.
Qed.

(** ** Tracked scopes *)

Lemma findM_eval {A} (p : A -> M bool) (f : A -> bool) (l : list A) (s : St) :
  (forall x, In x l -> p x s = Ok (f x) s) -> findM p l s = Ok (List.find f l) s.
Proof.
  induction l as [|x l IH]; simpl; intros H; [reflexivity|].
  unfold bind. rewrite (H x (or_introl eq_refl)). destruct (f x); [reflexivity|].
  apply IH. intros y I. apply H. right. exact I.
Qed.

Lemma matchTrackedScope_eval
  (s : St) (rest : list ScopeStackItem) (cur : ScopeStackItem)
  (trackedScope : TrackedScope) (n : Node) :
  frames s = rest ++ [cur] ->
  matchTrackedScope trackedScope n s = Ok (matchesTrackedScope (node cur) trackedScope n) s.
Proof.
  intros E. unfold matchTrackedScope, matchesTrackedScope.
  destruct (expect trackedScope); try reflexivity.
  unfold bind. rewrite (currentScope_top s rest cur E). reflexivity.
Qed.

Lemma find_existsb {A} (f : A -> bool) (l : list A) : isSome (List.find f l) = existsb f l.
Proof.
  induction l as [|x l IH]; simpl; [reflexivity|]. destruct (f x); [reflexivity|exact IH].
Qed.

(** A read that a tracked scope of the frame being left matches is passed
    without a finding and without a change of state: the read is the very
    node of a [function] or [called-function] scope, or it lies within an
    [expression] scope. *)
Theorem handleTrackedScopes_tracked
  (src : Source) (s : St) (rest : list ScopeStackItem) (cur : ScopeStackItem)
  (identifier' d : Node) :
  frames s = rest ++ [cur] ->
  tracked cur identifier' = true ->
  handleTrackedScopes src identifier' d s = Ok tt s.
Proof.
  intros E T. unfold handleTrackedScopes, bind at 1.
  rewrite (currentScope_top s rest cur E). unfold bind at 1.
  rewrite (findM_eval _ (fun ts => matchesTrackedScope (node cur) ts identifier')).
  - rewrite find_existsb. unfold tracked in T. rewrite T. reflexivity.
  - intros ts _. apply (matchTrackedScope_eval s rest cur ts identifier' E).
Qed.

(** ** The findings for unnamed derived signals *)

Lemma set_references_same (b : Binding) : set_references (references b) b = b.
Proof. destruct b; reflexivity. Qed.

Lemma set_registry_same (which : Registry) (s : St) :
  set_registry which (registry which s) s = s.
Proof. destruct which; destruct s; reflexivity. Qed.

Lemma partitionM_all_false {A} (p : A -> M bool) (l : list A) (s : St) :
  (forall x, In x l -> p x s = Ok false s) -> partitionM p l s = Ok ([], l) s.
Proof.
  induction l as [|x l IH]; simpl; intros H; [reflexivity|].
  unfold bind. rewrite (H x (or_introl eq_refl)), IH; [reflexivity|].
  intros y I. apply H. right. exact I.
Qed.

Lemma consumeReferencesInScope_nothing (which : Registry)
  (body : Reference -> Node -> M unit) (s : St) :
  NothingInScope s ->
  forall fuel i, List.length (registry which s) - i < fuel ->
    consumeReferencesInScope fuel which body i s = Ok tt s.
Proof.
  intros N. induction fuel as [|fuel IH]; intros i L; [lia|]. simpl.
  unfold bind at 1, gets.
  destruct (nth_error (registry which s) i) as [b|] eqn:E; [|reflexivity].
  assert (Li : i < List.length (registry which s)) by (apply nth_error_Some; congruence).
  unfold bind at 1. rewrite partitionM_all_false.
  - simpl. unfold bind, ret, modify.
    rewrite (updateAt_same _ _ _ b E (set_references_same b)), set_registry_same.
    apply IH. lia.
  - intros r I. apply (N b r); [|exact I].
    apply nth_error_In in E. apply in_or_app. destruct which; auto.
Qed.

Lemma consumeSignalReferencesInScope_nothing (body : Reference -> Node -> M unit) (s : St) :
  NothingInScope s ->
  consumeSignalReferencesInScope body s
  = Ok tt (set_signals (filter hasReferences (signals s)) s).
Proof.
  intros N. unfold consumeSignalReferencesInScope, bind, gets.
  rewrite (consumeReferencesInScope_nothing Signals body s N) by (simpl; lia).
  reflexivity.
Qed.

Lemma consumePropsReferencesInScope_nothing (body : Reference -> Node -> M unit) (s : St) :
  NothingInScope s ->
  consumePropsReferencesInScope body s
  = Ok tt (set_props (filter hasReferences (props s)) s).
Proof.
  intros N. unfold consumePropsReferencesInScope, bind, gets.
  rewrite (consumeReferencesInScope_nothing Props body s N) by (simpl; lia).
  reflexivity.
Qed.

Lemma forEach_reports {A} (l : list A) (keep : A -> bool) (finding : A -> Report)
  (f : A -> M unit) (I : St -> Prop) :
  (forall r s, I s -> I (set_reports r s)) ->
  (forall x s, I s ->
     f x s = Ok tt (if keep x then set_reports (reports s ++ [finding x]) s else s)) ->
  forall s, I s ->
    forEach l f s = Ok tt (set_reports (reports s ++ map finding (filter keep l)) s).
Proof.
  intros HI H. unfold forEach. induction l as [|x l IH]; intros s Is; simpl.
  - rewrite app_nil_r. destruct s; reflexivity.
  - unfold bind. rewrite (H x s Is). destruct (keep x).
    + rewrite IH by (apply HI, Is). simpl. rewrite <- app_assoc. reflexivity.
    + apply IH, Is.
Qed.

(** When no reference held by an entry lies in the scope being left, the
    exit reports exactly the unnamed derived signals of the frame that none
    of its tracked scopes matches, each once, at the head of the function,
    in the order they were added; it then drops the entries that hold no
    reference and pops the frame. *)
Theorem onFunctionExit_unnamed_derived_signals
  (src : Source) (n : Node) (s : St) (rest : list ScopeStackItem) (cur : ScopeStackItem) :
  frames s = rest ++ [cur] ->
  NothingInScope s ->
  (isFunctionNode n = true -> List.length (childList src n "params") <> 1) ->
  isFunctionNode n && existsb (same n) (syncCallbacks s) = false ->
  onFunctionExit src n s
  = Ok tt
      (set_frames rest
         (set_reports
            (reports s
             ++ map (fun f => mkReport (AtFunctionHead (nid f)) "badUnnamedDerivedSignal" [])
                    (filter (fun f => negb (tracked cur f)) (unnamedDerivedSignals cur)))
            (set_props (filter hasReferences (props s))
               (set_signals (filter hasReferences (signals s)) s)))).
Proof.
  intros F N P NS. unfold onFunctionExit. unfold bind at 1.
  assert (M0 : forall cb, when (isFunctionNode n) (markPropsOnCondition src n cb) s
                          = Ok tt s).
  { intros cb. unfold when. destruct (isFunctionNode n); [|reflexivity].
    specialize (P eq_refl). unfold markPropsOnCondition.
    destruct (childList src n "params") as [|[param|] [|]]; try reflexivity.
    simpl in P. congruence. }
  rewrite M0. unfold bind at 1, gets. rewrite NS.
  unfold bind at 1. rewrite (consumeSignalReferencesInScope_nothing _ s N).
  set (s1 := set_signals (filter hasReferences (signals s)) s).
  assert (N1 : NothingInScope s1).
  { intros b r I Ir. unfold s1 in *. simpl in I.
    assert (I' : In b (signals s ++ props s)).
    { apply in_app_or in I. apply in_or_app. destruct I as [I|I]; [|auto].
      left. apply filter_In in I. tauto. }
    pose proof (N b r I' Ir) as H. unfold isReferenceInCurrentScope, bind, gets in *.
    simpl. unfold currentScope in *. simpl.
    destruct (List.length (frames s)); [discriminate|].
    destruct (nth_error (frames s) n0); [|discriminate].
    inversion H. rewrite H1. reflexivity. }
  unfold bind at 1. rewrite (consumePropsReferencesInScope_nothing _ s1 N1).
  set (s2 := set_props (filter hasReferences (props s1)) s1).
  assert (F2 : frames s2 = rest ++ [cur]) by exact F.
  unfold bind at 1. rewrite (currentScope_top s2 rest cur F2).
  unfold bind at 1.
  rewrite (forEach_reports _ (fun f => negb (tracked cur f))
             (fun f => mkReport (AtFunctionHead (nid f)) "badUnnamedDerivedSignal" [])
             _ (fun s0 => frames s0 = rest ++ [cur])).
  - unfold modify, s2, s1. cbn [frames set_frames set_reports set_props set_signals].
    rewrite F, removelast_last. reflexivity.
  - intros r s0 H. exact H.
  - intros x s0 F0. unfold bind at 1. rewrite (currentScope_top s0 rest cur F0).
    unfold bind at 1.
    rewrite (findM_eval _ (fun ts => matchesTrackedScope (node cur) ts x)).
    + rewrite find_existsb. fold (tracked cur x). destruct (tracked cur x); reflexivity.
    + intros ts _. apply (matchTrackedScope_eval s0 rest cur ts x F0).
  - exact F2.
Qed.

(** ** [jsx-no-script-url] *)

Lemma skip_split (cls : ascii -> bool) (s : string) :
  exists lead, s = String.append lead (skip cls s) /\ allChars cls lead = true.
Proof.
  induction s as [|c s IH]; simpl.
  - exists "". auto.
  - destruct (cls c) eqn:C.
    + destruct IH as [lead [E A]]. exists (String c lead). simpl. rewrite <- E, C, A. auto.
    + exists "". auto.
Qed.

(** [skip] takes all of a run that is followed by a character outside the
    class. *)
Lemma skip_append (cls : ascii -> bool) (lead : string) (c : ascii) (rest : string) :
  allChars cls lead = true -> cls c = false ->
  skip cls (String.append lead (String c rest)) = String c rest.
Proof.
  induction lead as [|x lead IH]; simpl; intros A C.
  - rewrite C. reflexivity.
  - apply andb_prop in A. destruct A as [X A]. rewrite X. apply IH; assumption.
Qed.

Definition isSchemeCharacter (c : ascii) : bool :=
  Ascii.eqb c ":" || existsb (Ascii.eqb (lowerLetter c)) (list_ascii_of_string "javascript").

Lemma lowerLetter_not_blank (c : ascii) :
  isSchemeCharacter c = true -> isControlOrSpace c = false /\ isLineBreakOrTab c = false.
Proof.
  destruct c as [[] [] [] [] [] [] [] []]; vm_compute; intros H; try discriminate; auto.
Qed.

Lemma spells_starts (letters : list ascii) (s : string) :
  Forall (fun l => existsb (Ascii.eqb l) (list_ascii_of_string "javascript") = true) letters ->
  spells letters s = true ->
  exists c rest, s = String c rest /\ isSchemeCharacter c = true.
Proof.
  intros F H. destruct s as [|c rest]; [destruct letters; discriminate|].
  exists c, rest. split; [reflexivity|]. unfold isSchemeCharacter.
  destruct letters as [|l letters]; simpl in H.
  - rewrite H. reflexivity.
  - apply andb_prop in H. destruct H as [H _]. apply Ascii.eqb_eq in H. rewrite H.
    apply Forall_inv in F. rewrite F. apply orb_true_r.
Qed.

Lemma Spells_starts (letters : list ascii) (s : string) :
  Forall (fun l => existsb (Ascii.eqb l) (list_ascii_of_string "javascript") = true) letters ->
  Spells letters s ->
  exists c rest, s = String c rest /\ isSchemeCharacter c = true.
Proof.
  intros F H. unfold isSchemeCharacter. destruct letters as [|l letters]; simpl in H.
  - destruct H as [rest E]. exists ":"%char, rest. auto.
  - destruct H as [c [gap [rest [E [L _]]]]]. exists c, (String.append gap rest).
    split; [exact E|]. rewrite L. apply Forall_inv in F. rewrite F. apply orb_true_r.
Qed.

Lemma spells_Spells (letters : list ascii) :
  Forall (fun l => existsb (Ascii.eqb l) (list_ascii_of_string "javascript") = true) letters ->
  forall s, spells letters s = true <-> Spells letters s.
Proof.
  induction letters as [|l letters IH]; intros F s.
  - destruct s as [|c rest]; simpl.
    + split; [discriminate|]. intros [rest E]. discriminate.
    + split.
      * intros H. apply Ascii.eqb_eq in H. subst c. exists rest. reflexivity.
      * intros [rest' E]. inversion E. reflexivity.
  - pose proof (Forall_inv_tail F) as F'. destruct s as [|c rest]; simpl.
    + split; [discriminate|]. intros [c [gap [rest [E _]]]]. discriminate.
    + split.
      * intros H. apply andb_prop in H. destruct H as [L H]. apply Ascii.eqb_eq in L.
        destruct (skip_split isLineBreakOrTab rest) as [gap [E A]].
        exists c, gap, (skip isLineBreakOrTab rest). rewrite <- E.
        repeat split; auto. apply (IH F'). exact H.
      * intros [c' [gap [rest' [E [L [A S]]]]]]. inversion E; subst c' rest.
        rewrite L, Ascii.eqb_refl. simpl.
        destruct (Spells_starts letters rest' F' S) as [x [tail [Er X]]]. subst rest'.
        rewrite (skip_append _ gap x tail A (proj2 (lowerLetter_not_blank x X))).
        apply (IH F'). exact S.
Qed.

Lemma javascript_letters :
  Forall (fun l => existsb (Ascii.eqb l) (list_ascii_of_string "javascript") = true)
         (list_ascii_of_string "javascript").
Proof. repeat constructor. Qed.

Lemma isJavaScriptProtocol_ScriptUrl (s : string) :
  isJavaScriptProtocol s = true <-> ScriptUrl s.
Proof.
  unfold isJavaScriptProtocol, ScriptUrl. rewrite (spells_Spells _ javascript_letters).
  split.
  - intros H. destruct (skip_split isControlOrSpace s) as [lead [E A]].
    exists lead, (skip isControlOrSpace s). auto.
  - intros [lead [rest [E [A S]]]]. subst s.
    destruct (Spells_starts _ rest javascript_letters S) as [x [tail [Er X]]]. subst rest.
    rewrite (skip_append _ lead x tail A (proj1 (lowerLetter_not_blank x X))). exact S.
Qed.

(** The listener of [jsx-no-script-url] reports an attribute exactly when its
    name is a plain identifier and its value, or the expression in the
    value's braces, is statically a string that a browser reads as a
    [javascript:] URL; the finding is placed at the value. *)
Theorem jsxNoScriptUrl_finds
  (src : Source) (getStaticValue : Node -> option Static) (n : Node) :
  (forall r, In r (jsxNoScriptUrl src getStaticValue n) <->
     exists value target url,
       child src n "value" = Some value
       /\ typeIs (child src n "name") "JSXIdentifier" = true
       /\ (if String.eqb (type value) "JSXExpressionContainer"
           then child src value "expression" else Some value) = Some target
       /\ getStaticValue target = Some (SString url)
       /\ ScriptUrl url
       /\ r = mkReport (AtNode (nid value)) "noJSURL" [])
  /\ List.length (jsxNoScriptUrl src getStaticValue n) <= 1.
Proof.
  unfold jsxNoScriptUrl.
  destruct (child src n "value") as [value|].
  2:{ split; [|simpl; lia]. intros r. split; [intros []|].
      intros [v [t [u [E _]]]]. discriminate. }
  destruct (typeIs (child src n "name") "JSXIdentifier").
  2:{ split; [|simpl; lia]. intros r. split; [intros []|].
      intros [v [t [u [_ [E _]]]]]. discriminate. }
  cbv zeta.
  destruct (if String.eqb (type value) "JSXExpressionContainer"
            then child src value "expression" else Some value) as [target|] eqn:T.
  2:{ split; [|simpl; lia]. intros r. split; [intros []|].
      intros [v [t [u [E [_ [E' _]]]]]]. inversion E; subst v. congruence. }
  destruct (getStaticValue target) as [[url| |]|] eqn:G;
    try (split; [|simpl; lia]; intros r; split; [intros []|];
         intros [v [t [u [E [_ [E' [G' _]]]]]]]; inversion E; subst v;
         rewrite T in E'; inversion E'; subst t; congruence).
  destruct (isJavaScriptProtocol url) eqn:J.
  - split; [|simpl; lia]. intros r. split.
    + intros [E|[]]. subst r. exists value, target, url. repeat split; auto.
      apply isJavaScriptProtocol_ScriptUrl. exact J.
    + intros [v [t [u [E [_ [_ [_ [_ R]]]]]]]]. inversion E; subst v. left. auto.
  - split; [|simpl; lia]. intros r. split; [intros []|].
    intros [v [t [u [E [_ [E' [G' [S _]]]]]]]]. inversion E; subst v.
    rewrite T in E'. inversion E'; subst t. rewrite G in G'. inversion G'; subst u.
    apply isJavaScriptProtocol_ScriptUrl in S. congruence.
Qed.

(** ** The helpers for JSX attributes *)

(** The attribute [jsxGetProp] returns is the first written with the name,
    and [jsxHasProp] agrees that the name is there; [jsxHasProp] also looks
    at the keys of object literals that are spread in, which [jsxGetProp]
    does not return. *)
Theorem jsxGetProp_has (src : Source) (props : list Node) (prop : string) (a : Node) :
  Forall (fun n => isAttribute n = true) props ->
  jsxGetProp src props prop = Some a ->
  jsxHasProp src props prop = true
  /\ type a = "JSXAttribute"
  /\ jsxPropName src a = Some prop
  /\ exists before after,
       props = before ++ a :: after
       /\ Forall (fun n => type n = "JSXSpreadAttribute" \/ jsxPropName src n <> Some prop)
                 before.
Proof.
  intros W G. unfold jsxGetProp in G. apply find_FirstThat in G.
  destruct G as [before [after [E [P F]]]].
  apply andb_prop in P. destruct P as [NS P].
  assert (I : In a props) by (rewrite E; apply in_or_app; right; left; reflexivity).
  assert (T : type a = "JSXAttribute").
  { rewrite Forall_forall in W. specialize (W a I). unfold isAttribute in W.
    apply negb_true_iff in NS. rewrite NS, orb_false_r in W. apply String.eqb_eq, W. }
  assert (N : jsxPropName src a = Some prop).
  { unfold strIs in P. destruct (jsxPropName src a) as [y|]; [|discriminate].
    apply String.eqb_eq in P. subst. reflexivity. }
  split; [|split; [exact T|split; [exact N|]]].
  - unfold jsxHasProp, jsxGetAllProps. apply existsb_exists.
    exists (jsxPropName src a, child src a "name"). split.
    + apply in_flat_map. exists a. split; [exact I|]. rewrite T. simpl. left. reflexivity.
    + simpl. rewrite N. simpl. apply String.eqb_refl.
  - exists before, after. split; [exact E|]. eapply Forall_impl; [|exact F].
    intros n H. simpl in H. apply andb_false_iff in H. destruct H as [H|H].
    + left. apply negb_false_iff in H. apply String.eqb_eq, H.
    + right. intros C. rewrite C in H. simpl in H. rewrite String.eqb_refl in H.
      discriminate.
Qed.

(** ** [jsx-no-duplicate-props] *)

Lemma inList_app (x : string) (l1 l2 : list string) :
  inList x (l1 ++ l2) = inList x l1 || inList x l2.
Proof. unfold inList. apply existsb_app. Qed.

Lemma inList_In (x : string) (l : list string) : inList x l = true <-> In x l.
Proof.
  unfold inList. rewrite existsb_exists. split.
  - intros [y [I E]]. apply String.eqb_eq in E. subst. exact I.
  - intros I. exists x. split; [exact I|apply String.eqb_refl].
Qed.

Lemma distinct_length (l : list string) :
  forall seen,
    List.length (distinct l seen) <= List.length seen + List.length l
    /\ (List.length (distinct l seen) = List.length seen + List.length l <->
        NoDup l /\ forall x, In x l -> inList x seen = false).
Proof.
  induction l as [|x l IH]; intros seen; simpl.
  - split; [lia|]. split; [intros _; split; [constructor|intros x []]|lia].
  - destruct (inList x seen) eqn:X.
    + destruct (IH seen) as [L _]. split; [lia|]. split; [lia|].
      intros [_ H]. rewrite (H x (or_introl eq_refl)) in X. discriminate.
    + destruct (IH (seen ++ [x])) as [L E]. rewrite length_app in *. simpl in *.
      split; [lia|]. split.
      * intros H. assert (H' : List.length (distinct l (seen ++ [x]))
                               = List.length seen + 1 + List.length l) by lia.
        apply E in H'. destruct H' as [ND D]. split.
        -- constructor; [|exact ND]. intros I. specialize (D x I).
           rewrite inList_app in D. apply orb_false_elim in D. destruct D as [_ D].
           unfold inList in D. simpl in D. rewrite String.eqb_refl in D. discriminate.
        -- intros y [Ey|I]; [subst; exact X|]. specialize (D y I).
           rewrite inList_app in D. apply orb_false_elim in D. tauto.
      * intros [ND D]. inversion ND; subst.
        assert (H' : List.length (distinct l (seen ++ [x]))
                     = List.length seen + 1 + List.length l); [|lia].
        apply E. split; [assumption|]. intros y I. rewrite inList_app.
        rewrite (D y (or_intror I)). unfold inList. simpl.
        destruct (String.eqb y x) eqn:Y; [|reflexivity].
        apply String.eqb_eq in Y. subst. contradiction.
Qed.

Lemma checkPropNames_counts (toLowerCase : string -> string) (ignoreCase : bool)
  (l : list (option string * option Node)) :
  forall (names : list string) (seen : list string * list Report),
    map fst l = map Some names ->
    exists found,
      checkPropNames toLowerCase ignoreCase seen l
      = Some (distinct (map (normalizePropName toLowerCase ignoreCase) names) (fst seen),
              snd seen ++ found)
      /\ propFindings found = found
      /\ List.length found
         + List.length (distinct (map (normalizePropName toLowerCase ignoreCase) names)
                                 (fst seen))
         = List.length (fst seen) + List.length names.
Proof.
  induction l as [|[name node'] l IH]; intros names seen E.
  - destruct names; [|discriminate]. exists []. simpl. rewrite app_nil_r.
    destruct seen; auto.
  - destruct names as [|name0 names]; [discriminate|]. simpl in E.
    injection E as E1 E2. subst name. cbn [checkPropNames]. unfold checkPropName.
    cbn [fst snd].
    cbn [map distinct List.length].
    set (nm := normalizePropName toLowerCase ignoreCase name0).
    destruct (inList nm (fst seen)) eqn:X.
    + destruct (IH names (fst seen, snd seen ++ [mkReport
                   (AtNode match node' with Some k => nid k | None => 0 end)
                   (if String.eqb nm "class" then "noDuplicateClass" else "noDuplicateProps")
                   []]) E2) as [found [C [P L]]].
      simpl in *. rewrite C. eexists. rewrite <- app_assoc. split; [reflexivity|].
      split.
      * simpl. destruct (String.eqb nm "class"); simpl; rewrite P; reflexivity.
      * simpl. lia.
    + destruct (IH names (fst seen ++ [nm], snd seen) E2) as [found [C [P L]]].
      simpl in *. rewrite C. exists found. split; [reflexivity|]. split; [exact P|].
      rewrite length_app in L. simpl in L. lia.
Qed.

Lemma propFindings_app (a b : list Report) :
  propFindings (a ++ b) = propFindings a ++ propFindings b.
Proof. unfold propFindings. apply filter_app. Qed.

(** With [names] the names of the element's props in order, spread object
    literals included: the listener reports one finding for every prop whose
    normalised name was there before, so their number is the number of props
    less the number of distinct normalised names; none is reported exactly
    when the normalised names are pairwise distinct. *)
Theorem jsxNoDuplicateProps_counts
  (src : Source) (toLowerCase : string -> string) (ignoreCase : bool)
  (n : Node) (attributes : list Node) (names : list string) :
  map fst (jsxGetAllProps src attributes) = map Some names ->
  exists reports,
    jsxNoDuplicateProps src toLowerCase ignoreCase n attributes = Some reports
    /\ List.length (propFindings reports)
       + List.length (distinct (map (normalizePropName toLowerCase ignoreCase) names) [])
       = List.length names
    /\ (propFindings reports = [] <->
        NoDup (map (normalizePropName toLowerCase ignoreCase) names)).
Proof.
  intros E. unfold jsxNoDuplicateProps.
  destruct (checkPropNames_counts toLowerCase ignoreCase _ names ([], []) E)
    as [found [C [P L]]].
  rewrite C. simpl in *. eexists. split; [reflexivity|].
  set (normalized := map (normalizePropName toLowerCase ignoreCase) names) in *.
  assert (PF : forall tail, propFindings
                 (if 1 <? List.length tail
                  then found ++ [mkReport (AtNode (nid n)) "noDuplicateChildren"
                                          [("used", joinComma tail)]]
                  else found) = found).
  { intros tail. destruct (1 <? _); [|exact P]. rewrite propFindings_app, P. simpl.
    apply app_nil_r. }
  rewrite PF. split; [exact L|].
  destruct (distinct_length normalized []) as [_ D]. simpl in D.
  unfold normalized in *. rewrite length_map in D. split.
  - intros F. subst found. simpl in L. apply D in L. tauto.
  - intros ND. assert (H : List.length (distinct (map (normalizePropName toLowerCase
                              ignoreCase) names) []) = List.length names).
    { apply D. split; [exact ND|]. intros x _. reflexivity. }
    destruct found; [reflexivity|]. simpl in L. lia.
Qed.

(** ** [event-handlers] *)

Lemma fold_importSet_ext (f g : string -> string) (l : list string) :
  forall m,
    (forall e, In e l -> f e = g e) ->
    fold_left (fun m e => importSet (f e) e m) l m
    = fold_left (fun m e => importSet (g e) e m) l m.
Proof.
  induction l as [|e l IH]; intros m H; simpl; [reflexivity|].
  rewrite (H e (or_introl eq_refl)). apply IH. intros e' I. apply H. right. exact I.
Qed.

Lemma COMMON_EVENTS_MAP_lowerAscii (toLowerCase : string -> string) :
  (forall e, In e COMMON_EVENTS -> toLowerCase e = lowerAscii e) ->
  COMMON_EVENTS_MAP toLowerCase = COMMON_EVENTS_MAP lowerAscii.
Proof. intros H. unfold COMMON_EVENTS_MAP. apply fold_importSet_ext, H. Qed.

Definition keepsItsName (e : string) : bool :=
  negb (isNonstandardEventName (lowerAscii e))
  && match importGet (COMMON_EVENTS_MAP lowerAscii) (lowerAscii e) with
     | Some x => String.eqb x e
     | None => false
     end.

Lemma COMMON_EVENTS_keep_their_names : forallb keepsItsName COMMON_EVENTS = true.
Proof. vm_compute. reflexivity. Qed.

Lemma COMMON_EVENTS_MAP_values (k v : string) :
  importGet (COMMON_EVENTS_MAP lowerAscii) k = Some v -> In v COMMON_EVENTS.
Proof.
  assert (V : map snd (COMMON_EVENTS_MAP lowerAscii) = COMMON_EVENTS)
    by (vm_compute; reflexivity).
  unfold importGet. generalize dependent (COMMON_EVENTS_MAP lowerAscii). intros m V G.
  destruct (List.find (fun kv => String.eqb (fst kv) k) m) as [kv|] eqn:F; [|discriminate].
  apply find_some in F. destruct F as [I _]. injection G as G. subst v.
  rewrite <- V. apply in_map, I.
Qed.

Lemma checkHandlerName_accepts (toLowerCase toUpperCase : string -> string)
  (nameNode : Loc) (e : string) :
  (forall e, In e COMMON_EVENTS -> toLowerCase e = lowerAscii e) ->
  In e COMMON_EVENTS ->
  checkHandlerName toLowerCase toUpperCase nameNode e = Some [].
Proof.
  intros H I. pose proof COMMON_EVENTS_keep_their_names as K.
  rewrite forallb_forall in K. specialize (K e I). unfold keepsItsName in K.
  apply andb_prop in K. destruct K as [K1 K2]. apply negb_true_iff in K1.
  unfold checkHandlerName, isCommonHandlerName, getCommonEventHandlerName.
  rewrite (H e I), K1, (COMMON_EVENTS_MAP_lowerAscii toLowerCase H).
  destruct (importGet (COMMON_EVENTS_MAP lowerAscii) (lowerAscii e)) as [x|];
    [|discriminate].
  simpl. rewrite K2. reflexivity.
Qed.

Lemma getCommonEventHandlerName_values (toLowerCase : string -> string) (k v : string) :
  (forall e, In e COMMON_EVENTS -> toLowerCase e = lowerAscii e) ->
  getCommonEventHandlerName toLowerCase k = Some v -> In v COMMON_EVENTS.
Proof.
  intros H. unfold getCommonEventHandlerName.
  rewrite (COMMON_EVENTS_MAP_lowerAscii toLowerCase H). apply COMMON_EVENTS_MAP_values.
Qed.

Lemma checkHandlerName_fix (toLowerCase toUpperCase : string -> string)
  (nameNode : Loc) (name : string) (findings : list Finding) (f : Finding)
  (fixed : string) :
  (forall e, In e COMMON_EVENTS -> toLowerCase e = lowerAscii e) ->
  checkHandlerName toLowerCase toUpperCase nameNode name = Some findings ->
  In f findings -> fixText f = Some fixed ->
  In fixed COMMON_EVENTS /\ fixed <> name.
Proof.
  intros H C I X. unfold checkHandlerName in C.
  destruct (isNonstandardEventName (toLowerCase name)) eqn:N.
  - unfold isNonstandardEventName in N.
    destruct (getStandardEventHandlerName (toLowerCase name)) as [fixedName|] eqn:G;
      [|discriminate].
    injection C as C. subst findings. destruct I as [I|[]]. subst f. simpl in X.
    injection X as X. subst fixedName.
    unfold getStandardEventHandlerName, importGet, NONSTANDARD_EVENTS_MAP in G.
    cbn [List.find fst snd] in G.
    destruct (String.eqb "ondoubleclick" (toLowerCase name)) eqn:E; [|discriminate].
    injection G as G. subst fixed. split.
    + apply inList_In. vm_compute. reflexivity.
    + intros Q. subst name. rewrite H in E; [vm_compute in E; discriminate|].
      apply inList_In. vm_compute. reflexivity.
  - destruct (isCommonHandlerName toLowerCase (toLowerCase name)).
    + destruct (getCommonEventHandlerName toLowerCase (toLowerCase name))
        as [fixedName|] eqn:G.
      * destruct (String.eqb fixedName name) eqn:E; cbn [negb] in C;
          injection C as C; subst findings; [destruct I|].
        destruct I as [I|[]]. subst f. simpl in X. injection X as X. subst fixedName.
        split; [exact (getCommonEventHandlerName_values _ _ _ H G)|].
        intros Q. subst. rewrite String.eqb_refl in E. discriminate.
      * injection C as C. subst findings. destruct I.
    + destruct (String.get 2 name) as [c|]; [|discriminate].
      destruct (String.eqb _ _); injection C as C; subst findings; [|destruct I].
      destruct I as [I|[]]. subst f. discriminate.
Qed.

(** A fix of the listener renames the attribute to another name, one of
    [COMMON_EVENTS], and the checks of the name accept that name: the rule
    does not ask for a second rename. [toLowerCase] is assumed to lower the
    names of [COMMON_EVENTS] as it lowers ASCII. *)
Theorem eventHandlers_fix_settles
  (src : Source) (getStaticValue : Node -> option Static)
  (toLowerCase toUpperCase : string -> string) (ignoreCase : bool) (n : Node)
  (findings : list Finding) (f : Finding) (fixed : string) :
  (forall e, In e COMMON_EVENTS -> toLowerCase e = lowerAscii e) ->
  eventHandlersJSXAttribute src getStaticValue toLowerCase toUpperCase ignoreCase n
  = Some findings ->
  In f findings ->
  fixText f = Some fixed ->
  In fixed COMMON_EVENTS
  /\ strOf (child src n "name") "name" <> Some fixed
  /\ forall nameNode,
       checkHandlerName toLowerCase toUpperCase nameNode fixed = Some [].
Proof.
  intros H L I X.
  assert (D : forall name text,
             Some [mkFinding (mkReport (AtNode (nid n)) "detected-attr"
                                       [("name", name); ("staticValue", text)])
                             None []] = Some findings -> False).
  { intros name text Q. injection Q as Q. subst findings. destruct I as [I|[]].
    subst f. discriminate. }
  assert (E : Some [] = Some findings -> False).
  { intros Q. injection Q as Q. subst findings. destruct I. }
  unfold eventHandlersJSXAttribute in L.
  destruct (_ || _) in L; [destruct (E L)|].
  destruct (typeIs (child src n "name") "JSXNamespacedName"); [destruct (E L)|].
  destruct (negb _) in L; [destruct (E L)|].
  assert (F : forall k name,
             checkHandlerName toLowerCase toUpperCase k
               match name with Some s => s | None => "undefined" end = Some findings ->
             name = strOf (child src n "name") "name" ->
             In fixed COMMON_EVENTS
             /\ strOf (child src n "name") "name" <> Some fixed
             /\ forall nameNode,
                  checkHandlerName toLowerCase toUpperCase nameNode fixed = Some []).
  { intros k name C Q.
    destruct (checkHandlerName_fix toLowerCase toUpperCase k _ findings f fixed H C I X)
      as [A B].
    split; [exact A|]. split.
    - intros R. subst name. rewrite R in B. apply B. reflexivity.
    - intros nameNode. apply checkHandlerName_accepts; assumption. }
  match type of L with
  | match ?sv with _ => _ end = _ => destruct sv as [[text|text|]|]
  end; try (destruct (D _ _ L)).
  - destruct (child src n "value") as [v|]; [|destruct (D _ _ L)].
    destruct (String.eqb (type v) "Literal"); [destruct (D _ _ L)|].
    destruct ignoreCase; cbn [negb] in L; [destruct (E L)|].
    eapply F; [exact L|reflexivity].
  - destruct (child src n "value") as [v|]; [|destruct (D _ _ L)].
    destruct (String.eqb (type v) "Literal"); [destruct (D _ _ L)|].
    destruct ignoreCase; cbn [negb] in L; [destruct (E L)|].
    eapply F; [exact L|reflexivity].
Qed.

(** ** The theorems above, at the samples *)

Lemma findings_render_witness :
  Forall (fun r => Renders r \/ (messageId r = "shouldDestructure" /\ data r = []))
         (reports (finalState sampleLog noOptions)).
Proof. apply (findings_render sampleLog noOptions). vm_compute. reflexivity. Defined.

Lemma syncCallbacks_are_functions_witness :
  Forall (fun f => isFunctionNode f = true) (syncCallbacks (finalState sampleIife noOptions)).
Proof. apply (syncCallbacks_are_functions sampleIife noOptions). vm_compute. reflexivity. Defined.

Lemma pushUniqueSignal_idempotent_witness :
  let s1 := set_signals (updateAt 0 (set_declarationScope nComp) (signals atMerge)) atMerge in
  pushUniqueSignal vG nComp s1 = Ok tt s1.
Proof.
  apply (pushUniqueSignal_idempotent vG nComp atMerge). vm_compute. reflexivity.
Defined.

Lemma pushUniqueSignal_unique_witness :
  let s1 := set_signals (signals atMerge ++ [newBinding (vB true) nComp atMerge])
                        (set_registered (registered atMerge ++ [vB true]) atMerge) in
  NoDup (map (fun b => v_id (variable b)) (signals s1))
  /\ map variable (signals s1) = map variable (signals atMerge) ++ [vB true].
Proof.
  apply (pushUniqueSignal_unique (vB true) nComp atMerge).
  - simpl. constructor; [intros []|constructor].
  - vm_compute. reflexivity.
Defined.

Lemma checkForReactiveAssignment_outcome_witness :
  let s := set_importMap [("createSignal", "createSignal")] atProgram in
  let s' := match checkForReactiveAssignment sampleLog nDeclarator (Some nPattern)
                                             nCreateSignalCall s with
            | Ok _ x => x
            | Throw _ => s
            end in
  frames s' = frames s /\ syncCallbacks s' = syncCallbacks s
  /\ importMap s' = importMap s
  /\ (Registers s s' \/ Warns s s').
Proof.
  apply (checkForReactiveAssignment_outcome sampleLog nDeclarator (Some nPattern)
           nCreateSignalCall).
  vm_compute. reflexivity.
Defined.

Lemma onFunctionExit_pops_one_frame_witness :
  let s' := match onFunctionExit (sampleDerived true) nG atMerge with
            | Ok _ x => x
            | Throw _ => atMerge
            end in
  map node (frames s') = map node [mkItem nProgram [] [] false; mkItem nComp [] [] false].
Proof.
  apply (onFunctionExit_pops_one_frame (sampleDerived true) nG atMerge _ _
           (mkItem nG [] [] false)).
  - reflexivity.
  - reflexivity.
  - vm_compute. reflexivity.
Defined.

Lemma sync_callback_has_no_frame_witness :
  onFunctionEnter sampleIife nIifeArrow atIife = Ok tt atIife
  /\ exists s', onFunctionExit sampleIife nIifeArrow atIife = Ok tt s'
                /\ (s' = atIife \/ exists v, pushProps v nIifeArrow atIife = Ok tt s').
Proof.
  apply (sync_callback_has_no_frame sampleIife nIifeArrow atIife).
  - reflexivity.
  - reflexivity.
  - discriminate.
Defined.

Lemma handleTrackedScopes_tracked_witness :
  handleTrackedScopes sampleEffectLog nEffectCountRead nProgram atTracked = Ok tt atTracked.
Proof.
  apply (handleTrackedScopes_tracked sampleEffectLog atTracked
           [mkItem nProgram [] [] false]
           (mkItem nEffectArrow [mkTrackedScope (Some nEffectLogCall) expect_expression]
                   [] false)).
  - reflexivity.
  - vm_compute. reflexivity.
Defined.

Lemma onFunctionExit_unnamed_derived_signals_witness :
  onFunctionExit sampleEffectLog nEffectArrow atUnnamed
  = Ok tt (set_frames [mkItem nProgram [] [] false]
             (set_reports [mkReport (AtFunctionHead 33) "badUnnamedDerivedSignal" []]
                          atUnnamed)).
Proof.
  apply (onFunctionExit_unnamed_derived_signals sampleEffectLog nEffectArrow atUnnamed
           [mkItem nProgram [] [] false] (mkItem nEffectArrow [] [nEffectArrow] false)).
  - reflexivity.
  - intros b reference [].
  - intros _. simpl. discriminate.
  - reflexivity.
Defined.

Lemma jsxGetProp_has_witness :
  jsxHasProp sampleJsx [nClassA; nClassB; nOnclick] "class" = true
  /\ type nClassA = "JSXAttribute"
  /\ jsxPropName sampleJsx nClassA = Some "class"
  /\ exists before after,
       [nClassA; nClassB; nOnclick] = before ++ nClassA :: after
       /\ Forall (fun n => type n = "JSXSpreadAttribute"
                           \/ jsxPropName sampleJsx n <> Some "class") before.
Proof.
  apply (jsxGetProp_has sampleJsx [nClassA; nClassB; nOnclick] "class" nClassA).
  - repeat constructor.
  - reflexivity.
Defined.

Lemma jsxNoDuplicateProps_counts_witness :
  exists reports,
    jsxNoDuplicateProps sampleJsx lowerAscii false nOpening [nClassA; nClassB; nOnclick]
    = Some reports
    /\ List.length (propFindings reports)
       + List.length (distinct (map (normalizePropName lowerAscii false)
                                    ["class"; "class"; "onclick"]) [])
       = 3
    /\ (propFindings reports = [] <->
        NoDup (map (normalizePropName lowerAscii false) ["class"; "class"; "onclick"])).
Proof.
  apply (jsxNoDuplicateProps_counts sampleJsx lowerAscii false nOpening
           [nClassA; nClassB; nOnclick] ["class"; "class"; "onclick"]).
  reflexivity.
Defined.

Lemma eventHandlers_fix_settles_witness :
  In "onClick" COMMON_EVENTS
  /\ strOf (child sampleJsx nOnclick "name") "name" <> Some "onClick"
  /\ forall nameNode, checkHandlerName lowerAscii upperAscii nameNode "onClick" = Some [].
Proof.
  apply (eventHandlers_fix_settles sampleJsx (fun _ => None) lowerAscii upperAscii false
           nOnclick
           [mkFinding (mkReport (AtNode 210) "capitalization"
                                [("name", "onclick"); ("fixedName", "onClick")])
                      (Some "onClick") []]
           (mkFinding (mkReport (AtNode 210) "capitalization"
                                [("name", "onclick"); ("fixedName", "onClick")])
                      (Some "onClick") [])).
  - intros e _. reflexivity.
  - vm_compute. reflexivity.
  - left. reflexivity.
  - reflexivity.
Defined.

(** ** [components-return-once] *)

Module Once := ComponentsReturnOnce.

(** No finding is added, and no function on the stack changes its being a
    component. *)
Definition Quiet (s s' : Once.State) : Prop :=
  Once.findings s' = Once.findings s
  /\ map Once.isComponent (Once.functionStack s')
     = map Once.isComponent (Once.functionStack s).

Lemma Quiet_refl (s : Once.State) : Quiet s s.
Proof. split; reflexivity. Qed.

Lemma Quiet_trans (s1 s2 s3 : Once.State) : Quiet s1 s2 -> Quiet s2 s3 -> Quiet s1 s3.
Proof. intros [A B] [C D]. split; congruence. Qed.

Lemma each_in {A} (P : Once.State -> Once.State -> Prop)
  (f : A -> Once.State -> option Once.State) (l : list A) :
  (forall s, P s s) ->
  (forall s1 s2 s3, P s1 s2 -> P s2 s3 -> P s1 s3) ->
  (forall x, In x l -> forall s s', f x s = Some s' -> P s s') ->
  forall s s', Once.each f l s = Some s' -> P s s'.
Proof.
  intros R T. unfold Once.each. induction l as [|x l IH]; intros H s s' E.
  - injection E as E. subst. apply R.
  - destruct (f x s) as [s1|] eqn:F; [|discriminate].
    apply (T s s1 s'); [apply (H x (or_introl eq_refl) s s1 F)|].
    apply IH; [|exact E]. intros y I. apply H. right. exact I.
Qed.

Lemma walk_eq (src : Source) (n : Node) (kids : list Ast) (s : Once.State) :
  Once.walk src (AstNode n kids) s
  = match Once.enter src n s with
    | Some s1 =>
        match Once.each (Once.walk src) kids s1 with
        | Some s2 => Once.leave src n s2
        | None => None
        end
    | None => None
    end.
Proof. reflexivity. Qed.

Lemma setIsComponent_false_Quiet (s s' : Once.State) (flags : list bool) :
  map Once.isComponent (Once.functionStack s) = false :: flags ->
  Once.setIsComponent false s = Some s' -> Quiet s s'.
Proof.
  unfold Once.setIsComponent. intros M E.
  destruct (Once.functionStack s) as [|top rest] eqn:F; [discriminate|].
  injection E as E. subst s'. split; [reflexivity|]. simpl. rewrite F. simpl.
  simpl in M. injection M as M1 M2. rewrite M1. reflexivity.
Qed.

(** Walking a part of a file that holds no JSX element or fragment adds no
    finding, whatever functions enclose it, and leaves the functions on the
    stack as much components as they were. In a file without JSX the rule
    therefore reports nothing. *)
Theorem componentsReturnOnce_silent_without_jsx
  (src : Source) (t : Ast) (s s' : ComponentsReturnOnce.State) :
  Forall (fun n => isJSXElementOrFragment (Some n) = false) (flatten t) ->
  ComponentsReturnOnce.walk src t s = Some s' ->
  ComponentsReturnOnce.findings s' = ComponentsReturnOnce.findings s
  /\ map ComponentsReturnOnce.isComponent (ComponentsReturnOnce.functionStack s')
     = map ComponentsReturnOnce.isComponent (ComponentsReturnOnce.functionStack s).
Proof.
  intros J. revert s s'.
  change (forall s s', Once.walk src t s = Some s' -> Quiet s s'). revert J.
  induction t as [n kids IH] using Ast_kids_ind. intros J s s' E.
  simpl in J. inversion J as [|? ? Jn Jk]; subst. rewrite Forall_flat_map in Jk.
  rewrite Forall_forall in Jk. rewrite walk_eq in E.
  destruct (Once.enter src n s) as [s1|] eqn:E1; [|discriminate].
  destruct (Once.each (Once.walk src) kids s1) as [s2|] eqn:E2; [|discriminate].
  assert (K : Quiet s1 s2).
  { apply (each_in Quiet (Once.walk src) kids Quiet_refl Quiet_trans); [|exact E2].
    intros k I. apply IH; [exact I|apply Jk, I]. }
  unfold Once.enter in E1. unfold Once.leave in E. rewrite Jn in E1.
  destruct (isFunctionNode n).
  - unfold Once.onFunctionEnter in E1. injection E1 as E1.
    assert (M : map Once.isComponent (Once.functionStack s2)
                = false :: map Once.isComponent (Once.functionStack s)).
    { destruct K as [_ K]. rewrite K, <- E1. reflexivity. }
    assert (F1 : Once.findings s2 = Once.findings s).
    { destruct K as [K _]. rewrite K, <- E1. reflexivity. }
    unfold Once.onFunctionExit in E.
    assert (X : exists s3, (if Once.isNoComponent src n
                            then Once.setIsComponent false s2 else Some s2) = Some s3
                           /\ Quiet s2 s3).
    { destruct (Once.isNoComponent src n).
      - destruct (Once.setIsComponent false s2) as [s3|] eqn:S.
        + exists s3. split; [reflexivity|].
          eapply setIsComponent_false_Quiet; [exact M|exact S].
        + unfold Once.setIsComponent in S.
          destruct (Once.functionStack s2); discriminate.
      - exists s2. split; [reflexivity|apply Quiet_refl]. }
    destruct X as [s3 [X [Q1 Q2]]]. rewrite X in E. rewrite M in Q2.
    destruct (Once.functionStack s3) as [|top rest]; [discriminate|].
    simpl in Q2. injection Q2 as Q2 Q3. rewrite Q2 in E. injection E as E. subst s'.
    split; simpl; congruence.
  - destruct (String.eqb (type n) "ReturnStatement").
    + injection E as E. subst s'. apply (Quiet_trans s s1 s2); [|exact K].
      unfold Once.onReturnStatement in E1.
      destruct (Once.functionStack s) as [|top rest] eqn:F.
      * injection E1 as E1. subst. apply Quiet_refl.
      * destruct (negb _); injection E1 as E1; subst; [|apply Quiet_refl].
        split; [reflexivity|]. simpl. rewrite F. reflexivity.
    + injection E as E. injection E1 as E1. subst. exact K.
Qed.

Lemma componentsReturnOnce_silent_without_jsx_witness :
  let s' := match ComponentsReturnOnce.run sampleEffectLog with
            | Some x => x
            | None => ComponentsReturnOnce.create
            end in
  ComponentsReturnOnce.findings s' = []
  /\ map ComponentsReturnOnce.isComponent (ComponentsReturnOnce.functionStack s') = [].
Proof.
  apply (componentsReturnOnce_silent_without_jsx sampleEffectLog (ast sampleEffectLog)
           ComponentsReturnOnce.create).
  - apply Forall_forall. intros n I. vm_compute in I.
    repeat (destruct I as [I|I]; [subst n; reflexivity|]). destruct I.
  - vm_compute. reflexivity.
Defined.

(** *** The stack of functions *)

Lemma child_in_file (src : Source) (n : Node) (k : string) (a : Node) :
  child src n k = Some a -> In a (flatten (ast src)).
Proof.
  unfold child, nodeOf. destruct (field n k); try discriminate.
  unfold getNode. intros E. apply find_some in E. tauto.
Qed.

Lemma conditionalReturn_reports (src : Source) (top : Once.FunctionInfo) :
  Forall (fun n => type n = "ConditionalExpression" -> parent n <> None)
         (flatten (ast src)) ->
  exists conditional, Once.conditionalReturn src top = Some conditional.
Proof.
  intros W. unfold Once.conditionalReturn.
  destruct (childOf src (Once.lastReturn top) "argument") as [a|] eqn:A;
    [|eexists; reflexivity].
  destruct (String.eqb (type a) "ConditionalExpression") eqn:T.
  - assert (I : In a (flatten (ast src))).
    { unfold childOf in A. destruct (Once.lastReturn top); [|discriminate].
      eapply child_in_file, A. }
    rewrite Forall_forall in W. apply String.eqb_eq in T. specialize (W a I T).
    destruct (parent a); [eexists; reflexivity|contradiction].
  - destruct (String.eqb (type a) "LogicalExpression"); eexists; reflexivity.
Qed.

Lemma each_total {A} (f : A -> Once.State -> option Once.State) (l : list A) :
  (forall x, In x l -> forall s, exists s',
       f x s = Some s'
       /\ List.length (Once.functionStack s') = List.length (Once.functionStack s)) ->
  forall s, exists s',
    Once.each f l s = Some s'
    /\ List.length (Once.functionStack s') = List.length (Once.functionStack s).
Proof.
  unfold Once.each. induction l as [|x l IH]; intros H s.
  - exists s. split; reflexivity.
  - destruct (H x (or_introl eq_refl) s) as [s1 [E1 L1]]. rewrite E1.
    destruct (IH (fun y I => H y (or_intror I)) s1) as [s2 [E2 L2]].
    exists s2. split; [exact E2|congruence].
Qed.

Lemma walk_total (src : Source) (t : Ast) :
  Forall (fun n => type n = "ConditionalExpression" -> parent n <> None)
         (flatten (ast src)) ->
  forall s, exists s',
    Once.walk src t s = Some s'
    /\ List.length (Once.functionStack s') = List.length (Once.functionStack s).
Proof.
  intros W. induction t as [n kids IH] using Ast_kids_ind. intros s. rewrite walk_eq.
  assert (E1 : exists s1,
             Once.enter src n s = Some s1
             /\ List.length (Once.functionStack s1)
                = (if isFunctionNode n then 1 else 0) + List.length (Once.functionStack s)).
  { unfold Once.enter. destruct (isFunctionNode n).
    - eexists. split; [reflexivity|]. reflexivity.
    - destruct (isJSXElementOrFragment (Some n)).
      + unfold Once.onJSX, Once.setIsComponent.
        destruct (Once.functionStack s) as [|top rest] eqn:F.
        * exists s. split; [reflexivity|]. rewrite F. reflexivity.
        * eexists. split; [reflexivity|]. reflexivity.
      + destruct (String.eqb (type n) "ReturnStatement").
        * unfold Once.onReturnStatement.
          destruct (Once.functionStack s) as [|top rest] eqn:F.
          -- exists s. split; [reflexivity|]. rewrite F. reflexivity.
          -- destruct (negb _); eexists; (split; [reflexivity|]);
               [reflexivity|rewrite F; reflexivity].
        * exists s. split; reflexivity. }
  destruct E1 as [s1 [E1 L1]]. rewrite E1.
  destruct (each_total (Once.walk src) kids IH s1) as [s2 [E2 L2]]. rewrite E2.
  unfold Once.leave. destruct (isFunctionNode n).
  - unfold Once.onFunctionExit.
    assert (X : exists s3, (if Once.isNoComponent src n
                            then Once.setIsComponent false s2 else Some s2) = Some s3
                           /\ List.length (Once.functionStack s3)
                              = S (List.length (Once.functionStack s))).
    { destruct (Once.isNoComponent src n).
      - unfold Once.setIsComponent.
        destruct (Once.functionStack s2) as [|top rest] eqn:F.
        + simpl in L2. rewrite L1 in L2. discriminate.
        + eexists. split; [reflexivity|]. simpl. simpl in L2. lia.
      - exists s2. split; [reflexivity|lia]. }
    destruct X as [s3 [X L3]]. rewrite X.
    destruct (Once.functionStack s3) as [|top rest]; [discriminate|].
    simpl in L3. injection L3 as L3.
    destruct (Once.isComponent top).
    + destruct (conditionalReturn_reports src top W) as [conditional C]. rewrite C.
      eexists. split; [reflexivity|exact L3].
    + eexists. split; [reflexivity|exact L3].
  - exists s2. split; [reflexivity|]. simpl in L1. congruence.
Qed.

(** The rule never asks for the current function when there is none: in a
    file where every conditional expression has a parent, as in any file a
    parser produces, a run ends with its findings and with the stack of
    functions empty. *)
Theorem componentsReturnOnce_stack_discipline (src : Source) :
  Forall (fun n => type n = "ConditionalExpression" -> parent n <> None)
         (flatten (ast src)) ->
  exists reports,
    ComponentsReturnOnce.run src = Some (ComponentsReturnOnce.mkState [] reports).
Proof.
  intros W. destruct (walk_total src (ast src) W Once.create) as [s' [E L]].
  exists (Once.findings s'). unfold Once.run. rewrite E.
  destruct s' as [[|top rest] reports]; [reflexivity|discriminate].
Qed.

Lemma componentsReturnOnce_stack_discipline_witness :
  exists reports,
    ComponentsReturnOnce.run sampleJsx = Some (ComponentsReturnOnce.mkState [] reports).
Proof.
  apply (componentsReturnOnce_stack_discipline sampleJsx).
  apply Forall_forall. intros n I T. vm_compute in I.
  repeat (destruct I as [I|I]; [subst n; discriminate|]). destruct I.
Defined.

(** ** What [checkForTrackedScopes] changes *)

(** The frames are the same but for tracked scopes added to the one at the
    top. *)
Definition Extended (fs fs' : list ScopeStackItem) : Prop :=
  fs' = fs
  \/ exists rest cur added,
       fs = rest ++ [cur]
       /\ fs' = rest ++ [mkItem (node cur) (trackedScopes cur ++ added)
                                (unnamedDerivedSignals cur) (hasJSX cur)].

(** Tracked scopes are added to the frame at the top, props are registered
    and [noAsyncTrackedScope] is reported; nothing else changes. *)
Definition OnlyTracks (s s' : St) : Prop :=
  signals s' = signals s
  /\ importMap s' = importMap s
  /\ syncCallbacks s' = syncCallbacks s
  /\ (exists newProps, props s' = props s ++ newProps)
  /\ (exists new,
        reports s' = reports s ++ new
        /\ Forall (fun r => messageId r = "noAsyncTrackedScope") new)
  /\ Extended (frames s) (frames s').

Lemma Extended_trans (f1 f2 f3 : list ScopeStackItem) :
  Extended f1 f2 -> Extended f2 f3 -> Extended f1 f3.
Proof.
  intros [E1|[rest [cur [added [E1 E1']]]]] [E2|[rest' [cur' [added' [E2 E2']]]]]; subst.
  - left. reflexivity.
  - right. exists rest', cur', added'. auto.
  - right. exists rest, cur, added. auto.
  - right. apply app_inj_tail in E2. destruct E2 as [R C]. subst rest' cur'.
    exists rest, cur, (added ++ added'). split; [reflexivity|]. simpl.
    rewrite app_assoc. reflexivity.
Qed.

Lemma OnlyTracks_refl (s : St) : OnlyTracks s s.
Proof.
  repeat split; try reflexivity.
  - exists []. rewrite app_nil_r. reflexivity.
  - exists []. rewrite app_nil_r. split; [reflexivity|constructor].
  - left. reflexivity.
Qed.

Lemma OnlyTracks_trans (s1 s2 s3 : St) :
  OnlyTracks s1 s2 -> OnlyTracks s2 s3 -> OnlyTracks s1 s3.
Proof.
  intros [A1 [B1 [C1 [[p1 D1] [[r1 [E1 F1]] G1]]]]] [A2 [B2 [C2 [[p2 D2] [[r2 [E2 F2]] G2]]]]].
  repeat split; try congruence.
  - exists (p1 ++ p2). rewrite D2, D1, app_assoc. reflexivity.
  - exists (r1 ++ r2). rewrite E2, E1, app_assoc. split; [reflexivity|].
    apply Forall_app. split; assumption.
  - eapply Extended_trans; eassumption.
Qed.

Ltac only_tracks :=
  match goal with
  | |- related OnlyTracks (ret _) => apply related_ret, OnlyTracks_refl
  | |- related OnlyTracks (throw _) => apply related_throw
  | |- related OnlyTracks (gets _) => apply related_gets, OnlyTracks_refl
  | |- related OnlyTracks currentScope => apply related_currentScope, OnlyTracks_refl
  | |- related OnlyTracks (trace _ _ _) => apply related_trace, OnlyTracks_refl
  | |- related OnlyTracks (bind _ _) => apply related_bind; [apply OnlyTracks_trans| |intros ?]
  | |- related OnlyTracks (when _ _) => apply related_when; [apply OnlyTracks_refl|intros ?]
  | |- related OnlyTracks (forEach _ _) =>
      apply related_forEach; [apply OnlyTracks_refl|apply OnlyTracks_trans|intros ?]
  | |- related OnlyTracks (if ?c then _ else _) => destruct c
  | |- related OnlyTracks (match ?x with _ => _ end) => destruct x
  | |- related OnlyTracks _ => solve [auto with onlyTracks]
  | |- related OnlyTracks _ => progress cbv zeta
  end.

Create HintDb onlyTracks.

Lemma updateAt_last {A} (f : A -> A) (rest : list A) (cur : A) :
  updateAt (List.length (rest ++ [cur]) - 1) f (rest ++ [cur]) = rest ++ [f cur].
Proof.
  rewrite length_app. simpl. replace (List.length rest + 1 - 1) with (List.length rest) by lia.
  induction rest as [|x rest IH]; simpl; [reflexivity|]. rewrite IH. reflexivity.
Qed.

Lemma onlyTracks_report_async (l : Loc) :
  related OnlyTracks (report l "noAsyncTrackedScope" []).
Proof.
  intros s a s' E. unfold report, modify in E. injection E as E. subst s'.
  repeat split; try reflexivity.
  - exists []. rewrite app_nil_r. reflexivity.
  - eexists. split; [reflexivity|]. constructor; [reflexivity|constructor].
  - left. reflexivity.
Qed.

Lemma onlyTracks_pushProps (v : ScopeVariable) (d : Node) : related OnlyTracks (pushProps v d).
Proof.
  intros s a s' E. unfold pushProps, modify in E. injection E as E. subst s'.
  repeat split; try reflexivity.
  - eexists. reflexivity.
  - exists []. rewrite app_nil_r. split; [reflexivity|constructor].
  - left. reflexivity.
Qed.

#[export] Hint Resolve onlyTracks_report_async onlyTracks_pushProps : onlyTracks.

Lemma onlyTracks_pushTrackedScope (n : option Node) (e : Expect) :
  related OnlyTracks (pushTrackedScope n e).
Proof.
  unfold pushTrackedScope. apply related_bind; [apply OnlyTracks_trans| |intros []].
  - intros s a s' E. unfold modifyCurrentScope, bind in E.
    destruct (currentScope s) as [c s0|] eqn:C; [|discriminate].
    assert (NE : frames s <> []).
    { intros Z. unfold currentScope in C. rewrite Z in C. discriminate. }
    destruct (exists_last NE) as [rest [cur F]].
    rewrite (currentScope_top s rest cur F) in C. injection C as C1 C2. subst c s0.
    unfold modify in E. injection E as E. subst s'.
    repeat split; try reflexivity.
    + exists []. rewrite app_nil_r. reflexivity.
    + exists []. rewrite app_nil_r. split; [reflexivity|constructor].
    + right. exists rest, cur, [mkTrackedScope n e]. split; [exact F|].
      cbn [frames set_frames]. rewrite F. rewrite updateAt_last. reflexivity.
  - repeat only_tracks.
Qed.

#[export] Hint Resolve onlyTracks_pushTrackedScope : onlyTracks.

Lemma onlyTracks_visitChild (f : Ast -> M unit) (kids : list Ast) (id : nat) :
  (forall k, In k kids -> related OnlyTracks (f k)) ->
  related OnlyTracks (visitChild f kids id).
Proof.
  unfold visitChild. induction kids as [|k kids IHk]; intros H;
    [apply related_ret, OnlyTracks_refl|].
  destruct (nid (astNode k) =? id); [apply H; left; reflexivity|].
  apply IHk. intros x I. apply H. right. exact I.
Qed.

Lemma onlyTracks_permissivelyTrack (src : Source) (cur : Node) (t : Ast) :
  related OnlyTracks (permissivelyTrack src cur t).
Proof.
  induction t as [n kids IH] using Ast_kids_ind. simpl.
  apply related_bind; [apply OnlyTracks_trans|apply related_trace, OnlyTracks_refl|].
  intros traced. destruct (_ || _); [auto with onlyTracks|].
  destruct (visitorKeys (type n)) as [keys|]; [|apply related_throw].
  apply related_forEach; [apply OnlyTracks_refl|apply OnlyTracks_trans|].
  intros id. apply onlyTracks_visitChild. exact IH.
Qed.

#[export] Hint Resolve onlyTracks_permissivelyTrack : onlyTracks.

Lemma onlyTracks_permissivelyTrackArguments (src : Source) (cur : Node)
  (arguments : list (option Node)) :
  related OnlyTracks (permissivelyTrackArguments src cur arguments).
Proof. unfold permissivelyTrackArguments, permissivelyTrackNode. repeat only_tracks. Qed.

#[export] Hint Resolve onlyTracks_permissivelyTrackArguments : onlyTracks.

(** [checkForTrackedScopes] never pushes or pops a frame and never touches
    the signals, the import map or the synchronous callbacks: all it does is
    add tracked scopes to the frame at the top of the stack, register props
    (the parameters of functions in tagged templates) and report
    [noAsyncTrackedScope]. *)
Theorem checkForTrackedScopes_only_tracks
  (src : Source) (options : Options) (n : Node) (s s' : St) :
  checkForTrackedScopes src options n s = Ok tt s' ->
  signals s' = signals s
  /\ importMap s' = importMap s
  /\ syncCallbacks s' = syncCallbacks s
  /\ (exists newProps, props s' = props s ++ newProps)
  /\ (exists new,
        reports s' = reports s ++ new
        /\ Forall (fun r => messageId r = "noAsyncTrackedScope") new)
  /\ Extended (frames s) (frames s').
Proof.
  intros E. assert (H : related OnlyTracks (checkForTrackedScopes src options n)).
  { unfold checkForTrackedScopes. repeat only_tracks. }
  exact (H s tt s' E).
Qed.

Lemma checkForTrackedScopes_only_tracks_witness :
  let s := set_importMap [("createEffect", "createEffect")] atProgram in
  let s' := match checkForTrackedScopes sampleEffectLog noOptions nEffectCall s with
            | Ok _ x => x
            | Throw _ => s
            end in
  signals s' = signals s
  /\ importMap s' = importMap s
  /\ syncCallbacks s' = syncCallbacks s
  /\ (exists newProps, props s' = props s ++ newProps)
  /\ (exists new,
        reports s' = reports s ++ new
        /\ Forall (fun r => messageId r = "noAsyncTrackedScope") new)
  /\ Extended (frames s) (frames s').
Proof.
  apply (checkForTrackedScopes_only_tracks sampleEffectLog noOptions nEffectCall).
  vm_compute. reflexivity.
Defined.

(** ** What [checkForSyncCallbacks] changes *)

(** Functions are added to the set of synchronous callbacks; nothing else
    changes. *)
Definition OnlyMarks (s s' : St) : Prop :=
  exists added,
    s' = set_syncCallbacks (syncCallbacks s ++ added) s
    /\ Forall (fun f => isFunctionNode f = true) added
    /\ (NoDup (map nid (syncCallbacks s)) -> NoDup (map nid (syncCallbacks s ++ added))).

Lemma set_syncCallbacks_same (s : St) : set_syncCallbacks (syncCallbacks s) s = s.
Proof. destruct s; reflexivity. Qed.

Lemma OnlyMarks_refl (s : St) : OnlyMarks s s.
Proof.
  exists []. rewrite app_nil_r, set_syncCallbacks_same.
  split; [reflexivity|]. split; [constructor|auto].
Qed.

Lemma OnlyMarks_trans (s1 s2 s3 : St) : OnlyMarks s1 s2 -> OnlyMarks s2 s3 -> OnlyMarks s1 s3.
Proof.
  intros [a1 [E1 [F1 N1]]] [a2 [E2 [F2 N2]]]. exists (a1 ++ a2). subst s2 s3.
  cbn [syncCallbacks set_syncCallbacks] in *. rewrite app_assoc.
  split; [destruct s1; reflexivity|]. split; [apply Forall_app; split; assumption|].
  intros N. apply N2, N1, N.
Qed.

Lemma onlyMarks_addSyncCallback (n : Node) :
  isFunctionNode n = true -> related OnlyMarks (addSyncCallback n).
Proof.
  intros Fn s a s' E. unfold addSyncCallback, modify in E. injection E as E. subst s'.
  unfold addNode. destruct (existsb (same n) (syncCallbacks s)) eqn:X.
  - rewrite set_syncCallbacks_same. apply OnlyMarks_refl.
  - exists [n]. split; [reflexivity|]. split; [constructor; [exact Fn|constructor]|].
    intros N. rewrite map_app. simpl.
    apply (Permutation_NoDup (Permutation_cons_append (map nid (syncCallbacks s)) (nid n))).
    constructor; [|exact N]. intros I. apply in_map_iff in I. destruct I as [m [Em Im]].
    assert (Y : existsb (same n) (syncCallbacks s) = true).
    { apply existsb_exists. exists m. split; [exact Im|].
      unfold same. rewrite Em. apply Nat.eqb_refl. }
    congruence.
Qed.

Ltac known_function :=
  cbn [isFunctionNodeOpt] in *;
  repeat match goal with
         | H : _ && _ = true |- _ => apply andb_prop in H; destruct H
         end;
  assumption.

Ltac only_marks :=
  match goal with
  | |- related OnlyMarks (ret _) => apply related_ret, OnlyMarks_refl
  | |- related OnlyMarks (throw _) => apply related_throw
  | |- related OnlyMarks (gets _) => apply related_gets, OnlyMarks_refl
  | |- related OnlyMarks (bind _ _) => apply related_bind; [apply OnlyMarks_trans| |intros ?]
  | |- related OnlyMarks (when _ _) => apply related_when; [apply OnlyMarks_refl|intros ?]
  | |- related OnlyMarks (forEach _ _) =>
      apply related_forEach; [apply OnlyMarks_refl|apply OnlyMarks_trans|intros ?]
  | |- related OnlyMarks (addSyncCallback _) => apply onlyMarks_addSyncCallback; known_function
  | |- related OnlyMarks (if ?c then _ else _) => destruct c eqn:?
  | |- related OnlyMarks (match ?x with _ => _ end) => destruct x eqn:?
  | |- related OnlyMarks _ => progress cbv zeta
  end.

(** [checkForSyncCallbacks] changes nothing but the set of synchronous
    callbacks, to which it adds functions only, none of them twice: it
    reports no finding and leaves the stack and the registries alone. *)
Theorem checkForSyncCallbacks_only_marks (src : Source) (n : Node) (s s' : St) :
  checkForSyncCallbacks src n s = Ok tt s' ->
  exists added,
    s' = set_syncCallbacks (syncCallbacks s ++ added) s
    /\ Forall (fun f => isFunctionNode f = true) added
    /\ (NoDup (map nid (syncCallbacks s)) -> NoDup (map nid (syncCallbacks s ++ added))).
Proof.
  intros E. assert (H : related OnlyMarks (checkForSyncCallbacks src n)).
  { unfold checkForSyncCallbacks. repeat only_marks. }
  exact (H s tt s' E).
Qed.

Lemma checkForSyncCallbacks_only_marks_witness :
  exists added,
    atIife = set_syncCallbacks (syncCallbacks atProgram ++ added) atProgram
    /\ Forall (fun f => isFunctionNode f = true) added
    /\ (NoDup (map nid (syncCallbacks atProgram)) ->
        NoDup (map nid (syncCallbacks atProgram ++ added))).
Proof.
  apply (checkForSyncCallbacks_only_marks sampleIife nIifeCall atProgram atIife).
  vm_compute. reflexivity.
Defined.

(** ** One read, one finding at most *)

(** The state is left as it was. *)
Definition Unchanged (s s' : St) : Prop := s' = s.

(** No finding is added. *)
Definition Silent (s s' : St) : Prop := reports s' = reports s.

(** A computation that reports one finding and does nothing else, or
    reports nothing. *)
Definition OneFinding (m : M unit) : Prop :=
  forall s s', m s = Ok tt s' ->
    reports s' = reports s \/ exists r, s' = set_reports (reports s ++ [r]) s.

Lemma Unchanged_refl (s : St) : Unchanged s s.
Proof. reflexivity. Qed.

Lemma Unchanged_trans (s1 s2 s3 : St) : Unchanged s1 s2 -> Unchanged s2 s3 -> Unchanged s1 s3.
Proof. unfold Unchanged. congruence. Qed.

Lemma Silent_refl (s : St) : Silent s s.
Proof. reflexivity. Qed.

Lemma Silent_trans (s1 s2 s3 : St) : Silent s1 s2 -> Silent s2 s3 -> Silent s1 s3.
Proof. unfold Silent. congruence. Qed.

Ltac unchanged :=
  match goal with
  | |- related Unchanged (ret _) => apply related_ret, Unchanged_refl
  | |- related Unchanged (throw _) => apply related_throw
  | |- related Unchanged (gets _) => apply related_gets, Unchanged_refl
  | |- related Unchanged currentScope => apply related_currentScope, Unchanged_refl
  | |- related Unchanged (bind _ _) => apply related_bind; [apply Unchanged_trans| |intros ?]
  | |- related Unchanged (findM _ _) =>
      apply related_findM; [apply Unchanged_refl|apply Unchanged_trans|intros ?]
  | |- related Unchanged (if ?c then _ else _) => destruct c
  | |- related Unchanged (match ?x with _ => _ end) => destruct x
  | |- related Unchanged _ => progress cbv zeta
  end.

Ltac silent :=
  match goal with
  | |- related Silent (ret _) => apply related_ret, Silent_refl
  | |- related Silent (throw _) => apply related_throw
  | |- related Silent (gets _) => apply related_gets, Silent_refl
  | |- related Silent currentScope => apply related_currentScope, Silent_refl
  | |- related Silent (bind _ _) => apply related_bind; [apply Silent_trans| |intros ?]
  | |- related Silent (when _ _) => apply related_when; [apply Silent_refl|intros ?]
  | |- related Silent (modify _) => apply related_modify; intros ?; reflexivity
  | |- related Silent (if ?c then _ else _) => destruct c
  | |- related Silent (match ?x with _ => _ end) => destruct x
  | |- related Silent _ => progress cbv zeta
  end.

Lemma unchanged_matchTrackedScope (trackedScope : TrackedScope) (n : Node) :
  related Unchanged (matchTrackedScope trackedScope n).
Proof. unfold matchTrackedScope. repeat unchanged. Qed.

Lemma silent_pushUniqueSignal (v : ScopeVariable) (d : Node) :
  related Silent (pushUniqueSignal v d).
Proof.
  unfold pushUniqueSignal, pushSignal, findDeepestDeclarationScope. repeat silent.
Qed.

Lemma silent_pushUnnamedDerivedSignal (n : Node) :
  related Silent (pushUnnamedDerivedSignal n).
Proof. unfold pushUnnamedDerivedSignal, parentScope. repeat silent. Qed.

Lemma one_silent (m : M unit) : related Silent m -> OneFinding m.
Proof. intros H s s' E. left. exact (H s tt s' E). Qed.

Lemma one_report (l : Loc) (mid : string) (d : list (string * string)) :
  OneFinding (report l mid d).
Proof. intros s s' E. right. inversion E. eexists. reflexivity. Qed.

Lemma one_bind {A} (m : M A) (f : A -> M unit) :
  related Unchanged m -> (forall a, OneFinding (f a)) -> OneFinding (bind m f).
Proof.
  intros P H s s' E. unfold bind in E. destruct (m s) as [a s0|] eqn:Em; [|discriminate].
  rewrite (P s a s0 Em) in E. exact (H a s s' E).
Qed.

Lemma one_handleTrackedScopes (src : Source) (identifier' d : Node) :
  OneFinding (handleTrackedScopes src identifier' d).
Proof.
  unfold handleTrackedScopes.
  apply one_bind; [apply related_currentScope, Unchanged_refl|]. intros c. cbv zeta.
  apply one_bind.
  { apply related_findM; [apply Unchanged_refl|apply Unchanged_trans|].
    intros ts. apply unchanged_matchTrackedScope. }
  intros matched. destruct (isSome matched); [apply one_silent; silent|].
  apply one_bind.
  { apply related_findM; [apply Unchanged_refl|apply Unchanged_trans|].
    intros ts. apply unchanged_matchTrackedScope. }
  intros matchedExpression. destruct (same d (node c)); [apply one_report|].
  apply one_silent. unfold parentScope.
  repeat first [apply silent_pushUniqueSignal | apply silent_pushUnnamedDerivedSignal
               | silent].
Qed.

(** One call of the body of a loop of [onFunctionExit], for one reference
    drained from one entry, reports one finding and changes nothing else,
    or reports no finding at all. The bound is one of calls, not of reads:
    a variable that is registered twice has two entries, the body is called
    once for each, and the same read can then be reported once by each. *)
Theorem one_read_one_finding (src : Source) (reference : Reference) (d : Node) :
  (forall s s', signalBody src reference d s = Ok tt s' ->
     reports s' = reports s \/ exists r, s' = set_reports (reports s ++ [r]) s)
  /\ (forall s s', propsBody src reference d s = Ok tt s' ->
        reports s' = reports s \/ exists r, s' = set_reports (reports s ++ [r]) s).
Proof.
  split.
  - change (OneFinding (signalBody src reference d)). unfold signalBody. cbv zeta.
    repeat match goal with
           | |- OneFinding (report _ _ _) => apply one_report
           | |- OneFinding (ret tt) => apply one_silent; silent
           | |- OneFinding (handleTrackedScopes _ _ _) => apply one_handleTrackedScopes
           | |- OneFinding (bind currentScope _) =>
               apply one_bind; [apply related_currentScope, Unchanged_refl|intros ?]
           | |- OneFinding (if ?c then _ else _) => destruct c
           end.
  - change (OneFinding (propsBody src reference d)). unfold propsBody. cbv zeta.
    repeat match goal with
           | |- OneFinding (report _ _ _) => apply one_report
           | |- OneFinding (ret tt) => apply one_silent; silent
           | |- OneFinding (handleTrackedScopes _ _ _) => apply one_handleTrackedScopes
           | |- OneFinding (if ?c then _ else _) => destruct c
           end.
Qed.

(** ** The traversal of the arguments *)

(** [permissivelyTrackNode] hands the argument to the traversal of
    [estraverse], which knows no JSX: in
    [const [count, setCount] = createSignal(<div />)] the element is entered,
    is neither a function nor an identifier, and the traversal throws; the
    run ends there, with no findings. *)
Lemma permissivelyTrackNode_unknown :
  visitorKeys "JSXElement" = None
  /\ run sampleElementArgument noOptions = Throw "Unknown node type JSXElement."
  /\ analyze sampleElementArgument noOptions = None.
Proof. repeat apply conj; vm_compute; reflexivity. Qed.

(** ** The calling convention and the tracked scopes *)

(** A read in one of the four contexts that are reported wherever they stand
    is reported, whatever the stack, the tracked scopes and the declaration
    scope are. *)
Lemma signalBody_reported (src : Source) (reference : Reference) (d : Node) (s : St)
      (where' : string) :
  isWrite reference = false ->
  type (identifier reference) = "Identifier" ->
  ReportedContext (identifier reference) where' ->
  signalBody src reference d s
  = Ok tt (set_reports (reports s ++ [badSignal (identifier reference) where']) s).
Proof.
  intros W T C. unfold signalBody. rewrite W, T.
  destruct C as [p P Tp|p operator P Tp O I|p operator P Tp O I|p P Tp F K];
    rewrite P; unfold typeIs, strOf, flagOf; rewrite Tp.
  - reflexivity.
  - rewrite O. unfold strIn. apply inList_In in I. rewrite I. reflexivity.
  - rewrite O. unfold strIn. apply inList_In in I. rewrite I. reflexivity.
  - rewrite F, K. reflexivity.
Qed.

(** A read that is the expression of a JSX expression container: the tracked
    scopes of the frame at the top are looked at, and the read is passed
    when it is itself the node of a tracked scope of the kind [function] or
    [called-function]. *)
Lemma signalBody_container (src : Source) (reference : Reference) (d : Node) (s : St)
      (container : Node) (rest : list ScopeStackItem) (cur : ScopeStackItem) :
  isWrite reference = false ->
  type (identifier reference) = "Identifier" ->
  parent (identifier reference) = Some container ->
  type container = "JSXExpressionContainer" ->
  frames s = rest ++ [cur] ->
  signalBody src reference d s
  = Ok tt (if negb (isTrackedFunction cur (identifier reference)) && inJSX src container
           then set_reports (reports s ++ [badSignal (identifier reference) "JSX"]) s
           else s).
Proof.
  intros W T P Tp F. unfold signalBody. rewrite W, T, P.
  assert (Q : forall t, typeIs (Some container) t = String.eqb "JSXExpressionContainer" t)
    by (intros t; unfold typeIs; rewrite Tp; reflexivity).
  rewrite !Q. cbn [String.eqb Ascii.eqb Bool.eqb orb andb].
  unfold bind. rewrite (currentScope_top s rest cur F).
  unfold isTrackedFunction, inJSX, parentOf.
  destruct (existsb _ (trackedScopes cur)); cbn [negb andb]; [reflexivity|].
  match goal with |- (if ?c then _ else _) _ = Ok tt (if ?c' then _ else _) =>
    change c' with c; destruct c end; reflexivity.
Qed.

(** A read whose parent is none of the nodes the loop body looks for is
    passed in silence. *)
Lemma signalBody_elsewhere (src : Source) (reference : Reference) (d : Node) (s : St)
      (p : Node) :
  isWrite reference = false ->
  parent (identifier reference) = Some p ->
  ~ In (type p) ["CallExpression"; "ArrayExpression"; "TemplateLiteral"; "BinaryExpression";
                 "UnaryExpression"; "MemberExpression"; "JSXExpressionContainer"] ->
  signalBody src reference d s = Ok tt s.
Proof.
  intros W P N. unfold signalBody. rewrite W, P.
  destruct (String.eqb (type (identifier reference)) "Identifier"); [|reflexivity].
  unfold typeIs.
  repeat match goal with
         | |- context [String.eqb (type p) ?t] =>
             let E := fresh "E" in
             destruct (String.eqb (type p) t) eqn:E;
             [apply String.eqb_eq in E; exfalso; apply N; rewrite E; simpl; tauto|]
         end.
  reflexivity.
Qed.


